(** * A shallow embedding of the trivia game server (server.js)

    The server keeps a process-wide registry [games] (a JS [Map] from room
    code to [Game] object), one [gameCode] attribute per socket, one
    countdown interval per game and deferred [sendNextQuestion] callbacks.
    Every listener runs to completion on the event loop, so a listener is
    a function from the server state to an outcome: the new state together
    with the messages it emitted, or an uncaught exception.

    Conventions of the embedding
    - JS strings are [string].  Text of the ASCII range, [Str.isAscii],
      is represented exactly, one character per code unit, and on it
      the string primitives written out here ([toUpperCase], [trim],
      [substring]) are those of JS.  Beyond that range JS also trims
      U+00A0 and the other Unicode spaces, maps letters such as U+017F
      or U+00DF onto ASCII ones and counts UTF-16 code units, which
      these definitions do not: what is stated about the result of a
      primitive is stated for ASCII text.
    - The argument of an inbound event is a [Value]: a string, a
      number, or anything else a client can put on the wire.  [Event]
      has the events with arguments of the type the listeners expect;
      [Packet] has them with any argument.
    - A JS [Map] whose iteration order is observable ([players]) is an
      association list in insertion order; the registry and the per-socket
      attribute are [gmap]s; the [Set] of used question ids is a [gset].
    - [Math.floor(Math.random() * n)] is a draw from a list of naturals
      reduced modulo [n]: every index below [n] is a possible result and
      no other one is.
    - Numbers that only count upwards from zero are [nat]; indices that
      can be [-1] or come from a client are [Z]. *)

From Stdlib Require Import ZArith Ascii String DecimalString DecimalNat.
From stdpp Require Import base option list gmap sets strings.

Local Open Scope string_scope.
Local Open Scope Z_scope.

#[local] Set Warnings "-clear-no-such-hyp".

(** ** String primitives *)

Module Str.

Definition in_range (lo hi c : ascii) : bool :=
  ((N_of_ascii lo <=? N_of_ascii c) && (N_of_ascii c <=? N_of_ascii hi))%N.

(** The character class [[A-Za-z0-9]]. *)
Definition isAlnum (c : ascii) : bool :=
  in_range "A" "Z" c || in_range "a" "z" c || in_range "0" "9" c.

Definition isLower (c : ascii) : bool := in_range "a" "z" c.

Definition upper_char (c : ascii) : ascii :=
  if isLower c then ascii_of_N (N_of_ascii c - 32) else c.

(** [String.prototype.toUpperCase], on ASCII text. *)
Fixpoint toUpperCase (s : string) : string :=
  match s with
  | EmptyString => EmptyString
  | String c s' => String (upper_char c) (toUpperCase s')
  end.

Fixpoint all_chars (p : ascii → bool) (s : string) : bool :=
  match s with
  | EmptyString => true
  | String c s' => p c && all_chars p s'
  end.

(** White space and line terminators of the ASCII range:
    TAB, LF, VT, FF, CR and SPACE. *)
Definition isSpace (c : ascii) : bool :=
  let n := N_of_ascii c in ((n =? 32) || ((9 <=? n) && (n <=? 13)))%N.

Fixpoint trimStart (s : string) : string :=
  match s with
  | EmptyString => EmptyString
  | String c s' => if isSpace c then trimStart s' else s
  end.

Fixpoint trimEnd (s : string) : string :=
  match s with
  | EmptyString => EmptyString
  | String c s' =>
      match trimEnd s' with
      | EmptyString => if isSpace c then EmptyString else String c EmptyString
      | t => String c t
      end
  end.

(** [String.prototype.trim]. *)
Definition trim (s : string) : string := trimEnd (trimStart s).

(** Two characters that are equal up to the case of a letter. *)
Definition same_letter (a b : ascii) : bool :=
  bool_decide (a = b)
  || (isLower a && bool_decide (b = upper_char a))
  || (isLower b && bool_decide (a = upper_char b)).

(** Two strings that spell the same code in any letter case. *)
Fixpoint same_ignoring_case (s t : string) : bool :=
  match s, t with
  | EmptyString, EmptyString => true
  | String a s', String b t' => same_letter a b && same_ignoring_case s' t'
  | _, _ => false
  end.

(** Any character but the hyphen that separates strand and index in a
    question id. *)
Definition not_dash (c : ascii) : bool := negb (Ascii.eqb c "-").

(** Decimal rendering of an array index, as a template literal prints it. *)
Definition of_index (n : nat) : string :=
  NilEmpty.string_of_uint (Nat.to_uint n).

(** Text of the ASCII range: every code unit is below 128.  On such
    text [toUpperCase], [trim] and [substring] above compute what the
    JS primitives compute. *)
Definition isAscii (s : string) : bool :=
  all_chars (λ c, (N_of_ascii c <? 128)%N) s.

End Str.

(** ** Data model *)

(** The value stored in [game.players] for one socket. *)
Record Player := mkPlayer {
  player_id : string;
  name : string;
  score : nat;
  isHost : bool;
}.

Global Instance Player_eq_dec : EqDecision Player.
Proof. solve_decision. Defined.

(** An entry of the question bank [./data/questions.js]. *)
Record BankQuestion := mkBankQuestion {
  bank_question : string;
  bank_answers : list string;
  bank_correctIndex : Z;
}.

(** The question bank: grade level, then strand, then the strand's
    questions, each level in the enumeration order of the JS object. *)
Definition Strands : Type := list (string * list BankQuestion).
Definition Bank : Type := list (string * Strands).

(** A drawn question [{ ...q, strand, id }]. *)
Record Question := mkQuestion {
  question : string;
  answers : list string;
  correctIndex : Z;
  strand : string;
  question_id : string;
}.

Global Instance Question_eq_dec : EqDecision Question.
Proof. solve_decision. Defined.

(** The state of the handle kept in [game.timerInterval]: [null], a
    running interval, or the stale handle of a cleared one. *)
Inductive Timer := TimerNull | TimerLive | TimerCleared.

Global Instance Timer_eq_dec : EqDecision Timer.
Proof. solve_decision. Defined.

Definition clearInterval (t : Timer) : Timer :=
  match t with
  | TimerLive => TimerCleared
  | other => other
  end.

(** The fields of [class Game]. *)
Record Game := mkGame {
  code : string;
  hostId : string;
  players : list (string * Player);
  started : bool;
  gradeLevel : option string;
  currentQuestion : option Question;
  questionIndex : nat;
  usedQuestions : gset string;
  questionAnswered : bool;
  timerInterval : Timer;
  timeRemaining : Z;
  winner : option Player;
}.

(** [new Game(code, hostId)] *)
Definition newGame (code hostId : string) : Game :=
  {| code := code; hostId := hostId; players := []; started := false;
     gradeLevel := None; currentQuestion := None; questionIndex := 0;
     usedQuestions := ∅; questionAnswered := false;
     timerInterval := TimerNull; timeRemaining := 15; winner := None |}.

(** Assignments to one field of a game, [game.f = v]. *)
Definition set_players (v : list (string * Player)) (g : Game) : Game :=
  {| code := code g; hostId := hostId g; players := v; started := started g;
     gradeLevel := gradeLevel g; currentQuestion := currentQuestion g;
     questionIndex := questionIndex g; usedQuestions := usedQuestions g;
     questionAnswered := questionAnswered g;
     timerInterval := timerInterval g; timeRemaining := timeRemaining g;
     winner := winner g |}.
Definition set_started (v : bool) (g : Game) : Game :=
  {| code := code g; hostId := hostId g; players := players g; started := v;
     gradeLevel := gradeLevel g; currentQuestion := currentQuestion g;
     questionIndex := questionIndex g; usedQuestions := usedQuestions g;
     questionAnswered := questionAnswered g;
     timerInterval := timerInterval g; timeRemaining := timeRemaining g;
     winner := winner g |}.
Definition set_gradeLevel (v : option string) (g : Game) : Game :=
  {| code := code g; hostId := hostId g; players := players g;
     started := started g; gradeLevel := v;
     currentQuestion := currentQuestion g; questionIndex := questionIndex g;
     usedQuestions := usedQuestions g;
     questionAnswered := questionAnswered g;
     timerInterval := timerInterval g; timeRemaining := timeRemaining g;
     winner := winner g |}.
Definition set_currentQuestion (v : option Question) (g : Game) : Game :=
  {| code := code g; hostId := hostId g; players := players g;
     started := started g; gradeLevel := gradeLevel g; currentQuestion := v;
     questionIndex := questionIndex g; usedQuestions := usedQuestions g;
     questionAnswered := questionAnswered g;
     timerInterval := timerInterval g; timeRemaining := timeRemaining g;
     winner := winner g |}.
Definition set_questionIndex (v : nat) (g : Game) : Game :=
  {| code := code g; hostId := hostId g; players := players g;
     started := started g; gradeLevel := gradeLevel g;
     currentQuestion := currentQuestion g; questionIndex := v;
     usedQuestions := usedQuestions g;
     questionAnswered := questionAnswered g;
     timerInterval := timerInterval g; timeRemaining := timeRemaining g;
     winner := winner g |}.
Definition set_usedQuestions (v : gset string) (g : Game) : Game :=
  {| code := code g; hostId := hostId g; players := players g;
     started := started g; gradeLevel := gradeLevel g;
     currentQuestion := currentQuestion g; questionIndex := questionIndex g;
     usedQuestions := v; questionAnswered := questionAnswered g;
     timerInterval := timerInterval g; timeRemaining := timeRemaining g;
     winner := winner g |}.
Definition set_questionAnswered (v : bool) (g : Game) : Game :=
  {| code := code g; hostId := hostId g; players := players g;
     started := started g; gradeLevel := gradeLevel g;
     currentQuestion := currentQuestion g; questionIndex := questionIndex g;
     usedQuestions := usedQuestions g; questionAnswered := v;
     timerInterval := timerInterval g; timeRemaining := timeRemaining g;
     winner := winner g |}.
Definition set_timerInterval (v : Timer) (g : Game) : Game :=
  {| code := code g; hostId := hostId g; players := players g;
     started := started g; gradeLevel := gradeLevel g;
     currentQuestion := currentQuestion g; questionIndex := questionIndex g;
     usedQuestions := usedQuestions g;
     questionAnswered := questionAnswered g; timerInterval := v;
     timeRemaining := timeRemaining g; winner := winner g |}.
Definition set_timeRemaining (v : Z) (g : Game) : Game :=
  {| code := code g; hostId := hostId g; players := players g;
     started := started g; gradeLevel := gradeLevel g;
     currentQuestion := currentQuestion g; questionIndex := questionIndex g;
     usedQuestions := usedQuestions g;
     questionAnswered := questionAnswered g;
     timerInterval := timerInterval g; timeRemaining := v;
     winner := winner g |}.
Definition set_winner (v : option Player) (g : Game) : Game :=
  {| code := code g; hostId := hostId g; players := players g;
     started := started g; gradeLevel := gradeLevel g;
     currentQuestion := currentQuestion g; questionIndex := questionIndex g;
     usedQuestions := usedQuestions g;
     questionAnswered := questionAnswered g;
     timerInterval := timerInterval g; timeRemaining := timeRemaining g;
     winner := v |}.

(** ** JS [Map] with observable iteration order

    [set] on a present key replaces the value in place and keeps the
    key's position; on a new key it appends. *)

Module JsMap.
Section JsMap.
Context {V : Type}.

Fixpoint get (k : string) (m : list (string * V)) : option V :=
  match m with
  | [] => None
  | (k', v) :: m' => if decide (k = k') then Some v else get k m'
  end.

Fixpoint set (k : string) (v : V) (m : list (string * V)) : list (string * V) :=
  match m with
  | [] => [(k, v)]
  | (k', v') :: m' =>
      if decide (k = k') then (k, v) :: m' else (k', v') :: set k v m'
  end.

Fixpoint delete (k : string) (m : list (string * V)) : list (string * V) :=
  match m with
  | [] => []
  | (k', v') :: m' =>
      if decide (k = k') then m' else (k', v') :: delete k m'
  end.

Definition values (m : list (string * V)) : list V := m.*2.

Definition keys (m : list (string * V)) : list string := m.*1.
End JsMap.
End JsMap.

(** ** Outcome of running a piece of the server *)

(** [Done]: ran to completion.  [Throw]: a JS exception left the
    listener uncaught, which ends the Node process.  [OutOfFuel]: the
    recursion went deeper than the bound given to the model. *)
Inductive Outcome (A : Type) : Type :=
  | Done (a : A)
  | Throw (err : string)
  | OutOfFuel.
Arguments Done {A} a.
Arguments Throw {A} err.
Arguments OutOfFuel {A}.

Global Instance Outcome_ret : MRet Outcome := λ A a, Done a.

Global Instance Outcome_bind : MBind Outcome := λ A B f m,
  match m with
  | Done a => f a
  | Throw e => Throw e
  | OutOfFuel => OutOfFuel
  end.

Definition TypeError_null : string :=
  "TypeError: Cannot read properties of null".
Definition TypeError_undefined : string :=
  "TypeError: Cannot read properties of undefined".

(** ** Randomness *)

(** [Math.floor(Math.random() * n)]: the next value of the source,
    reduced below [n].  A source that has run dry keeps yielding 0. *)
Definition randomBelow (n : nat) (rs : list nat) : nat * list nat :=
  match rs with
  | [] => (0%nat, [])
  | r :: rs' => ((if decide (n = 0%nat) then 0 else r mod n)%nat, rs')
  end.

(** ** Methods of [Game] *)

(** [addPlayer(socketId, name)] *)
Definition addPlayer (socketId name : string) (g : Game) : Game :=
  set_players
    (JsMap.set socketId
       {| player_id := socketId; name := name; score := 0;
          isHost := bool_decide (socketId = hostId g) |} (players g)) g.

(** [removePlayer(socketId)] *)
Definition removePlayer (socketId : string) (g : Game) : Game :=
  set_players (JsMap.delete socketId (players g)) g.

(** [getPlayerList()] *)
Definition getPlayerList (g : Game) : list Player := JsMap.values (players g).

(** [checkWinner()]: the first player, in insertion order, whose score
    is at least 10. *)
Definition checkWinner (g : Game) : option Player :=
  List.find (fun p => (10 <=? score p)%nat) (JsMap.values (players g)).

(** ** Drawing a question *)

(** [questions[this.gradeLevel]]; a [null] grade level is the property
    name ["null"]. *)
Definition gradeKey (gradeLevel : option string) : string :=
  match gradeLevel with
  | Some s => s
  | None => "null"
  end.

(** The id of a question: the strand, a hyphen, the index in the strand. *)
Definition questionId (strand : string) (idx : nat) : string :=
  (strand ++ "-" ++ Str.of_index idx)%string.

(** The loop that flattens all strands into [allQuestions]. *)
Definition allQuestionsOf (gradeQuestions : Strands) : list Question :=
  '(strand, qs) ← gradeQuestions;
  imap (fun idx q =>
          {| question := bank_question q; answers := bank_answers q;
             correctIndex := bank_correctIndex q; strand := strand;
             question_id := questionId strand idx |}) qs.

(** [allQuestions.filter(q => !this.usedQuestions.has(q.id))] *)
Definition available (g : Game) (gradeQuestions : Strands) : list Question :=
  filter (λ q, question_id q ∉ usedQuestions g) (allQuestionsOf gradeQuestions).

(** The ids of a grade level's questions, as a set. *)
Definition poolIds (gradeQuestions : Strands) : gset string :=
  list_to_set (question_id <$> allQuestionsOf gradeQuestions).

Section Draw.
Variable questions : Bank.

(** [getRandomQuestion()].  The result is the returned value ([None]
    for [null]), the game with its updated [usedQuestions], and the
    rest of the random source.  [fuel] bounds the depth of the
    recursive call. *)
Fixpoint getRandomQuestion (fuel : nat) (g : Game) (rs : list nat)
  : Outcome (option Question * Game * list nat) :=
  match fuel with
  | O => OutOfFuel
  | S fuel' =>
      match JsMap.get (gradeKey (gradeLevel g)) questions with
      | None => Done (None, g, rs)
      | Some gradeQuestions =>
          let availableQuestions := available g gradeQuestions in
          if decide (length availableQuestions = 0%nat) then
            getRandomQuestion fuel' (set_usedQuestions ∅ g) rs
          else
            let '(randomIndex, rs') :=
              randomBelow (length availableQuestions) rs in
            match availableQuestions !! randomIndex with
            | Some q =>
                Done (Some q,
                      set_usedQuestions ({[question_id q]} ∪ usedQuestions g) g,
                      rs')
            | None => Throw TypeError_undefined
            end
      end
  end.

(** [n] calls of [getRandomQuestion()] in a row on the same game,
    with the values they returned. *)
Fixpoint drawQuestions (fuel n : nat) (g : Game) (rs : list nat)
  : Outcome (list (option Question) * Game * list nat) :=
  match n with
  | O => Done ([], g, rs)
  | S n' =>
      '(drawn, g, rs) ← getRandomQuestion fuel g rs;
      '(rest, g, rs) ← drawQuestions fuel n' g rs;
      Done (drawn :: rest, g, rs)
  end.
End Draw.

(** ** Shuffling the answers *)

(** [[a[i], a[j]] = [a[j], a[i]]] for two indices inside the array. *)
Definition swap {A} (i j : nat) (l : list A) : list A :=
  match l !! i, l !! j with
  | Some x, Some y => <[j := x]> (<[i := y]> l)
  | _, _ => l
  end.

(** The Fisher-Yates loop [for (i = length - 1; i > 0; i--)], entered
    with the current value of [i]. *)
Fixpoint fisherYates {A} (i : nat) (l : list A) (rs : list nat)
  : list A * list nat :=
  match i with
  | O => (l, rs)
  | S i' =>
      let '(j, rs') := randomBelow (i + 1) rs in
      fisherYates i' (swap i j l) rs'
  end.

(** [Array.prototype.findIndex], [-1] when nothing matches. *)
Definition findIndex {A} (p : A → bool) (l : list A) : Z :=
  match list_find (fun x => p x = true) l with
  | Some (i, _) => Z.of_nat i
  | None => -1
  end.

(** [shuffleAnswers(answers, correctIndex)]: the shuffled answers, the
    new correct index and the rest of the random source. *)
Definition shuffleAnswers (answers : list string) (correctIndex : Z)
    (rs : list nat) : list string * Z * list nat :=
  let answerObjs :=
    imap (fun idx answer => (answer, bool_decide (Z.of_nat idx = correctIndex)))
         answers in
  let '(answerObjs, rs') :=
    fisherYates (length answerObjs - 1) answerObjs rs in
  let shuffledAnswers := answerObjs.*1 in
  let newCorrectIndex := findIndex snd answerObjs in
  (shuffledAnswers, newCorrectIndex, rs').

(** ** The server *)

(** Outbound events with their payloads. *)
Inductive Message :=
  | error (message : string)
  | gameCreated (code : string) (isHost : bool)
  | gameJoined (code : string) (isHost : bool)
  | playerList (list_ : list Player)
  | gameStarted (gradeLevel : string)
  | newQuestion (question : string) (answers : list string)
                (strand : string) (questionNumber : nat)
  | timerUpdate (timeRemaining : Z)
  | questionResult (winnerId winnerName : string) (correctIndex : Z)
                   (scores : list Player)
  | timeUp (correctIndex : Z) (scores : list Player)
  | gameOver (winner : Player) (scores : list Player)
  | gameReset (list_ : list Player)
  | chatMessage (playerId playerName message : string) (timestamp : Z)
  | hostLeft.

(** What a listener does to the outside, in program order. *)
Inductive Effect :=
  | SocketEmit (socketId : string) (m : Message)   (* socket.emit(...) *)
  | RoomEmit (room : string) (m : Message)         (* io.to(room).emit(...) *)
  | SocketJoin (socketId room : string)            (* socket.join(room) *)
  | SocketLeave (socketId room : string)           (* socket.leave(room) *)
  | SetTimeout (room : string) (ms : nat).
      (* setTimeout(() => sendNextQuestion(room), ms) *)

Global Instance Message_eq_dec : EqDecision Message.
Proof. solve_decision. Defined.
Global Instance Effect_eq_dec : EqDecision Effect.
Proof. solve_decision. Defined.

(** The registry [games] and the [gameCode] attribute of every socket
    (absent: [undefined] or [null]). *)
Record Server := mkServer {
  games : gmap string Game;
  gameCode : gmap string string;
}.

Definition boot : Server := {| games := ∅; gameCode := ∅ |}.

Definition set_games (v : gmap string Game) (s : Server) : Server :=
  {| games := v; gameCode := gameCode s |}.
Definition set_gameCode (v : gmap string string) (s : Server) : Server :=
  {| games := games s; gameCode := v |}.

(** [games.set(game.code, game)] after the listener has mutated [game]. *)
Definition putGame (c : string) (g : Game) (s : Server) : Server :=
  set_games (<[c := g]> (games s)) s.

(** [games.get(socket.gameCode)], with the code it was found under. *)
Definition socketGame (socketId : string) (s : Server) : option (string * Game) :=
  c ← gameCode s !! socketId; g ← games s !! c; Some (c, g).

(** [isValidCode(code)]: the test of [/^[A-Za-z0-9]{8}$/]. *)
Definition isValidCode (code : string) : bool :=
  bool_decide (String.length code = 8%nat) && Str.all_chars Str.isAlnum code.

Definition Result : Type := Outcome (Server * list Effect).

Definition ignored (s : Server) : Result := Done (s, []).

(** [socket.on('createGame', ...)] *)
Definition on_createGame (socketId code : string) (s : Server) : Result :=
  if negb (isValidCode code) then
    Done (s, [SocketEmit socketId
                (error "Game code must be exactly 8 alphanumeric characters")])
  else
    let upperCode := Str.toUpperCase code in
    if decide (is_Some (games s !! upperCode)) then
      Done (s, [SocketEmit socketId
                  (error "A game with this code already exists")])
    else
      let game := newGame upperCode socketId in
      Done (set_gameCode (<[socketId := upperCode]> (gameCode s))
              (putGame upperCode game s),
            [SocketJoin socketId upperCode;
             SocketEmit socketId (gameCreated upperCode true)]).

(** [socket.on('joinGame', ...)] *)
Definition on_joinGame (socketId code : string) (s : Server) : Result :=
  let upperCode := Str.toUpperCase code in
  match games s !! upperCode with
  | None => Done (s, [SocketEmit socketId (error "Game not found")])
  | Some game =>
      if started game then
        Done (s, [SocketEmit socketId (error "Game has already started")])
      else
        Done (set_gameCode (<[socketId := upperCode]> (gameCode s)) s,
              [SocketJoin socketId upperCode;
               SocketEmit socketId (gameJoined upperCode false)])
  end.

(** [socket.on('setName', ...)] *)
Definition on_setName (socketId name : string) (s : Server) : Result :=
  match socketGame socketId s with
  | None => ignored s
  | Some (c, game) =>
      let trimmedName := substring 0 20 (Str.trim name) in
      if decide (trimmedName = "") then
        Done (s, [SocketEmit socketId (error "Please enter a valid name")])
      else
        let game := addPlayer socketId trimmedName game in
        Done (putGame c game s, [RoomEmit c (playerList (getPlayerList game))])
  end.

(** [socket.on('startGame', ...)] *)
Definition on_startGame (socketId gradeLevel : string) (s : Server) : Result :=
  match socketGame socketId s with
  | None => ignored s
  | Some (c, game) =>
      if decide (socketId ≠ hostId game) then
        Done (s, [SocketEmit socketId (error "Only the host can start the game")])
      else if negb (bool_decide (gradeLevel ∈ ["6th"; "7th"; "8th"])) then
        Done (s, [SocketEmit socketId (error "Invalid grade level")])
      else
        let game := set_started true (set_gradeLevel (Some gradeLevel) game) in
        Done (putGame c game s,
              [RoomEmit c (gameStarted gradeLevel); SetTimeout c 1000])
  end.

(** [player.score += 1] on the player object stored under [socketId]. *)
Definition scorePoint (socketId : string) (player : Player) (g : Game) : Game :=
  set_players
    (JsMap.set socketId
       {| player_id := player_id player; name := name player;
          score := score player + 1; isHost := isHost player |} (players g)) g.

(** [socket.on('submitAnswer', ...)] *)
Definition on_submitAnswer (socketId : string) (answerIndex : Z) (s : Server)
  : Result :=
  match socketGame socketId s with
  | None => ignored s
  | Some (c, game) =>
      if negb (started game) || questionAnswered game then ignored s else
      match JsMap.get socketId (players game) with
      | None => ignored s
      | Some player =>
          match currentQuestion game with
          | None => Throw TypeError_null
          | Some q =>
              if decide (answerIndex = correctIndex q) then
                let game := set_questionAnswered true game in
                let game := set_timerInterval (clearInterval (timerInterval game)) game in
                let game := scorePoint socketId player game in
                let result :=
                  RoomEmit c (questionResult socketId (name player)
                                (correctIndex q) (getPlayerList game)) in
                match checkWinner game with
                | Some gameWinner =>
                    let game := set_winner (Some gameWinner) game in
                    Done (putGame c game s,
                          [result;
                           RoomEmit c (gameOver gameWinner (getPlayerList game))])
                | None =>
                    Done (putGame c game s, [result; SetTimeout c 3000])
                end
              else ignored s
          end
      end
  end.

(** [socket.on('chatMessage', ...)]; [now] is the value of [Date.now()]. *)
Definition on_chatMessage (socketId message : string) (now : Z) (s : Server)
  : Result :=
  match socketGame socketId s with
  | None => ignored s
  | Some (c, game) =>
      match JsMap.get socketId (players game) with
      | None => ignored s
      | Some player =>
          let trimmedMessage := substring 0 200 (Str.trim message) in
          if decide (trimmedMessage = "") then ignored s
          else Done (s, [RoomEmit c (chatMessage socketId (name player)
                                        trimmedMessage now)])
      end
  end.

(** The loop [for (const player of game.players.values()) player.score = 0]. *)
Definition resetScores (ps : list (string * Player)) : list (string * Player) :=
  (fun '(k, p) =>
     (k, {| player_id := player_id p; name := name p; score := 0;
            isHost := isHost p |})) <$> ps.

(** [socket.on('playAgain', ...)] *)
Definition on_playAgain (socketId : string) (s : Server) : Result :=
  match socketGame socketId s with
  | None => ignored s
  | Some (c, game) =>
      if decide (socketId ≠ hostId game) then
        Done (s, [SocketEmit socketId
                    (error "Only the host can restart the game")])
      else
        let game := set_started false game in
        let game := set_currentQuestion None game in
        let game := set_questionIndex 0 game in
        let game := set_usedQuestions ∅ game in
        let game := set_questionAnswered false game in
        let game := set_winner None game in
        let game := set_timerInterval (clearInterval (timerInterval game)) game in
        let game := set_players (resetScores (players game)) game in
        Done (putGame c game s, [RoomEmit c (gameReset (getPlayerList game))])
  end.

(** [handleDisconnect(socket)], behind ['leaveGame'] and ['disconnect']. *)
Definition handleDisconnect (socketId : string) (s : Server) : Result :=
  match socketGame socketId s with
  | None => ignored s
  | Some (c, game) =>
      let game := removePlayer socketId game in
      if decide (socketId = hostId game) then
        (* clearInterval(game.timerInterval): the game and its interval
           are dropped together with the registry entry *)
        Done (set_gameCode (delete socketId (gameCode s))
                (set_games (delete c (games s)) s),
              [SocketLeave socketId c; RoomEmit c hostLeft])
      else
        Done (set_gameCode (delete socketId (gameCode s)) (putGame c game s),
              [SocketLeave socketId c;
               RoomEmit c (playerList (getPlayerList game))])
  end.

(** The callback given to [setInterval] in [sendNextQuestion], run on
    the game it closes over. *)
Definition countdown (gameCode : string) (game : Game)
  : Outcome (Game * list Effect) :=
  let game := set_timeRemaining (timeRemaining game - 1) game in
  let update := RoomEmit gameCode (timerUpdate (timeRemaining game)) in
  if decide (timeRemaining game ≤ 0) then
    let game := set_timerInterval (clearInterval (timerInterval game)) game in
    if negb (questionAnswered game) then
      let game := set_questionAnswered true game in
      match currentQuestion game with
      | None => Throw TypeError_null
      | Some q =>
          Done (game,
                [update;
                 RoomEmit gameCode (timeUp (correctIndex q) (getPlayerList game));
                 SetTimeout gameCode 3000])
      end
    else Done (game, [update])
  else Done (game, [update]).

(** One firing of the interval of the game registered under [gameCode];
    a cleared interval never fires. *)
Definition intervalTick (gameCode : string) (s : Server) : Result :=
  match games s !! gameCode with
  | Some game =>
      if decide (timerInterval game = TimerLive) then
        '(game, effects) ← countdown gameCode game;
        Done (putGame gameCode game s, effects)
      else ignored s
  | None => ignored s
  end.

Section Rounds.
Variable questions : Bank.

(** [sendNextQuestion(gameCode)] *)
Definition sendNextQuestion (fuel : nat) (gameCode : string) (rs : list nat)
    (s : Server) : Result :=
  match games s !! gameCode with
  | None => ignored s
  | Some game =>
      if negb (started game) || bool_decide (is_Some (winner game)) then
        ignored s
      else
        let game := set_questionAnswered false game in
        '(drawn, game, rs) ← getRandomQuestion questions fuel game rs;
        let game := set_questionIndex (questionIndex game + 1) game in
        let game := set_timeRemaining 15 game in
        match drawn with
        | None => Throw TypeError_null
        | Some q =>
            let '(shuffledAnswers, newCorrectIndex, _) :=
              shuffleAnswers (answers q) (correctIndex q) rs in
            let q :=
              {| question := question q; answers := shuffledAnswers;
                 correctIndex := newCorrectIndex; strand := strand q;
                 question_id := question_id q |} in
            let game := set_currentQuestion (Some q) game in
            let game := set_timerInterval TimerLive game in
            Done (putGame gameCode game s,
                  [RoomEmit gameCode
                     (newQuestion (question q) (answers q) (strand q)
                        (questionIndex game))])
        end
  end.

(** What the event loop can deliver to the server: the inbound socket
    events, a firing of a game's interval, and a deferred
    [sendNextQuestion(gameCode)] coming due, with the random draws it
    will make.  The model does not keep the queue of pending callbacks:
    a run may deliver [TimeoutFires] at any point, so the runs of the
    model include every run of the server. *)
Inductive Event :=
  | CreateGame (socketId code : string)
  | JoinGame (socketId code : string)
  | SetName (socketId name : string)
  | StartGame (socketId gradeLevel : string)
  | SubmitAnswer (socketId : string) (answerIndex : Z)
  | ChatMessage (socketId message : string) (now : Z)
  | PlayAgain (socketId : string)
  | LeaveGame (socketId : string)
  | Disconnect (socketId : string)
  | IntervalTick (gameCode : string)
  | TimeoutFires (gameCode : string) (rs : list nat).

Definition handle (fuel : nat) (ev : Event) (s : Server) : Result :=
  match ev with
  | CreateGame sid code => on_createGame sid code s
  | JoinGame sid code => on_joinGame sid code s
  | SetName sid name => on_setName sid name s
  | StartGame sid gradeLevel => on_startGame sid gradeLevel s
  | SubmitAnswer sid answerIndex => on_submitAnswer sid answerIndex s
  | ChatMessage sid message now => on_chatMessage sid message now s
  | PlayAgain sid => on_playAgain sid s
  | LeaveGame sid => handleDisconnect sid s
  | Disconnect sid => handleDisconnect sid s
  | IntervalTick gameCode => intervalTick gameCode s
  | TimeoutFires gameCode rs => sendNextQuestion fuel gameCode rs s
  end.

(** The listeners run one after the other; the effects accumulate. *)
Fixpoint run (fuel : nat) (evs : list Event) (s : Server) : Result :=
  match evs with
  | [] => Done (s, [])
  | ev :: evs' =>
      '(s1, out1) ← handle fuel ev s;
      '(s2, out2) ← run fuel evs' s1;
      Done (s2, (out1 ++ out2)%list)
  end.
End Rounds.

(** ** Observations on a run *)

Global Instance Event_eq_dec : EqDecision Event.
Proof. solve_decision. Defined.

(** The two broadcasts that close a question in [room]. *)
Definition isResolution (room : string) (e : Effect) : bool :=
  match e with
  | RoomEmit r (questionResult _ _ _ _) => bool_decide (r = room)
  | RoomEmit r (timeUp _ _) => bool_decide (r = room)
  | _ => false
  end.

Definition resolutions (room : string) (out : list Effect) : nat :=
  length (filter (λ e, isResolution room e = true) out).

(** The events of a round of [room]: answers from the sockets whose
    [gameCode] is [room], and firings of the room's interval. *)
Definition ofRound (s : Server) (room : string) (ev : Event) : Prop :=
  match ev with
  | SubmitAnswer socketId _ => gameCode s !! socketId = Some room
  | IntervalTick r => r = room
  | _ => False
  end.

Definition ticks (room : string) (evs : list Event) : nat :=
  length (filter (λ ev, ev = IntervalTick room) evs).

(** The question of [g0] is open in [room]: the game is [g0] up to the
    seconds that have gone by. *)
Definition questionOpen (room : string) (g0 : Game) (s0 s : Server) : Prop :=
  gameCode s = gameCode s0
  ∧ ∃ t, games s !! room = Some (set_timeRemaining t g0).

(** The question in [room] is closed: the latch is set and the interval
    is off. *)
Definition questionClosed (room : string) (s0 s : Server) : Prop :=
  gameCode s = gameCode s0
  ∧ ∃ g, games s !! room = Some g
         ∧ questionAnswered g = true ∧ timerInterval g ≠ TimerLive.

(** The scores of a game as the listeners keep them: no score is above
    10, and a score of 10 is only there once the latch is set and the
    winner is recorded. *)
Definition scoresKept (g : Game) : Prop :=
  ∀ p, p ∈ getPlayerList g →
    (score p ≤ 10)%nat
    ∧ ((10 ≤ score p)%nat → questionAnswered g = true ∧ is_Some (winner g)).

Definition allScoresKept (s : Server) : Prop :=
  ∀ c g, games s !! c = Some g → scoresKept g.

Definition isSetTimeout (e : Effect) : bool :=
  match e with
  | SetTimeout _ _ => true
  | _ => false
  end.

(** ** Well-formedness of the state the listeners build *)

(** A registry entry: the key is a normalized code and the game
    carries it. *)
Definition codeKept (c : string) (g : Game) : Prop :=
  code g = c ∧ isValidCode c = true ∧ Str.toUpperCase c = c.

(** The roster: one entry per socket, each entry filed under its own
    id, flagged as host exactly when that id is the game's host, with a
    name of 1 to 20 characters. *)
Definition rosterKept (g : Game) : Prop :=
  NoDup (JsMap.keys (players g))
  ∧ ∀ k p, (k, p) ∈ players g →
      player_id p = k
      ∧ isHost p = bool_decide (k = hostId g)
      ∧ name p ≠ ""
      ∧ (String.length (name p) ≤ 20)%nat.

(** A started game has one of the three grade levels. *)
Definition gradeKept (g : Game) : Prop :=
  started g = true →
  ∃ gl, gradeLevel g = Some gl ∧ gl ∈ ["6th"; "7th"; "8th"].

(** The round state: the clock stays between 0 and 15, there is a
    current question exactly when questions were sent since the last
    reset, and the interval runs only over an open question of a started
    game without winner, with at least one second left. *)
Definition roundKept (g : Game) : Prop :=
  0 ≤ timeRemaining g ≤ 15
  ∧ (currentQuestion g = None ↔ questionIndex g = 0%nat)
  ∧ (timerInterval g = TimerLive →
       started g = true
       ∧ is_Some (currentQuestion g)
       ∧ questionAnswered g = false
       ∧ winner g = None
       ∧ 1 ≤ timeRemaining g).

Definition gameKept (c : string) (g : Game) : Prop :=
  codeKept c g ∧ rosterKept g ∧ gradeKept g ∧ roundKept g.

(** Every registered game is well formed and every socket's [gameCode]
    is a normalized code. *)
Definition serverKept (s : Server) : Prop :=
  (∀ c g, games s !! c = Some g → gameKept c g)
  ∧ (∀ socketId c, gameCode s !! socketId = Some c →
       isValidCode c = true ∧ Str.toUpperCase c = c).


(** The socket an inbound event comes from; callbacks have none. *)
Definition sender (ev : Event) : option string :=
  match ev with
  | CreateGame sid _ | JoinGame sid _ | SetName sid _ | StartGame sid _
  | SubmitAnswer sid _ | ChatMessage sid _ _ | PlayAgain sid
  | LeaveGame sid | Disconnect sid => Some sid
  | IntervalTick _ | TimeoutFires _ _ => None
  end.

Definition isError (e : Effect) : bool :=
  match e with
  | SocketEmit _ (error _) => true
  | RoomEmit _ (error _) => true
  | _ => false
  end.

(** The [timerUpdate] broadcasts of [n] firings of the interval that
    start with [t] seconds on the clock. *)
Definition timerUpdates (room : string) (t : Z) (n : nat) : list Effect :=
  (λ i : nat, RoomEmit room (timerUpdate (t - 1 - Z.of_nat i))) <$> seq 0 n.

(** ** Arguments as a client sends them *)

(** The argument of an inbound event is the JSON value the client chose
    to send.  [VNumber z] is the integer [z]; [VOther shown] is any
    value that is neither a string nor an integer ([undefined], [null],
    a boolean, a fraction, an array, an object), of which the listeners
    can only observe [String(value)], here [shown]. *)
Inductive Value :=
  | VString (s : string)
  | VNumber (z : Z)
  | VOther (shown : string).

Global Instance Value_eq_dec : EqDecision Value.
Proof. solve_decision. Defined.

Definition isString (v : Value) : bool :=
  match v with
  | VString _ => true
  | _ => false
  end.

(** [String(value)], as [RegExp.prototype.test] converts its argument.
    An integer is printed as its decimal numeral; from 10^21 on JS
    prints an exponent instead, and neither form has 8 characters. *)
Definition toString (v : Value) : string :=
  match v with
  | VString s => s
  | VNumber z => NilZero.string_of_int (Z.to_int z)
  | VOther shown => shown
  end.

Definition TypeError_not_a_string : string :=
  "TypeError: string method called on a value that is not a string".

(** A call of [toUpperCase] or [trim] on the argument: only a string
    has these methods, on any other value the call throws. *)
Definition stringMethod (v : Value) : Outcome string :=
  match v with
  | VString s => Done s
  | _ => Throw TypeError_not_a_string
  end.

(** ['createGame']: [isValidCode] tests the string form of the
    argument, then [code.toUpperCase()] is called on the argument. *)
Definition recv_createGame (socketId : string) (code : Value) (s : Server)
  : Result :=
  if negb (isValidCode (toString code)) then
    Done (s, [SocketEmit socketId
                (error "Game code must be exactly 8 alphanumeric characters")])
  else
    code ← stringMethod code; on_createGame socketId code s.

(** ['joinGame']: [code.toUpperCase()] is the first thing it does. *)
Definition recv_joinGame (socketId : string) (code : Value) (s : Server)
  : Result :=
  code ← stringMethod code; on_joinGame socketId code s.

(** ['setName']: [name.trim()] is called once the game was found. *)
Definition recv_setName (socketId : string) (name : Value) (s : Server)
  : Result :=
  match socketGame socketId s with
  | None => ignored s
  | Some _ => name ← stringMethod name; on_setName socketId name s
  end.

(** ['startGame']: a value that is not a string is not among the three
    grade levels that [includes] looks for. *)
Definition recv_startGame (socketId : string) (gradeLevel : Value)
    (s : Server) : Result :=
  match gradeLevel with
  | VString gradeLevel => on_startGame socketId gradeLevel s
  | _ =>
      match socketGame socketId s with
      | None => ignored s
      | Some (c, game) =>
          if decide (socketId ≠ hostId game) then
            Done (s, [SocketEmit socketId
                        (error "Only the host can start the game")])
          else
            Done (s, [SocketEmit socketId (error "Invalid grade level")])
      end
  end.

(** ['submitAnswer']: [===] holds for no value but the number itself;
    the comparison still reads [game.currentQuestion.correctIndex]. *)
Definition recv_submitAnswer (socketId : string) (answerIndex : Value)
    (s : Server) : Result :=
  match answerIndex with
  | VNumber answerIndex => on_submitAnswer socketId answerIndex s
  | _ =>
      match socketGame socketId s with
      | None => ignored s
      | Some (c, game) =>
          if negb (started game) || questionAnswered game then ignored s else
          match JsMap.get socketId (players game) with
          | None => ignored s
          | Some player =>
              match currentQuestion game with
              | None => Throw TypeError_null
              | Some q => ignored s
              end
          end
      end
  end.

(** ['chatMessage']: [message.trim()] is called once the game and the
    player were found. *)
Definition recv_chatMessage (socketId : string) (message : Value) (now : Z)
    (s : Server) : Result :=
  match socketGame socketId s with
  | None => ignored s
  | Some (c, game) =>
      match JsMap.get socketId (players game) with
      | None => ignored s
      | Some player =>
          message ← stringMethod message;
          on_chatMessage socketId message now s
      end
  end.

(** What arrives at the server: an inbound event with the argument the
    client sent (the listeners of ['playAgain'], ['leaveGame'] and
    ['disconnect'] look at no argument), a firing of a game's interval,
    or a deferred [sendNextQuestion] coming due. *)
Inductive Packet :=
  | OnCreateGame (socketId : string) (code : Value)
  | OnJoinGame (socketId : string) (code : Value)
  | OnSetName (socketId : string) (name : Value)
  | OnStartGame (socketId : string) (gradeLevel : Value)
  | OnSubmitAnswer (socketId : string) (answerIndex : Value)
  | OnChatMessage (socketId : string) (message : Value) (now : Z)
  | OnPlayAgain (socketId : string)
  | OnLeaveGame (socketId : string)
  | OnDisconnect (socketId : string)
  | OnInterval (gameCode : string)
  | OnTimeout (gameCode : string) (rs : list nat).

(** An event whose argument has the type the listener expects. *)
Definition ofEvent (ev : Event) : Packet :=
  match ev with
  | CreateGame sid code => OnCreateGame sid (VString code)
  | JoinGame sid code => OnJoinGame sid (VString code)
  | SetName sid name => OnSetName sid (VString name)
  | StartGame sid gradeLevel => OnStartGame sid (VString gradeLevel)
  | SubmitAnswer sid answerIndex => OnSubmitAnswer sid (VNumber answerIndex)
  | ChatMessage sid message now => OnChatMessage sid (VString message) now
  | PlayAgain sid => OnPlayAgain sid
  | LeaveGame sid => OnLeaveGame sid
  | Disconnect sid => OnDisconnect sid
  | IntervalTick gameCode => OnInterval gameCode
  | TimeoutFires gameCode rs => OnTimeout gameCode rs
  end.

Section Wire.
Variable questions : Bank.

Definition receive (fuel : nat) (p : Packet) (s : Server) : Result :=
  match p with
  | OnCreateGame sid code => recv_createGame sid code s
  | OnJoinGame sid code => recv_joinGame sid code s
  | OnSetName sid name => recv_setName sid name s
  | OnStartGame sid gradeLevel => recv_startGame sid gradeLevel s
  | OnSubmitAnswer sid answerIndex => recv_submitAnswer sid answerIndex s
  | OnChatMessage sid message now => recv_chatMessage sid message now s
  | OnPlayAgain sid => on_playAgain sid s
  | OnLeaveGame sid => handleDisconnect sid s
  | OnDisconnect sid => handleDisconnect sid s
  | OnInterval gameCode => intervalTick gameCode s
  | OnTimeout gameCode rs => sendNextQuestion questions fuel gameCode rs s
  end.

End Wire.

(** ** Questions and their resolutions in what a run emitted *)

(** The broadcast that makes a question the active one of [room]. *)
Definition isNewQuestion (room : string) (e : Effect) : bool :=
  match e with
  | RoomEmit r (newQuestion _ _ _ _) => bool_decide (r = room)
  | _ => false
  end.

Definition questionsSent (room : string) (out : list Effect) : nat :=
  length (filter (λ e, isNewQuestion room e = true) out).

(** Reading what was emitted from left to right, with [n] the
    resolutions broadcast to [room] since its last [newQuestion]: the
    count at the end, or [None] when a question got a second
    resolution on the way. *)
Fixpoint tally (room : string) (n : nat) (out : list Effect) : option nat :=
  match out with
  | [] => Some n
  | e :: out' =>
      if isNewQuestion room e then tally room 0 out'
      else if isResolution room e then
        match n with
        | O => tally room 1 out'
        | S _ => None
        end
      else tally room n out'
  end.

(** The room has a question that can still be resolved: a current
    question with the latch clear. *)
Definition awaitsResolution (room : string) (s : Server) : Prop :=
  ∃ g, games s !! room = Some g
       ∧ questionAnswered g = false ∧ is_Some (currentQuestion g).

(** The claim that every question is resolved exactly once, read on
    what a run emitted: between two successive [newQuestion] of [room]
    there is exactly one resolution. *)
Definition resolvedExactlyOnce (room : string) (out : list Effect) : Prop :=
  ∀ pre first mid second post,
    out = (pre ++ first :: mid ++ second :: post)%list →
    isNewQuestion room first = true →
    isNewQuestion room second = true →
    Forall (λ e, isNewQuestion room e = false) mid →
    resolutions room mid = 1%nat.

(** The socket a packet comes from; callbacks have none. *)
Definition packetSender (p : Packet) : option string :=
  match p with
  | OnCreateGame sid _ | OnJoinGame sid _ | OnSetName sid _
  | OnStartGame sid _ | OnSubmitAnswer sid _ | OnChatMessage sid _ _
  | OnPlayAgain sid | OnLeaveGame sid | OnDisconnect sid => Some sid
  | OnInterval _ | OnTimeout _ _ => None
  end.

(** An event that takes the room's current question away before its
    time: the room's next [sendNextQuestion], and [playAgain] or a
    departure from the host's socket. *)
Definition abandons (room host : string) (ev : Event) : Prop :=
  match ev with
  | TimeoutFires r _ => r = room
  | PlayAgain sid | LeaveGame sid | Disconnect sid => sid = host
  | _ => False
  end.

(** The question [q] is open in [room]: it is the current question of
    the started game [g] registered there, and the latch is clear. *)
Definition standsOpen (room : string) (q : Question) (s : Server) (g : Game)
  : Prop :=
  games s !! room = Some g
  ∧ currentQuestion g = Some q
  ∧ started g = true
  ∧ questionAnswered g = false.

(** ** A small question bank and a few sessions, used to run the model *)

Module Demo.

Definition bank : Bank :=
  [("6th",
    [("algebra",
      [mkBankQuestion "1+1?" ["1"; "2"; "3"; "4"] 1;
       mkBankQuestion "2+2?" ["4"; "5"; "6"; "7"] 0]);
     ("geometry",
      [mkBankQuestion "Sides of a triangle?" ["2"; "3"] 1])]);
   ("7th", [("algebra", [])])].

(** The server after the listeners for [evs] have run. *)
Definition after (evs : list Event) : Server :=
  match run bank 2 evs boot with
  | Done (s, _) => s
  | _ => boot
  end.

(** What those listeners emitted. *)
Definition emitted (evs : list Event) : list Effect :=
  match run bank 2 evs boot with
  | Done (_, out) => out
  | _ => []
  end.

Definition gameAt (c : string) (s : Server) : Game :=
  default (newGame c "") (games s !! c).

(** A host and a guest in the lobby; a third socket joined without
    registering a name. *)
Definition lobby : list Event :=
  [CreateGame "host" "abcd1234"; JoinGame "guest" "ABCD1234";
   JoinGame "lurker" "Abcd1234"; SetName "host" "Ann";
   SetName "guest" "  Bob "].

(** The first question is open; its correct answer sits at index 2. *)
Definition firstRound : list Event :=
  lobby ++ [StartGame "host" "6th";
            TimeoutFires "ABCD1234" [1; 2; 3; 1]%nat].

(** One round won by the host: the next question is sent with a dry
    random source, which picks the first available question and rotates
    its answers one place to the left, and the host gives the correct
    index. *)
Definition hostWins (answerIndex : Z) : list Event :=
  [TimeoutFires "ABCD1234" []; SubmitAnswer "host" answerIndex].

(** Nine rounds won by the host, and the tenth question open. *)
Definition matchPoint : list Event :=
  lobby ++ [StartGame "host" "6th"]
  ++ (mbind hostWins [0; 3; 0; 0; 3; 0; 0; 3; 0])
  ++ [TimeoutFires "ABCD1234" []].

End Demo.

(** * Properties *)

(** ** Codes and the registry *)

Lemma upper_char_of_lower (a : ascii) :
  Str.isLower a = true →
  Str.isAlnum (Str.upper_char a) = true
  ∧ Str.upper_char (Str.upper_char a) = Str.upper_char a.
Proof.
  destruct a as [[] [] [] [] [] [] [] []]; vm_compute; (discriminate || done).
Qed.

Lemma lower_is_alnum (a : ascii) : Str.isLower a = true → Str.isAlnum a = true.
Proof.
  destruct a as [[] [] [] [] [] [] [] []]; vm_compute; (discriminate || done).
Qed.

Lemma same_letter_spec (a b : ascii) :
  Str.same_letter a b = true →
  Str.isAlnum a = Str.isAlnum b ∧ Str.upper_char b = Str.upper_char a.
Proof.
  unfold Str.same_letter. intros H.
  apply orb_true_iff in H as [H|H]; [apply orb_true_iff in H as [H|H]|].
  - apply bool_decide_eq_true in H. by subst.
  - apply andb_true_iff in H as [Hl H]. apply bool_decide_eq_true in H.
    subst b. destruct (upper_char_of_lower a Hl) as [H1 H2].
    by rewrite H1, H2, (lower_is_alnum a Hl).
  - apply andb_true_iff in H as [Hl H]. apply bool_decide_eq_true in H.
    subst a. destruct (upper_char_of_lower b Hl) as [H1 H2].
    by rewrite H1, H2, (lower_is_alnum b Hl).
Qed.

Lemma same_ignoring_case_spec (s t : string) :
  Str.same_ignoring_case s t = true →
  String.length s = String.length t
  ∧ Str.all_chars Str.isAlnum s = Str.all_chars Str.isAlnum t
  ∧ Str.toUpperCase t = Str.toUpperCase s.
Proof.
  revert t. induction s as [|a s IH]; intros [|b t]; simpl; try done.
  intros H. apply andb_true_iff in H as [Hab Hst].
  destruct (same_letter_spec a b Hab) as [-> ->].
  destruct (IH t Hst) as (-> & -> & ->). done.
Qed.

Lemma same_ignoring_case_valid (code code2 : string) :
  Str.same_ignoring_case code code2 = true →
  isValidCode code2 = isValidCode code
  ∧ Str.toUpperCase code2 = Str.toUpperCase code.
Proof.
  intros H. destruct (same_ignoring_case_spec _ _ H) as (Hlen & Hal & Hup).
  split; [|done]. unfold isValidCode. by rewrite Hlen, Hal.
Qed.

Lemma toUpperCase_same (code : string) :
  Str.all_chars Str.isAlnum code = true →
  Str.same_ignoring_case code (Str.toUpperCase code) = true.
Proof.
  induction code as [|a code IH]; simpl; [done|].
  intros H. apply andb_true_iff in H as [Ha Hc].
  rewrite (IH Hc), andb_true_r. clear.
  destruct a as [[] [] [] [] [] [] [] []]; by vm_compute.
Qed.

(** C6.  A well-formed code that is not registered yet is accepted: the
    listener stores a fresh game under the upper-cased code and answers
    [gameCreated].  While that room is registered, [createGame] with the
    same code in any letter case, from any socket, is answered with the
    duplicate-code error and leaves the server as it was.  A code that
    fails [isValidCode] is answered with the format error and nothing is
    registered. *)
Theorem createGame_once_per_code (socketId code : string) (s : Server) :
  isValidCode code = true →
  games s !! Str.toUpperCase code = None →
  let upperCode := Str.toUpperCase code in
  (∃ s1,
     on_createGame socketId code s =
       Done (s1, [SocketJoin socketId upperCode;
                  SocketEmit socketId (gameCreated upperCode true)])
     ∧ games s1 = <[upperCode := newGame upperCode socketId]> (games s)
     ∧ gameCode s1 !! socketId = Some upperCode
     ∧ ∀ (other code2 : string),
         Str.same_ignoring_case code code2 = true →
         on_createGame other code2 s1 =
           Done (s1, [SocketEmit other
                        (error "A game with this code already exists")]))
  ∧ (∀ (other code2 : string) (s2 : Server),
       is_Some (games s2 !! upperCode) →
       Str.same_ignoring_case code code2 = true →
       on_createGame other code2 s2 =
         Done (s2, [SocketEmit other
                      (error "A game with this code already exists")]))
  ∧ (∀ (other bad : string) (s2 : Server),
       isValidCode bad = false →
       on_createGame other bad s2 =
         Done (s2, [SocketEmit other
                      (error "Game code must be exactly 8 alphanumeric characters")])).
Proof.
  intros Hvalid Hfree upperCode.
  assert (Hdup : ∀ (other code2 : string) (s2 : Server),
             is_Some (games s2 !! upperCode) →
             Str.same_ignoring_case code code2 = true →
             on_createGame other code2 s2 =
               Done (s2, [SocketEmit other
                            (error "A game with this code already exists")])).
  { intros other code2 s2 Hreg Hsame.
    destruct (same_ignoring_case_valid _ _ Hsame) as [Hv Hu].
    unfold on_createGame. rewrite Hv, Hvalid, Hu. simpl.
    by rewrite decide_True. }
  split; [|split; [exact Hdup|]].
  - eexists. unfold on_createGame. rewrite Hvalid. simpl.
    rewrite decide_False by (rewrite Hfree; by intros [? ?]).
    split; [reflexivity|]. split; [done|]. split.
    + simpl. apply lookup_insert_eq.
    + intros other code2 Hsame. apply Hdup; [|done].
      simpl. fold upperCode. rewrite lookup_insert_eq. by eexists.
  - intros other bad s2 Hbad. unfold on_createGame. by rewrite Hbad.
Qed.

Lemma createGame_once_per_code_witness :
  isValidCode "abcd1234" = true
  ∧ games boot !! Str.toUpperCase "abcd1234" = None
  ∧ (∃ s1,
       on_createGame "host" "abcd1234" boot =
         Done (s1, [SocketJoin "host" "ABCD1234";
                    SocketEmit "host" (gameCreated "ABCD1234" true)])
       ∧ on_createGame "guest" "AbCd1234" s1 =
           Done (s1, [SocketEmit "guest"
                        (error "A game with this code already exists")]))
  ∧ on_createGame "guest" "abcd-234" boot =
      Done (boot, [SocketEmit "guest"
                     (error "Game code must be exactly 8 alphanumeric characters")]).
Proof.
  split; [reflexivity|]. split; [reflexivity|].
  destruct (createGame_once_per_code "host" "abcd1234" boot
              eq_refl eq_refl) as [(s1 & H1 & _ & _ & H2) [_ H3]].
  split.
  - exists s1. split; [exact H1|]. apply H2. reflexivity.
  - apply H3. reflexivity.
Defined.

(** ** The insertion-ordered map *)

Section JsMapFacts.
Context {V : Type}.
Implicit Types (m : list (string * V)) (k : string) (v : V).

Lemma get_set_eq k v m : JsMap.get k (JsMap.set k v m) = Some v.
Proof.
  induction m as [|[k' v'] m IH]; simpl.
  - by rewrite decide_True.
  - destruct (decide (k = k')) as [->|Hne]; simpl.
    + by rewrite decide_True.
    + by rewrite decide_False.
Qed.

Lemma get_set_ne k k' v m :
  k ≠ k' → JsMap.get k' (JsMap.set k v m) = JsMap.get k' m.
Proof.
  intros Hne. induction m as [|[k0 v0] m IH]; simpl.
  - by rewrite decide_False.
  - destruct (decide (k = k0)) as [->|Hk]; simpl.
    + by rewrite !decide_False.
    + by rewrite IH.
Qed.

Lemma keys_set_present k v m :
  is_Some (JsMap.get k m) → JsMap.keys (JsMap.set k v m) = JsMap.keys m.
Proof.
  unfold JsMap.keys. induction m as [|[k0 v0] m IH]; simpl.
  - by intros [? ?].
  - destruct (decide (k = k0)) as [->|Hk]; simpl; [done|].
    intros H. f_equal. by apply IH.
Qed.

Lemma get_Some_elem_of k v m : JsMap.get k m = Some v → (k, v) ∈ m.
Proof.
  induction m as [|[k0 v0] m IH]; simpl; [done|].
  destruct (decide (k = k0)) as [->|Hk].
  - intros [= ->]. left.
  - intros H. right. auto.
Qed.

Lemma elem_of_values_set k v m (x : V) :
  x ∈ JsMap.values (JsMap.set k v m) → x = v ∨ x ∈ JsMap.values m.
Proof.
  unfold JsMap.values. induction m as [|[k0 v0] m IH]; simpl.
  - rewrite list_elem_of_singleton. auto.
  - destruct (decide (k = k0)) as [->|Hk]; simpl;
      rewrite !elem_of_cons; tauto.
Qed.

Lemma elem_of_values_set_present k v m :
  is_Some (JsMap.get k m) → v ∈ JsMap.values (JsMap.set k v m).
Proof.
  unfold JsMap.values. induction m as [|[k0 v0] m IH]; simpl.
  - by intros [? ?].
  - destruct (decide (k = k0)) as [->|Hk]; simpl.
    + intros _. left.
    + intros H. right. auto.
Qed.

Lemma elem_of_values_delete k m (x : V) :
  x ∈ JsMap.values (JsMap.delete k m) → x ∈ JsMap.values m.
Proof.
  unfold JsMap.values. induction m as [|[k0 v0] m IH]; simpl; [done|].
  destruct (decide (k = k0)) as [->|Hk]; simpl;
    rewrite ?elem_of_cons; tauto.
Qed.
End JsMapFacts.

(** ** Listeners that touch one game *)

Lemma socketGame_Some (socketId c : string) (g : Game) (s : Server) :
  socketGame socketId s = Some (c, g) ↔
  gameCode s !! socketId = Some c ∧ games s !! c = Some g.
Proof.
  unfold socketGame. split.
  - intros H. destruct (gameCode s !! socketId) as [c'|]; simpl in H; [|done].
    destruct (games s !! c') as [g'|] eqn:Hg; simpl in H; [|done].
    by simplify_eq.
  - intros [-> Hg]. simpl. by rewrite Hg.
Qed.

Lemma resetScores_roster (ps : list (string * Player)) :
  JsMap.keys (resetScores ps) = JsMap.keys ps
  ∧ (λ p, (player_id p, name p, isHost p)) <$> JsMap.values (resetScores ps)
    = (λ p, (player_id p, name p, isHost p)) <$> JsMap.values ps
  ∧ Forall (λ p, score p = 0%nat) (JsMap.values (resetScores ps)).
Proof.
  unfold JsMap.keys, JsMap.values, resetScores. split; [|split].
  - rewrite <- list_fmap_compose. apply list_fmap_ext. by intros ? [k p] _.
  - rewrite <- !list_fmap_compose. apply list_fmap_ext. by intros ? [k p] _.
  - rewrite <- list_fmap_compose. apply Forall_fmap, Forall_forall.
    by intros [k p] _.
Qed.

(** C8.  [playAgain] from the host puts the game back into the lobby:
    [started] is false, there is no current question, [questionIndex] is
    0, the used-question set is empty, the answered latch and the winner
    are cleared, the interval no longer runs, every score is 0, and the
    roster (keys, order, ids, names, host flags) is the one before; the
    reset roster is broadcast.  From any other socket the listener only
    answers with the not-host error and the server state is unchanged. *)
Theorem playAgain_resets_game (socketId c : string) (game : Game) (s : Server) :
  socketGame socketId s = Some (c, game) →
  (socketId = hostId game →
     ∃ game',
       on_playAgain socketId s =
         Done (putGame c game' s, [RoomEmit c (gameReset (getPlayerList game'))])
       ∧ started game' = false
       ∧ currentQuestion game' = None
       ∧ questionIndex game' = 0%nat
       ∧ usedQuestions game' = ∅
       ∧ questionAnswered game' = false
       ∧ winner game' = None
       ∧ timerInterval game' ≠ TimerLive
       ∧ Forall (λ p, score p = 0%nat) (getPlayerList game')
       ∧ JsMap.keys (players game') = JsMap.keys (players game)
       ∧ (λ p, (player_id p, name p, isHost p)) <$> getPlayerList game'
         = (λ p, (player_id p, name p, isHost p)) <$> getPlayerList game
       ∧ code game' = code game ∧ hostId game' = hostId game)
  ∧ (socketId ≠ hostId game →
       on_playAgain socketId s =
         Done (s, [SocketEmit socketId
                     (error "Only the host can restart the game")])).
Proof.
  intros Hg. unfold on_playAgain. rewrite Hg. split; intros Hhost.
  - rewrite decide_False by (by intros ?).
    eexists. split; [reflexivity|].
    destruct (resetScores_roster (players game)) as (Hk & Hr & Hz).
    unfold getPlayerList. simpl. repeat split; try done.
    by destruct (timerInterval game).
  - by rewrite decide_True.
Qed.

(** C9.  A successful [setName] from a socket that already has a player
    entry with a positive score stores a fresh player under that socket:
    the new name, score 0.  The entry keeps its place in the roster and
    the other entries are untouched. *)
Theorem setName_discards_score
    (socketId rawName c : string) (game : Game) (old : Player) (s : Server) :
  socketGame socketId s = Some (c, game) →
  JsMap.get socketId (players game) = Some old →
  (0 < score old)%nat →
  substring 0 20 (Str.trim rawName) ≠ "" →
  ∃ game',
    on_setName socketId rawName s =
      Done (putGame c game' s, [RoomEmit c (playerList (getPlayerList game'))])
    ∧ JsMap.get socketId (players game') =
        Some {| player_id := socketId;
                name := substring 0 20 (Str.trim rawName);
                score := 0;
                isHost := bool_decide (socketId = hostId game) |}
    ∧ JsMap.keys (players game') = JsMap.keys (players game)
    ∧ ∀ other, other ≠ socketId →
        JsMap.get other (players game') = JsMap.get other (players game).
Proof.
  intros Hg Hold _ Hname. unfold on_setName. rewrite Hg.
  rewrite decide_False by done.
  eexists. split; [reflexivity|]. unfold addPlayer. simpl.
  split; [apply get_set_eq|]. split.
  - apply keys_set_present. by eexists.
  - intros other Hne. by apply get_set_ne.
Qed.

(** C10.  While a question is open (game started, latch not set), an
    answer from a socket without a player entry does nothing, whatever
    index it carries, the correct one included: the server state, and
    with it the scores, the latch and the interval, is unchanged and no
    message is emitted. *)
Theorem submitAnswer_without_player_ignored
    (socketId c : string) (answerIndex : Z) (game : Game) (q : Question)
    (s : Server) :
  socketGame socketId s = Some (c, game) →
  started game = true →
  currentQuestion game = Some q →
  questionAnswered game = false →
  JsMap.get socketId (players game) = None →
  on_submitAnswer socketId answerIndex s = Done (s, []).
Proof.
  intros Hg Hstarted _ Hlatch Hnone. unfold on_submitAnswer.
  by rewrite Hg, Hstarted, Hlatch, Hnone.
Qed.

Lemma playAgain_resets_game_witness :
  let s := Demo.after (Demo.firstRound ++ [SubmitAnswer "guest" 2]) in
  socketGame "host" s = Some ("ABCD1234", Demo.gameAt "ABCD1234" s)
  ∧ (∃ game',
       on_playAgain "host" s =
         Done (putGame "ABCD1234" game' s,
               [RoomEmit "ABCD1234" (gameReset (getPlayerList game'))])
       ∧ started game' = false
       ∧ Forall (λ p, score p = 0%nat) (getPlayerList game'))
  ∧ on_playAgain "guest" s =
      Done (s, [SocketEmit "guest" (error "Only the host can restart the game")]).
Proof.
  intros s.
  assert (Hg : socketGame "host" s = Some ("ABCD1234", Demo.gameAt "ABCD1234" s))
    by (vm_compute; reflexivity).
  assert (Hg' : socketGame "guest" s = Some ("ABCD1234", Demo.gameAt "ABCD1234" s))
    by (vm_compute; reflexivity).
  split; [exact Hg|]. split.
  - destruct (playAgain_resets_game "host" "ABCD1234" _ s Hg) as [H _].
    destruct (H eq_refl) as (game' & H1 & H2 & _ & _ & _ & _ & _ & _ & H3 & _).
    exists game'. auto.
  - destruct (playAgain_resets_game "guest" "ABCD1234" _ s Hg') as [_ H].
    apply H. vm_compute. discriminate.
Defined.

Lemma setName_discards_score_witness :
  let s := Demo.after (Demo.firstRound ++ [SubmitAnswer "guest" 2]) in
  JsMap.get "guest" (players (Demo.gameAt "ABCD1234" s)) =
    Some {| player_id := "guest"; name := "Bob"; score := 1; isHost := false |}
  ∧ ∃ game',
      on_setName "guest" " Bobby " s =
        Done (putGame "ABCD1234" game' s,
              [RoomEmit "ABCD1234" (playerList (getPlayerList game'))])
      ∧ JsMap.get "guest" (players game') =
          Some {| player_id := "guest"; name := "Bobby"; score := 0;
                  isHost := false |}.
Proof.
  intros s. split; [vm_compute; reflexivity|].
  destruct (setName_discards_score "guest" " Bobby " "ABCD1234"
              (Demo.gameAt "ABCD1234" s)
              {| player_id := "guest"; name := "Bob"; score := 1;
                 isHost := false |} s)
    as (game' & H1 & H2 & _).
  - vm_compute; reflexivity.
  - vm_compute; reflexivity.
  - simpl. lia.
  - vm_compute. discriminate.
  - exists game'. split; [exact H1|exact H2].
Defined.

Lemma submitAnswer_without_player_ignored_witness :
  let s := Demo.after Demo.firstRound in
  (correctIndex <$> currentQuestion (Demo.gameAt "ABCD1234" s)) = Some 2
  ∧ on_submitAnswer "lurker" 2 s = Done (s, []).
Proof.
  intros s. split; [vm_compute; reflexivity|].
  eapply (submitAnswer_without_player_ignored "lurker" "ABCD1234" 2
            (Demo.gameAt "ABCD1234" s)); vm_compute; reflexivity.
Defined.

(** ** Answers that arrive while no question is current *)

(** With no current question the listener returns early only when the
    game is not started, the latch is set, or the sender has no player
    entry; otherwise it reads [correctIndex] of [null]. *)
Lemma submitAnswer_no_question
    (socketId c : string) (answerIndex : Z) (game : Game) (s : Server) :
  socketGame socketId s = Some (c, game) →
  currentQuestion game = None →
  on_submitAnswer socketId answerIndex s =
    if started game && negb (questionAnswered game)
       && bool_decide (is_Some (JsMap.get socketId (players game)))
    then Throw TypeError_null
    else Done (s, []).
Proof.
  intros Hg Hq. unfold on_submitAnswer, ignored. rewrite Hg, Hq.
  destruct (started game), (questionAnswered game); simpl; try done.
  by destruct (JsMap.get socketId (players game)) as [p|].
Qed.

(** C1 (the code departs from the claim).  After [createGame],
    [setName] and [startGame], and before the deferred first
    [sendNextQuestion] has run, the game is started, the latch is clear
    and [currentQuestion] is still [null]: an answer from the registered
    host is not ignored, the listener throws a [TypeError] on
    [game.currentQuestion.correctIndex], whatever the index. *)
Theorem submitAnswer_before_first_question_throws
    (questions : Bank) (fuel : nat) (answerIndex : Z) :
  ∃ (s : Server) (out : list Effect) (game : Game),
    run questions fuel
        [CreateGame "host" "abcd1234"; SetName "host" "Ann";
         StartGame "host" "6th"] boot = Done (s, out)
    ∧ socketGame "host" s = Some ("ABCD1234", game)
    ∧ started game = true
    ∧ questionAnswered game = false
    ∧ currentQuestion game = None
    ∧ on_submitAnswer "host" answerIndex s = Throw TypeError_null
    ∧ run questions fuel
        [CreateGame "host" "abcd1234"; SetName "host" "Ann";
         StartGame "host" "6th"; SubmitAnswer "host" answerIndex] boot
      = Throw TypeError_null.
Proof.
  eexists _, _, _. split; [vm_compute; reflexivity|].
  split; [vm_compute; reflexivity|].
  repeat split; vm_compute; reflexivity.
Qed.

(** ** The shuffle *)

Lemma randomBelow_lt (n : nat) (rs : list nat) :
  (0 < n)%nat → ((randomBelow n rs).1 < n)%nat.
Proof.
  intros Hn. destruct rs as [|r rs]; simpl; [done|].
  rewrite decide_False by lia. apply Nat.mod_upper_bound. lia.
Qed.

Section Shuffle.
Context {A : Type}.
Implicit Types l : list A.

Lemma swap_Permutation (i j : nat) l : swap i j l ≡ₚ l.
Proof.
  unfold swap. destruct (l !! i) as [x|] eqn:Hi; [|done].
  destruct (l !! j) as [y|] eqn:Hj; [|done].
  by apply Permutation_insert_swap.
Qed.

Lemma length_swap (i j : nat) l : length (swap i j l) = length l.
Proof. apply Permutation_length, swap_Permutation. Qed.

(** Inside the array the swap is the JS destructuring assignment. *)
Lemma swap_in_range (i j : nat) l :
  (i < length l)%nat → (j < length l)%nat →
  ∃ x y, l !! i = Some x ∧ l !! j = Some y
         ∧ swap i j l = <[j := x]> (<[i := y]> l).
Proof.
  intros [x Hx]%lookup_lt_is_Some_2 [y Hy]%lookup_lt_is_Some_2.
  exists x, y. unfold swap. by rewrite Hx, Hy.
Qed.

Lemma fisherYates_Permutation (i : nat) l (rs : list nat) :
  (fisherYates i l rs).1 ≡ₚ l.
Proof.
  revert l rs. induction i as [|i IH]; intros l rs; [done|].
  cbn [fisherYates]. destruct (randomBelow (S i + 1) rs) as [j rs'].
  etrans; [apply IH|apply swap_Permutation].
Qed.

Lemma findIndex_found (p : A → bool) l (x : A) :
  x ∈ l → p x = true →
  ∃ (k : nat) (y : A),
    findIndex p l = Z.of_nat k ∧ l !! k = Some y ∧ p y = true.
Proof.
  intros Hin Hp. unfold findIndex.
  destruct (list_find_elem_of (λ x, p x = true) l x Hin Hp) as [[k y] Hk].
  rewrite Hk. apply list_find_Some in Hk as (Hl & Hy & _). eauto.
Qed.
End Shuffle.

(** The objects built by the first [map]: the flag is set at the correct
    index and only there. *)
Lemma answerObjs_flag (answers : list string) (c : nat) (a : string) :
  answers !! c = Some a →
  let objs := imap (λ idx answer,
                      (answer, bool_decide (Z.of_nat idx = Z.of_nat c))) answers in
  (a, true) ∈ objs ∧ ∀ o, o ∈ objs → o.2 = true → o.1 = a.
Proof.
  intros Ha objs. split.
  - apply list_elem_of_lookup. exists c. unfold objs.
    rewrite list_lookup_imap, Ha. simpl. by rewrite bool_decide_eq_true_2.
  - intros o [i [y [-> Hy]]]%elem_of_lookup_imap_1 Hflag. simpl in *.
    apply bool_decide_eq_true in Hflag.
    assert (i = c) as -> by lia. congruence.
Qed.

(** C3.  For an index inside the array, [shuffleAnswers] returns a
    permutation of the answers (the same multiset), and the new correct
    index points, inside the shuffled array, at the answer that stood at
    the old correct index. *)
Theorem shuffleAnswers_tracks_correct
    (answers shuffled : list string) (correctIndex newCorrectIndex : Z)
    (rs rs' : list nat) :
  0 ≤ correctIndex < Z.of_nat (length answers) →
  shuffleAnswers answers correctIndex rs = (shuffled, newCorrectIndex, rs') →
  shuffled ≡ₚ answers
  ∧ 0 ≤ newCorrectIndex < Z.of_nat (length shuffled)
  ∧ ∃ a, shuffled !! Z.to_nat newCorrectIndex = Some a
         ∧ answers !! Z.to_nat correctIndex = Some a.
Proof.
  intros Hrange Hshuffle. unfold shuffleAnswers in Hshuffle.
  set (objs := imap _ answers) in Hshuffle.
  pose proof (fisherYates_Permutation (length objs - 1) objs rs) as Hperm.
  destruct (fisherYates (length objs - 1) objs rs) as [objs' rs1] eqn:Hfy.
  simpl in Hperm. injection Hshuffle as <- <- <-.
  assert (Hfst : objs.*1 = answers).
  { unfold objs. rewrite fmap_imap.
    transitivity (imap (const id) answers); [by apply imap_ext|].
    rewrite imap_const. apply list_fmap_id. }
  split; [by rewrite Hperm, Hfst|].
  destruct (lookup_lt_is_Some_2 answers (Z.to_nat correctIndex)) as [a Ha];
    [lia|].
  destruct (answerObjs_flag answers (Z.to_nat correctIndex) a Ha) as [Hin Hall].
  rewrite Z2Nat.id in Hin, Hall by lia. fold objs in Hin, Hall.
  rewrite <- Hperm in Hin.
  destruct (findIndex_found snd objs' (a, true) Hin eq_refl)
    as (k & o & Hk & Hlook & Hflag).
  rewrite Hk, Nat2Z.id.
  assert (o.1 = a) as Ho.
  { apply Hall; [|done]. rewrite <- Hperm. by eapply list_elem_of_lookup_2. }
  split.
  - rewrite length_fmap. apply lookup_lt_Some in Hlook. lia.
  - exists a. split; [|done]. by rewrite list_lookup_fmap, Hlook, <- Ho.
Qed.

Lemma shuffleAnswers_tracks_correct_witness :
  shuffleAnswers ["4"; "5"; "6"; "7"] 0 [2; 3; 1]%nat
    = (["7"; "5"; "4"; "6"], 2, [])
  ∧ ["7"; "5"; "4"; "6"] ≡ₚ ["4"; "5"; "6"; "7"]
  ∧ ["7"; "5"; "4"; "6"] !! Z.to_nat 2 = (["4"; "5"; "6"; "7"] : list string) !! Z.to_nat 0.
Proof.
  split; [reflexivity|].
  destruct (shuffleAnswers_tracks_correct
              ["4"; "5"; "6"; "7"] ["7"; "5"; "4"; "6"] 0 2 [2; 3; 1]%nat [])
    as (Hperm & _ & a & H1 & H2).
  - simpl. lia.
  - reflexivity.
  - split; [exact Hperm|]. by rewrite H1, H2.
Defined.

(** ** Question ids *)

Lemma of_index_no_dash (n : nat) :
  Str.all_chars Str.not_dash (Str.of_index n) = true.
Proof.
  unfold Str.of_index. generalize (Nat.to_uint n) as d.
  induction d; simpl; auto.
Qed.

Lemma of_index_inj (n m : nat) : Str.of_index n = Str.of_index m → n = m.
Proof.
  unfold Str.of_index. intros H.
  apply (f_equal NilEmpty.uint_of_string) in H.
  rewrite !NilEmpty.usu in H. injection H as H.
  by apply DecimalNat.Unsigned.to_uint_inj.
Qed.

Lemma append_nil_l (t : string) : ("" ++ t)%string = t.
Proof. reflexivity. Qed.

Lemma append_cons_l (a : ascii) (s t : string) :
  (String a s ++ t)%string = String a (s ++ t).
Proof. reflexivity. Qed.

Lemma append_dash_inj (s1 s2 d1 d2 : string) :
  Str.all_chars Str.not_dash d1 = true →
  Str.all_chars Str.not_dash d2 = true →
  (s1 ++ "-" ++ d1 = s2 ++ "-" ++ d2)%string →
  s1 = s2 ∧ d1 = d2.
Proof.
  intros H1 H2. revert s2.
  induction s1 as [|a s1 IH]; intros [|b s2] Heq;
    rewrite ?append_cons_l, ?append_nil_l in Heq.
  - by injection Heq as ->.
  - injection Heq as <- ->. exfalso. clear -H1.
    induction s2 as [|c s2 IH]; rewrite ?append_cons_l, ?append_nil_l in H1;
      simpl in H1; [done|].
    apply andb_true_iff in H1 as [_ H1]. auto.
  - injection Heq as -> <-. exfalso. clear -H2.
    induction s1 as [|c s1 IH]; rewrite ?append_cons_l, ?append_nil_l in H2;
      simpl in H2; [done|].
    apply andb_true_iff in H2 as [_ H2]. auto.
  - injection Heq as -> Heq. destruct (IH s2 Heq) as [-> ->]. done.
Qed.

(** The id determines the strand and the index inside the strand. *)
Lemma questionId_inj (s1 s2 : string) (i1 i2 : nat) :
  questionId s1 i1 = questionId s2 i2 → s1 = s2 ∧ i1 = i2.
Proof.
  unfold questionId. intros H.
  apply append_dash_inj in H as [-> H]; auto using of_index_no_dash.
  split; [done|]. by apply of_index_inj.
Qed.

Lemma allQuestionsOf_cons (strand : string) (qs : list BankQuestion)
    (gq : Strands) :
  allQuestionsOf ((strand, qs) :: gq) =
    (imap (λ idx q,
             {| question := bank_question q; answers := bank_answers q;
                correctIndex := bank_correctIndex q; strand := strand;
                question_id := questionId strand idx |}) qs
     ++ allQuestionsOf gq)%list.
Proof. done. Qed.

Lemma strand_ids (strand : string) (qs : list BankQuestion) :
  question_id <$>
    imap (λ idx q,
            {| question := bank_question q; answers := bank_answers q;
               correctIndex := bank_correctIndex q; strand := strand;
               question_id := questionId strand idx |}) qs
  = questionId strand <$> seq 0 (length qs).
Proof. rewrite fmap_imap. apply (imap_seq_0 qs (questionId strand)). Qed.

Lemma allQuestionsOf_id_strand (gq : Strands) (i : string) :
  i ∈ question_id <$> allQuestionsOf gq →
  ∃ s n, s ∈ gq.*1 ∧ i = questionId s n.
Proof.
  induction gq as [|[s qs] gq IH]; [by intros ?%elem_of_nil|].
  rewrite allQuestionsOf_cons, fmap_app, strand_ids, elem_of_app.
  intros [Hi|Hi].
  - apply list_elem_of_fmap in Hi as (n & -> & _).
    exists s, n. split; [left|done].
  - destruct (IH Hi) as (s' & n & Hs & ->).
    exists s', n. split; [by right|done].
Qed.

(** Distinct strand names, as the keys of a JS object are, give
    distinct question ids. *)
Lemma allQuestionsOf_ids_NoDup (gq : Strands) :
  NoDup gq.*1 → NoDup (question_id <$> allQuestionsOf gq).
Proof.
  induction gq as [|[s qs] gq IH]; [constructor|].
  rewrite fmap_cons, NoDup_cons. intros [Hs Hnd]. simpl in Hs.
  rewrite allQuestionsOf_cons, fmap_app, strand_ids.
  apply NoDup_app. split; [|split; [|auto]].
  - apply NoDup_fmap_2_strong; [|apply NoDup_seq].
    intros n m _ _ H. by apply questionId_inj in H as [_ ?].
  - intros i (n & -> & _)%list_elem_of_fmap Hin.
    apply allQuestionsOf_id_strand in Hin as (s' & m & Hs' & Heq).
    apply questionId_inj in Heq as [-> _]. done.
Qed.

(** ** Drawing questions *)

Section DrawFacts.
Variable questions : Bank.
Implicit Types (g : Game) (gq : Strands) (rs : list nat).

Lemma getRandomQuestion_no_grade g rs fuel :
  JsMap.get (gradeKey (gradeLevel g)) questions = None →
  getRandomQuestion questions (S fuel) g rs = Done (None, g, rs).
Proof. intros H. simpl. by rewrite H. Qed.

Lemma getRandomQuestion_available g gq rs fuel :
  JsMap.get (gradeKey (gradeLevel g)) questions = Some gq →
  available g gq ≠ [] →
  ∃ q rs',
    getRandomQuestion questions (S fuel) g rs =
      Done (Some q,
            set_usedQuestions ({[question_id q]} ∪ usedQuestions g) g, rs')
    ∧ q ∈ available g gq.
Proof.
  intros Hgq Hne. simpl. rewrite Hgq.
  rewrite decide_False by (by destruct (available g gq)).
  pose proof (randomBelow_lt (length (available g gq)) rs) as Hlt.
  destruct (randomBelow (length (available g gq)) rs) as [i rs'].
  destruct (lookup_lt_is_Some_2 (available g gq) i) as [q Hq].
  { apply Hlt. destruct (available g gq); [done|simpl; lia]. }
  exists q, rs'. simpl in Hq. rewrite Hq. split; [done|].
  by eapply list_elem_of_lookup_2.
Qed.

Lemma getRandomQuestion_exhausted g gq rs fuel :
  JsMap.get (gradeKey (gradeLevel g)) questions = Some gq →
  available g gq = [] →
  getRandomQuestion questions (S fuel) g rs =
    getRandomQuestion questions fuel (set_usedQuestions ∅ g) rs.
Proof.
  intros Hgq He. simpl. rewrite Hgq.
  by rewrite He, decide_True.
Qed.

Lemma available_after_clear g gq :
  available (set_usedQuestions ∅ g) gq = allQuestionsOf gq.
Proof.
  unfold available. simpl. induction (allQuestionsOf gq) as [|q l IH]; [done|].
  rewrite filter_cons_True by set_solver. by rewrite IH.
Qed.

Lemma available_nil g gq :
  available g gq = [] →
  ∀ q, q ∈ allQuestionsOf gq → question_id q ∈ usedQuestions g.
Proof.
  intros He q Hq. destruct (decide (question_id q ∈ usedQuestions g)); [done|].
  by destruct (filter_nil_not_elem_of _ _ q He).
Qed.

(** With at least one question in the pool a draw returns a question
    after at most one retry: either an unused one, which is added to
    the used set, or, when every id of the pool was used, any question
    of the pool, and the used set restarts from that id alone. *)
Lemma getRandomQuestion_draws g gq rs fuel :
  JsMap.get (gradeKey (gradeLevel g)) questions = Some gq →
  allQuestionsOf gq ≠ [] →
  ∃ q U rs',
    getRandomQuestion questions (S (S fuel)) g rs =
      Done (Some q, set_usedQuestions U g, rs')
    ∧ q ∈ allQuestionsOf gq
    ∧ (((question_id q ∉ usedQuestions g)
        ∧ U = {[question_id q]} ∪ usedQuestions g)
       ∨ ((∀ q', q' ∈ allQuestionsOf gq → question_id q' ∈ usedQuestions g)
          ∧ U = {[question_id q]})).
Proof.
  intros Hgq Hpool.
  destruct (decide (available g gq = [])) as [He|Hne].
  - rewrite (getRandomQuestion_exhausted g gq) by done.
    destruct (getRandomQuestion_available (set_usedQuestions ∅ g) gq rs fuel)
      as (q & rs' & Hrun & Hq); [done|by rewrite available_after_clear|].
    rewrite available_after_clear in Hq.
    exists q, {[question_id q]}, rs'. rewrite Hrun. simpl.
    rewrite (right_id_L ∅ (∪)). split; [done|]. split; [done|].
    right. split; [|done]. by apply available_nil.
  - destruct (getRandomQuestion_available g gq rs (S fuel))
      as (q & rs' & Hrun & Hq); [done..|].
    apply list_elem_of_filter in Hq as [Hunused Hq].
    exists q, ({[question_id q]} ∪ usedQuestions g), rs'. auto.
Qed.

(** A configured grade level without questions: every call clears the
    used set and calls itself again, however deep the recursion is
    allowed to go. *)
Lemma getRandomQuestion_empty_pool g gq rs fuel :
  JsMap.get (gradeKey (gradeLevel g)) questions = Some gq →
  allQuestionsOf gq = [] →
  getRandomQuestion questions fuel g rs = OutOfFuel.
Proof.
  intros Hgq Hpool. revert g Hgq.
  induction fuel as [|fuel IH]; intros g Hgq; [done|].
  rewrite (getRandomQuestion_exhausted g gq);
    [by apply IH|done|unfold available; by rewrite Hpool].
Qed.
End DrawFacts.

(** C2 (the code departs from the claim).  What [getRandomQuestion]
    does, by the pool of the game's grade level:
    - at least one question: it returns a question of the pool, with at
      most one recursive call;
    - the grade level is not a key of the bank: it returns [null];
    - the grade level is a key of the bank and has no question: it never
      returns, each call clears the used set and calls itself again,
      whatever depth is allowed.
    The last case is where the code and the claim part: the call neither
    returns [null] nor stops. *)
Theorem getRandomQuestion_outcomes
    (questions : Bank) (g : Game) (rs : list nat) :
  (∀ gq, JsMap.get (gradeKey (gradeLevel g)) questions = Some gq →
         allQuestionsOf gq ≠ [] →
         ∀ fuel, (2 ≤ fuel)%nat →
           ∃ q g' rs',
             getRandomQuestion questions fuel g rs = Done (Some q, g', rs')
             ∧ q ∈ allQuestionsOf gq)
  ∧ (JsMap.get (gradeKey (gradeLevel g)) questions = None →
     ∀ fuel, (1 ≤ fuel)%nat →
       getRandomQuestion questions fuel g rs = Done (None, g, rs))
  ∧ (∀ gq, JsMap.get (gradeKey (gradeLevel g)) questions = Some gq →
           allQuestionsOf gq = [] →
           ∀ fuel, getRandomQuestion questions fuel g rs = OutOfFuel).
Proof.
  split; [|split].
  - intros gq Hgq Hpool [|[|fuel]] Hfuel; [lia..|].
    destruct (getRandomQuestion_draws questions g gq rs fuel Hgq Hpool)
      as (q & U & rs' & Hrun & Hq & _).
    eauto.
  - intros Hnone [|fuel] Hfuel; [lia|].
    by apply getRandomQuestion_no_grade.
  - intros gq Hgq Hpool fuel.
    by apply (getRandomQuestion_empty_pool questions g gq).
Qed.

Lemma getRandomQuestion_outcomes_witness :
  let g6 := set_gradeLevel (Some "6th") (newGame "ABCD1234" "host") in
  let g7 := set_gradeLevel (Some "7th") (newGame "ABCD1234" "host") in
  let g8 := set_gradeLevel (Some "8th") (newGame "ABCD1234" "host") in
  (∃ q g' rs',
     getRandomQuestion Demo.bank 2 g6 [4]%nat = Done (Some q, g', rs'))
  ∧ getRandomQuestion Demo.bank 1 g8 [4]%nat = Done (None, g8, [4]%nat)
  ∧ ∀ fuel, getRandomQuestion Demo.bank fuel g7 [4]%nat = OutOfFuel.
Proof.
  intros g6 g7 g8.
  destruct (getRandomQuestion_outcomes Demo.bank g6 [4]%nat) as (H6 & _ & _).
  destruct (getRandomQuestion_outcomes Demo.bank g7 [4]%nat) as (_ & _ & H7).
  destruct (getRandomQuestion_outcomes Demo.bank g8 [4]%nat) as (_ & H8 & _).
  split; [|split].
  - destruct (H6 _ eq_refl) with (fuel := 2%nat) as (q & g' & rs' & Hrun & _);
      [discriminate|lia|].
    by exists q, g', rs'.
  - apply H8; [reflexivity|lia].
  - intros fuel. by apply (H7 _ eq_refl).
Defined.

Section Exhaustion.
Variable questions : Bank.
Variable gq : Strands.
Hypothesis strands_distinct : NoDup gq.*1.

Lemma size_poolIds : size (poolIds gq) = length (allQuestionsOf gq).
Proof.
  unfold poolIds. rewrite size_list_to_set, length_fmap; [done|].
  by apply allQuestionsOf_ids_NoDup.
Qed.

Lemma pool_left (g : Game) :
  usedQuestions g ⊆ poolIds gq →
  (size (usedQuestions g) < length (allQuestionsOf gq))%nat →
  available g gq ≠ [].
Proof.
  intros Hsub Hsize He.
  assert (poolIds gq ⊆ usedQuestions g) as Hall.
  { intros i Hi. unfold poolIds in Hi.
    apply elem_of_list_to_set, list_elem_of_fmap in Hi as (q & -> & Hq).
    by apply (available_nil g gq He). }
  apply subseteq_size in Hall. rewrite size_poolIds in Hall. lia.
Qed.

(** As long as the draws fit into what is left of the pool, each one
    returns a question whose id was not used before. *)
Lemma drawQuestions_unused (n : nat) :
  ∀ (g : Game) (rs : list nat) (fuel : nat),
    JsMap.get (gradeKey (gradeLevel g)) questions = Some gq →
    usedQuestions g ⊆ poolIds gq →
    (n + size (usedQuestions g) ≤ length (allQuestionsOf gq))%nat →
    ∃ qs g' rs',
      drawQuestions questions (S fuel) n g rs = Done (Some <$> qs, g', rs')
      ∧ length qs = n
      ∧ NoDup (question_id <$> qs)
      ∧ (∀ q, q ∈ qs → q ∈ allQuestionsOf gq ∧ question_id q ∉ usedQuestions g)
      ∧ usedQuestions g' =
          list_to_set (question_id <$> qs) ∪ usedQuestions g.
Proof.
  induction n as [|n IH]; intros g rs fuel Hgq Hsub Hsize.
  { exists [], g, rs. repeat split; try done; [constructor|set_solver..]. }
  destruct (getRandomQuestion_available questions g gq rs fuel Hgq)
    as (q & rs1 & Hrun & Hq); [apply pool_left; [done|lia]|].
  apply list_elem_of_filter in Hq as [Hunused Hq].
  set (g1 := set_usedQuestions ({[question_id q]} ∪ usedQuestions g) g) in *.
  assert (question_id q ∈ poolIds gq) as Hid.
  { unfold poolIds. apply elem_of_list_to_set. by apply list_elem_of_fmap_2. }
  destruct (IH g1 rs1 fuel) as (qs & g' & rs' & Hrest & Hlen & Hnd & Hqs & Hused).
  { done. }
  { simpl. set_solver. }
  { simpl. rewrite size_union, size_singleton by set_solver. lia. }
  exists (q :: qs), g', rs'.
  cbn [drawQuestions]. rewrite Hrun. simpl. rewrite Hrest. simpl.
  split; [done|]. split; [by rewrite Hlen|]. split; [|split].
  - apply NoDup_cons. split; [|done].
    intros (q' & Heq & Hq')%list_elem_of_fmap.
    destruct (Hqs q' Hq') as [_ Hnot]. simpl in Hnot. set_solver.
  - intros q' [->|Hq']%elem_of_cons; [done|].
    destruct (Hqs q' Hq') as [? Hnot]. simpl in Hnot. set_solver.
  - rewrite Hused. simpl. set_solver.
Qed.

(** A draw that returns an id of the used set has seen the pool
    exhausted and has cleared the used set. *)
Lemma getRandomQuestion_repeat (g g' : Game) (rs rs' : list nat)
    (fuel : nat) (q : Question) :
  JsMap.get (gradeKey (gradeLevel g)) questions = Some gq →
  getRandomQuestion questions fuel g rs = Done (Some q, g', rs') →
  question_id q ∈ usedQuestions g →
  (∀ q', q' ∈ allQuestionsOf gq → question_id q' ∈ usedQuestions g)
  ∧ usedQuestions g' = {[question_id q]}.
Proof.
  intros Hgq Hrun Hrepeat. destruct fuel as [|fuel]; [done|].
  destruct (decide (available g gq = [])) as [He|Hne].
  - split; [by apply available_nil|].
    rewrite (getRandomQuestion_exhausted questions g gq) in Hrun by done.
    destruct fuel as [|fuel]; [done|].
    destruct (decide (allQuestionsOf gq = [])) as [Hpool|Hpool].
    { by rewrite (getRandomQuestion_empty_pool questions _ gq) in Hrun. }
    destruct (getRandomQuestion_available questions
                (set_usedQuestions ∅ g) gq rs fuel)
      as (q0 & rs0 & Hrun0 & _); [done|by rewrite available_after_clear|].
    rewrite Hrun0 in Hrun. injection Hrun as -> <- _. simpl. set_solver.
  - destruct (getRandomQuestion_available questions g gq rs fuel Hgq Hne)
      as (q0 & rs0 & Hrun0 & Hq0).
    rewrite Hrun0 in Hrun. injection Hrun as -> _ _.
    by apply list_elem_of_filter in Hq0 as [Hunused _].
Qed.
End Exhaustion.

(** C7.  Take a grade level whose pool has [N] questions.  Starting
    from an empty used set, [N] consecutive draws all return a question
    and the [N] ids are pairwise distinct: the draws go through the
    whole pool.  And whenever a draw, from any used set, returns an id
    that is in the used set, every id of the pool was in it and the draw
    has cleared it, leaving the returned id alone. *)
Theorem draws_cycle_through_pool
    (questions : Bank) (grade : option string) (gq : Strands) :
  JsMap.get (gradeKey grade) questions = Some gq →
  NoDup gq.*1 →
  let N := length (allQuestionsOf gq) in
  (∀ (g : Game) (rs : list nat) (fuel : nat),
     gradeLevel g = grade → usedQuestions g = ∅ → (1 ≤ fuel)%nat →
     ∃ qs g' rs',
       drawQuestions questions fuel N g rs = Done (Some <$> qs, g', rs')
       ∧ length qs = N
       ∧ NoDup (question_id <$> qs)
       ∧ (∀ q, q ∈ qs → q ∈ allQuestionsOf gq))
  ∧ (∀ (g g' : Game) (rs rs' : list nat) (fuel : nat) (q : Question),
       gradeLevel g = grade →
       getRandomQuestion questions fuel g rs = Done (Some q, g', rs') →
       question_id q ∈ usedQuestions g →
       (∀ q', q' ∈ allQuestionsOf gq → question_id q' ∈ usedQuestions g)
       ∧ usedQuestions g' = {[question_id q]}).
Proof.
  intros Hgq Hnd N. split.
  - intros g rs [|fuel] Hgrade Hfresh Hfuel; [lia|].
    destruct (drawQuestions_unused questions gq Hnd N g rs fuel)
      as (qs & g' & rs' & Hrun & Hlen & Hdistinct & Hqs & _).
    { by rewrite Hgrade. }
    { rewrite Hfresh. set_solver. }
    { rewrite Hfresh, size_empty. unfold N. lia. }
    exists qs, g', rs'. repeat split; try done. intros q Hq. by apply Hqs.
  - intros g g' rs rs' fuel q Hgrade Hrun Hrepeat.
    eapply getRandomQuestion_repeat; eauto. by rewrite Hgrade.
Qed.

Lemma draws_cycle_through_pool_witness :
  let fresh := set_gradeLevel (Some "6th") (newGame "ABCD1234" "host") in
  let full :=
    set_usedQuestions
      (list_to_set ["algebra-0"; "algebra-1"; "geometry-0"]) fresh in
  (∃ qs g' rs',
     drawQuestions Demo.bank 1 3 fresh [5; 7; 0]%nat = Done (Some <$> qs, g', rs')
     ∧ NoDup (question_id <$> qs))
  ∧ (∃ q g' rs',
       getRandomQuestion Demo.bank 2 full [1]%nat = Done (Some q, g', rs')
       ∧ question_id q ∈ usedQuestions full
       ∧ usedQuestions g' = {[question_id q]}).
Proof.
  intros fresh full.
  assert (Hnd : NoDup (["algebra"; "geometry"] : list string)).
  { apply (bool_decide_unpack _). by vm_compute. }
  destruct (draws_cycle_through_pool Demo.bank (Some "6th") _ eq_refl Hnd)
    as [HA HB].
  split.
  - destruct (HA fresh [5; 7; 0]%nat 1%nat eq_refl eq_refl)
      as (qs & g' & rs' & Hrun & _ & Hdistinct & _); [lia|].
    by exists qs, g', rs'.
  - pose (q1 := {| question := "2+2?"; answers := ["4"; "5"; "6"; "7"];
                    correctIndex := 0; strand := "algebra";
                    question_id := "algebra-1" |}).
    pose (g1 := set_usedQuestions {["algebra-1"]} full).
    assert (Hrun : getRandomQuestion Demo.bank 2 full [1]%nat
                   = Done (Some q1, g1, [])) by (vm_compute; reflexivity).
    assert (Hin : question_id q1 ∈ usedQuestions full).
    { apply (bool_decide_unpack _). by vm_compute. }
    exists q1, g1, []. split; [exact Hrun|]. split; [exact Hin|].
    exact (proj2 (HB full g1 [1]%nat [] 2%nat q1 eq_refl Hrun Hin)).
Defined.

(** ** One resolution per question *)

Lemma resolutions_cons (room : string) (e : Effect) (out : list Effect) :
  resolutions room (e :: out) =
    ((if isResolution room e then 1 else 0) + resolutions room out)%nat.
Proof.
  unfold resolutions. destruct (isResolution room e) eqn:He.
  - by rewrite filter_cons_True.
  - rewrite filter_cons_False; [done|]. by rewrite He.
Qed.

Lemma resolutions_app (room : string) (out1 out2 : list Effect) :
  resolutions room (out1 ++ out2) =
    (resolutions room out1 + resolutions room out2)%nat.
Proof. unfold resolutions. by rewrite filter_app, length_app. Qed.

Lemma ticks_cons (room : string) (ev : Event) (evs : list Event) :
  ticks room (ev :: evs) =
    ((if decide (ev = IntervalTick room) then 1 else 0) + ticks room evs)%nat.
Proof.
  unfold ticks. destruct (decide (ev = IntervalTick room)) as [He|He].
  - by rewrite filter_cons_True.
  - by rewrite filter_cons_False.
Qed.

Lemma set_timeRemaining_same (g : Game) : set_timeRemaining (timeRemaining g) g = g.
Proof. by destruct g. Qed.

Section Race.
Variables (room : string) (g0 : Game) (q : Question) (s0 : Server).
Hypothesis question_current : currentQuestion g0 = Some q.
Hypothesis game_started : started g0 = true.
Hypothesis latch_clear : questionAnswered g0 = false.

Lemma submitAnswer_open (s : Server) (socketId : string) (answerIndex : Z) :
  questionOpen room g0 s0 s →
  gameCode s0 !! socketId = Some room →
  (on_submitAnswer socketId answerIndex s = Done (s, [])
   ∧ ¬ (is_Some (JsMap.get socketId (players g0))
        ∧ answerIndex = correctIndex q))
  ∨ (∃ s' out,
       on_submitAnswer socketId answerIndex s = Done (s', out)
       ∧ questionClosed room s0 s'
       ∧ resolutions room out = 1%nat).
Proof.
  intros [Hgc [t Hg]] Hsid.
  unfold on_submitAnswer, socketGame. rewrite Hgc, Hsid. simpl.
  rewrite Hg. simpl. rewrite game_started, latch_clear. simpl.
  destruct (JsMap.get socketId (players g0)) as [player|] eqn:Hplayer;
    [|left; split; [done|by intros [[? ?] _]]].
  rewrite question_current.
  destruct (decide (answerIndex = correctIndex q)) as [->|Hwrong];
    [|left; split; [done|by intros [_ ?]]].
  right.
  assert (Hclosed : ∀ g, questionAnswered g = true →
            timerInterval g ≠ TimerLive →
            questionClosed room s0 (putGame room g s)).
  { intros g H1 H2. split; [done|]. exists g. simpl.
    by rewrite lookup_insert_eq. }
  match goal with |- context [checkWinner ?g] =>
    destruct (checkWinner g) as [w|] end.
  - eexists _, _. split; [reflexivity|]. split.
    + apply Hclosed; simpl; [done|]. by destruct (timerInterval g0).
    + rewrite !resolutions_cons. simpl. by rewrite bool_decide_eq_true_2.
  - eexists _, _. split; [reflexivity|]. split.
    + apply Hclosed; simpl; [done|]. by destruct (timerInterval g0).
    + rewrite !resolutions_cons. simpl. by rewrite bool_decide_eq_true_2.
Qed.

Lemma submitAnswer_closed (s : Server) (socketId : string) (answerIndex : Z) :
  questionClosed room s0 s →
  gameCode s0 !! socketId = Some room →
  on_submitAnswer socketId answerIndex s = Done (s, []).
Proof.
  intros [Hgc (g & Hg & Hl & _)] Hsid.
  unfold on_submitAnswer, socketGame. rewrite Hgc, Hsid. simpl.
  rewrite Hg. simpl. rewrite Hl. by rewrite orb_true_r.
Qed.

Lemma intervalTick_open (s : Server) (t : Z) :
  gameCode s = gameCode s0 →
  games s !! room = Some (set_timeRemaining t g0) →
  (timerInterval g0 ≠ TimerLive ∧ intervalTick room s = Done (s, []))
  ∨ (timerInterval g0 = TimerLive ∧ 0 < t - 1
     ∧ ∃ s', intervalTick room s = Done (s', [RoomEmit room (timerUpdate (t - 1))])
             ∧ gameCode s' = gameCode s0
             ∧ games s' !! room = Some (set_timeRemaining (t - 1) g0))
  ∨ (timerInterval g0 = TimerLive ∧ t - 1 ≤ 0
     ∧ ∃ s' out, intervalTick room s = Done (s', out)
                 ∧ questionClosed room s0 s'
                 ∧ resolutions room out = 1%nat).
Proof.
  intros Hgc Hg. unfold intervalTick. rewrite Hg. simpl.
  destruct (decide (timerInterval g0 = TimerLive)) as [Hlive|Hoff];
    [|by left].
  right. unfold countdown. simpl.
  destruct (decide (t - 1 ≤ 0)) as [Hexp|Hrun].
  - right. split; [done|]. split; [done|].
    rewrite latch_clear. simpl. rewrite question_current. simpl.
    eexists _, _. split; [reflexivity|]. split.
    + split; [done|]. eexists. simpl. rewrite lookup_insert_eq.
      split; [done|]. simpl. split; [done|]. by rewrite Hlive.
    + rewrite !resolutions_cons. simpl. by rewrite bool_decide_eq_true_2.
  - left. split; [done|]. split; [lia|]. simpl.
    eexists. split; [reflexivity|]. split; [done|]. simpl.
    by rewrite lookup_insert_eq.
Qed.

Lemma intervalTick_closed (s : Server) :
  questionClosed room s0 s → intervalTick room s = Done (s, []).
Proof.
  intros [_ (g & Hg & _ & Hoff)]. unfold intervalTick. rewrite Hg.
  by rewrite decide_False.
Qed.
End Race.

Section RaceRuns.
Variable questions : Bank.
Variable fuel : nat.
Variables (room : string) (g0 : Game) (q : Question) (s0 : Server).
Hypothesis question_current : currentQuestion g0 = Some q.
Hypothesis game_started : started g0 = true.
Hypothesis latch_clear : questionAnswered g0 = false.

(** Once the question is closed the rest of the round changes nothing
    and emits nothing. *)
Lemma run_closed (evs : list Event) (s : Server) :
  Forall (ofRound s0 room) evs →
  questionClosed room s0 s →
  run questions fuel evs s = Done (s, []).
Proof.
  induction 1 as [|ev evs Hev _ IH]; intros Hclosed; [done|].
  cbn [run].
  destruct ev as [? ?|? ?|? ?|? ?|sid idx|? ? ?|?|?|?|r|? ?]; try done;
    simpl in Hev; simpl.
  - rewrite (submitAnswer_closed room s0) by done. simpl.
    rewrite IH by done. done.
  - subst r. rewrite (intervalTick_closed room s0) by done. simpl.
    rewrite IH by done. done.
Qed.

Lemma run_open (evs : list Event) :
  ∀ (s : Server) (t : Z),
    Forall (ofRound s0 room) evs →
    gameCode s = gameCode s0 →
    games s !! room = Some (set_timeRemaining t g0) →
    ∃ s' out,
      run questions fuel evs s = Done (s', out)
      ∧ (resolutions room out ≤ 1)%nat
      ∧ ((∃ socketId,
            is_Some (JsMap.get socketId (players g0))
            ∧ SubmitAnswer socketId (correctIndex q) ∈ evs) →
         resolutions room out = 1%nat)
      ∧ (timerInterval g0 = TimerLive →
         (1 ≤ ticks room evs)%nat → t ≤ Z.of_nat (ticks room evs) →
         resolutions room out = 1%nat).
Proof.
  induction evs as [|ev evs IH]; intros s t Hevs Hgc Hg.
  { exists s, []. split; [done|]. split; [by cbv; lia|]. split.
    - by intros (sid & _ & ?%elem_of_nil).
    - intros _ Hticks. cbv in Hticks. lia. }
  apply Forall_cons in Hevs as [Hev Hevs].
  cbn [run]. rewrite ticks_cons.
  destruct ev as [? ?|? ?|? ?|? ?|socketId answerIndex|? ? ?|?|?|?|r|? ?];
    try done; simpl in Hev; cbn [handle].
  - (* an answer *)
    rewrite decide_False by done.
    destruct (submitAnswer_open room g0 q s0 question_current game_started
                latch_clear s socketId answerIndex)
      as [[Hrun Hnot]|(s1 & out1 & Hrun & Hclosed & Hone)];
      [by split; eauto|done| |]; rewrite Hrun; simpl.
    + destruct (IH s t Hevs Hgc Hg) as (s' & out & Hrest & Hle & Hsub & Htick).
      rewrite Hrest. simpl. exists s', out. split; [done|]. split; [done|].
      split; [|done].
      intros (sid & Hreg & Hin). apply Hsub. exists sid. split; [done|].
      apply elem_of_cons in Hin as [Heq|Hin]; [|done].
      simplify_eq. by destruct Hnot.
    + rewrite (run_closed evs s1) by done. simpl. rewrite app_nil_r.
      exists s1, out1. rewrite Hone. by repeat split.
  - (* a firing of the interval *)
    subst r. rewrite decide_True by done.
    destruct (intervalTick_open room g0 q s0 question_current latch_clear s t Hgc Hg)
      as [[Hoff Hrun]|[(Hlive & Hleft & s1 & Hrun & Hgc1 & Hg1)
                      |(Hlive & Hexp & s1 & out1 & Hrun & Hclosed & Hone)]];
      rewrite Hrun; simpl.
    + destruct (IH s t Hevs Hgc Hg) as (s' & out & Hrest & Hle & Hsub & Htick).
      rewrite Hrest. simpl. exists s', out. split; [done|]. split; [done|].
      split; [|done].
      intros (sid & Hreg & Hin). apply Hsub. exists sid. split; [done|].
      by apply elem_of_cons in Hin as [Heq|Hin].
    + destruct (IH s1 (t - 1) Hevs Hgc1 Hg1)
        as (s' & out & Hrest & Hle & Hsub & Htick).
      rewrite Hrest. simpl. exists s', (RoomEmit room (timerUpdate (t - 1)) :: out).
      split; [done|]. rewrite resolutions_cons. simpl.
      split; [done|]. split.
      * intros (sid & Hreg & Hin). apply Hsub. exists sid. split; [done|].
        by apply elem_of_cons in Hin as [Heq|Hin].
      * intros _ _ Ht. apply Htick; [done|lia..].
    + rewrite (run_closed evs s1) by done. simpl. rewrite app_nil_r.
      exists s1, out1. rewrite Hone. by repeat split.
Qed.
End RaceRuns.

(** The interval callback tests the latch itself: run on a game whose
    latch is set, whatever the state of the interval, it emits no
    resolution and leaves the latch set. *)
Lemma countdown_latched (gameCode : string) (game : Game) :
  questionAnswered game = true →
  ∃ game' out,
    countdown gameCode game = Done (game', out)
    ∧ resolutions gameCode out = 0%nat
    ∧ questionAnswered game' = true.
Proof.
  intros Hlatch. unfold countdown. simpl.
  destruct (decide (timeRemaining game - 1 ≤ 0)); rewrite ?Hlatch; simpl;
    eexists _, _; (split; [reflexivity|]); by rewrite resolutions_cons.
Qed.

(** Whatever the event, a listener that emits a resolution for a room
    found the room's latch clear and leaves it set. *)
Lemma resolution_checks_and_sets_latch
    (questions : Bank) (fuel : nat) (room : string) (ev : Event)
    (s s1 : Server) (out1 : list Effect) :
  handle questions fuel ev s = Done (s1, out1) →
  (0 < resolutions room out1)%nat →
  (∃ g, games s !! room = Some g ∧ questionAnswered g = false)
  ∧ (∃ g1, games s1 !! room = Some g1 ∧ questionAnswered g1 = true).
Proof.
  assert (Hnil : resolutions room [] = 0%nat) by done.
  destruct ev as [sid c|sid c|sid nm|sid gl|sid idx|sid msg now|sid|sid|sid|r|r rs];
    cbn [handle].
  - unfold on_createGame. intros H Hres. exfalso.
    repeat case_match; simplify_eq;
      rewrite ?resolutions_cons, ?Hnil in Hres; simpl in Hres; lia.
  - unfold on_joinGame. intros H Hres. exfalso.
    repeat case_match; simplify_eq;
      rewrite ?resolutions_cons, ?Hnil in Hres; simpl in Hres; lia.
  - unfold on_setName, ignored. intros H Hres. exfalso.
    repeat case_match; simplify_eq;
      rewrite ?resolutions_cons, ?Hnil in Hres; simpl in Hres; lia.
  - unfold on_startGame, ignored. intros H Hres. exfalso.
    repeat case_match; simplify_eq;
      rewrite ?resolutions_cons, ?Hnil in Hres; simpl in Hres; lia.
  - unfold on_submitAnswer, ignored.
    destruct (socketGame sid s) as [[c game]|] eqn:Hsg;
      [|intros; simplify_eq; rewrite Hnil in *; lia].
    apply socketGame_Some in Hsg as [_ Hgame].
    destruct (started game), (questionAnswered game) eqn:Hlatch; simpl;
      try (intros; simplify_eq; rewrite Hnil in *; lia).
    intros H Hres.
    repeat case_match; simplify_eq;
      rewrite ?resolutions_cons, ?Hnil in Hres; simpl in Hres;
      try lia;
      (case_bool_decide; [subst c|lia]);
      (split; [by eauto|]); eexists; simpl; rewrite lookup_insert_eq; done.
  - unfold on_chatMessage, ignored. intros H Hres. exfalso.
    repeat case_match; simplify_eq;
      rewrite ?resolutions_cons, ?Hnil in Hres; simpl in Hres; lia.
  - unfold on_playAgain, ignored. intros H Hres. exfalso.
    repeat case_match; simplify_eq;
      rewrite ?resolutions_cons, ?Hnil in Hres; simpl in Hres; lia.
  - unfold handleDisconnect, ignored. intros H Hres. exfalso.
    repeat case_match; simplify_eq;
      rewrite ?resolutions_cons, ?Hnil in Hres; simpl in Hres; lia.
  - unfold handleDisconnect, ignored. intros H Hres. exfalso.
    repeat case_match; simplify_eq;
      rewrite ?resolutions_cons, ?Hnil in Hres; simpl in Hres; lia.
  - unfold intervalTick, ignored, countdown.
    destruct (games s !! r) as [game|] eqn:Hgame;
      [|intros; simplify_eq; rewrite Hnil in *; lia].
    simpl. intros H Hres.
    destruct (questionAnswered game) eqn:Hlatch;
    repeat case_match; simplify_eq; simpl in *; simplify_eq;
      rewrite ?resolutions_cons, ?Hnil in Hres; simpl in Hres;
      try lia;
      (case_bool_decide; [subst r|lia]);
      (split; [by eauto|]); eexists; simpl; rewrite lookup_insert_eq; done.
  - unfold sendNextQuestion, ignored, mbind, Outcome_bind. intros H Hres.
    exfalso.
    repeat case_match; simplify_eq;
      rewrite ?resolutions_cons, ?Hnil in Hres; simpl in Hres; lia.
Qed.

(** *** Resolutions over whole runs *)

Lemma tally_app (room : string) (out1 out2 : list Effect) :
  ∀ n, tally room n (out1 ++ out2) = tally room n out1 ≫= λ m, tally room m out2.
Proof.
  induction out1 as [|e out1 IH]; intros n; simpl; [done|].
  destruct (isNewQuestion room e); [apply IH|].
  destruct (isResolution room e); [|apply IH].
  destruct n; [apply IH|done].
Qed.

Lemma tally_bound (room : string) (out : list Effect) :
  ∀ n m, (n ≤ 1)%nat → tally room n out = Some m → (m ≤ 1)%nat.
Proof.
  induction out as [|e out IH]; intros n m Hn; simpl.
  - intros [= <-]. done.
  - destruct (isNewQuestion room e); [apply IH; lia|].
    destruct (isResolution room e); [|by apply IH].
    destruct n; [apply IH; lia|done].
Qed.

(** Over a stretch without [newQuestion] the count only adds up. *)
Lemma tally_stretch (room : string) (mid : list Effect) :
  ∀ n m,
    Forall (λ e, isNewQuestion room e = false) mid →
    tally room n mid = Some m →
    m = (n + resolutions room mid)%nat.
Proof.
  induction mid as [|e mid IH]; intros n m Hmid; simpl.
  - intros [= <-]. unfold resolutions. simpl. lia.
  - apply Forall_cons in Hmid as [-> Hmid]. rewrite resolutions_cons.
    destruct (isResolution room e).
    + destruct n; [|done]. intros H. apply IH in H; [lia|done].
    + intros H. apply IH in H; [lia|done].
Qed.

Lemma tally_quiet (room : string) (out : list Effect) (n : nat) :
  Forall (λ e, isNewQuestion room e = false ∧ isResolution room e = false) out →
  tally room n out = Some n.
Proof.
  induction 1 as [|e out [H1 H2] _ IH]; simpl; [done|]. by rewrite H1, H2.
Qed.

Section Awaits.
Implicit Types (g : Game) (s : Server).

Lemma awaits_putGame room c g s :
  awaitsResolution room (putGame c g s) →
  (room = c ∧ questionAnswered g = false ∧ is_Some (currentQuestion g))
  ∨ (room ≠ c ∧ awaitsResolution room s).
Proof.
  intros (g' & Hg' & Hl & Hq). simpl in Hg'.
  destruct (decide (room = c)) as [->|Hne].
  - rewrite lookup_insert_eq in Hg'. simplify_eq. by left.
  - rewrite lookup_insert_ne in Hg' by done. right. split; [done|].
    by exists g'.
Qed.

Lemma awaits_set_gameCode room gc s :
  awaitsResolution room (set_gameCode gc s) → awaitsResolution room s.
Proof. done. Qed.

Lemma awaits_drop room c s :
  awaitsResolution room (set_games (delete c (games s)) s) →
  room ≠ c ∧ awaitsResolution room s.
Proof.
  intros (g' & Hg' & Hl & Hq). simpl in Hg'.
  apply lookup_delete_Some in Hg' as [Hne Hg']. split; [done|]. by exists g'.
Qed.

(** A listener that replaces a game by one with the same latch and the
    same current question. *)
Lemma awaits_same_round room c g g' s :
  games s !! c = Some g →
  questionAnswered g' = questionAnswered g →
  currentQuestion g' = currentQuestion g →
  awaitsResolution room (putGame c g' s) → awaitsResolution room s.
Proof.
  intros Hg Hl Hq [(-> & Hl' & Hq')|[_ Hw]]%awaits_putGame; [|done].
  exists g. by rewrite <- Hl, <- Hq.
Qed.
End Awaits.

(** One listener: if the room had at most one resolution since its last
    question, and none while a question still awaits its resolution,
    the same holds after the listener has run. *)
Lemma handle_tally (questions : Bank) (fuel : nat) (room : string)
    (ev : Event) (s s' : Server) (out1 : list Effect) (n : nat) :
  handle questions fuel ev s = Done (s', out1) →
  (n ≤ 1)%nat →
  (awaitsResolution room s → n = 0%nat) →
  ∃ m, tally room n out1 = Some m
       ∧ (m ≤ 1)%nat
       ∧ (awaitsResolution room s' → m = 0%nat).
Proof.
  intros Hrun Hn Hopen.
  assert (Hquiet : ∀ out, 
            Forall (λ e, isNewQuestion room e = false
                         ∧ isResolution room e = false) out →
            (awaitsResolution room s' → awaitsResolution room s) →
            out1 = out →
            ∃ m, tally room n out1 = Some m ∧ (m ≤ 1)%nat
                 ∧ (awaitsResolution room s' → m = 0%nat)).
  { intros out Hout Hback ->. exists n. rewrite tally_quiet by done. auto. }
  destruct ev as [sid c|sid c|sid nm|sid gl|sid idx|sid msg now|sid|sid|sid|r|r rs];
    cbn [handle] in Hrun.
  - (* createGame *)
    unfold on_createGame in Hrun.
    repeat case_match; simplify_eq.
    + eapply Hquiet; [|by auto|reflexivity]. repeat constructor.
    + eapply Hquiet; [|by auto|reflexivity]. repeat constructor.
    + eapply Hquiet; [| |reflexivity]; [repeat constructor|].
      intros [(_ & _ & [? ?])|[_ Hw]]%awaits_set_gameCode%awaits_putGame;
        [done|done].
  - (* joinGame *)
    unfold on_joinGame in Hrun.
    repeat case_match; simplify_eq;
      (eapply Hquiet; [|by auto|reflexivity]); repeat constructor.
  - (* setName *)
    unfold on_setName, ignored in Hrun.
    destruct (socketGame sid s) as [[c game]|] eqn:Hsg;
      [apply socketGame_Some in Hsg as [_ Hgame]|].
    + repeat case_match; simplify_eq.
      * eapply Hquiet; [|by auto|reflexivity]. repeat constructor.
      * eapply Hquiet; [| |reflexivity]; [repeat constructor|].
        by apply awaits_same_round with (g := game).
    + simplify_eq. eapply Hquiet; [|by auto|reflexivity]. constructor.
  - (* startGame *)
    unfold on_startGame, ignored in Hrun.
    destruct (socketGame sid s) as [[c game]|] eqn:Hsg;
      [apply socketGame_Some in Hsg as [_ Hgame]|].
    + repeat case_match; simplify_eq.
      * eapply Hquiet; [|by auto|reflexivity]. repeat constructor.
      * eapply Hquiet; [|by auto|reflexivity]. repeat constructor.
      * eapply Hquiet; [| |reflexivity]; [repeat constructor|].
        by apply awaits_same_round with (g := game).
    + simplify_eq. eapply Hquiet; [|by auto|reflexivity]. constructor.
  - (* submitAnswer *)
    unfold on_submitAnswer, ignored in Hrun.
    destruct (socketGame sid s) as [[c game]|] eqn:Hsg;
      [apply socketGame_Some in Hsg as [_ Hgame]|];
      [|simplify_eq; eapply Hquiet; [|by auto|reflexivity]; constructor].
    destruct (started game) eqn:Hst; simpl in Hrun;
      [|simplify_eq; eapply Hquiet; [|by auto|reflexivity]; constructor].
    destruct (questionAnswered game) eqn:Hlatch;
      [simplify_eq; eapply Hquiet; [|by auto|reflexivity]; constructor|].
    destruct (JsMap.get sid (players game)) as [player|];
      [|simplify_eq; eapply Hquiet; [|by auto|reflexivity]; constructor].
    destruct (currentQuestion game) as [q|] eqn:Hq; [|done].
    destruct (decide (idx = correctIndex q)) as [->|Hwrong];
      [|simplify_eq; eapply Hquiet; [|by auto|reflexivity]; constructor].
    destruct (decide (room = c)) as [->|Hne].
    + assert (n = 0%nat) as -> by (apply Hopen; exists game; eauto).
      destruct (checkWinner _) in Hrun; simplify_eq; simpl;
        rewrite bool_decide_eq_true_2 by done;
        (exists 1%nat; split; [done|]; split; [done|]);
        intros [(_ & Hl & _)|[? _]]%awaits_putGame; done.
    + destruct (checkWinner _) in Hrun; simplify_eq; simpl;
        rewrite bool_decide_eq_false_2 by done;
        (exists n; split; [done|]; split; [done|]);
        intros [(? & _)|[_ Hw]]%awaits_putGame; by auto.
  - (* chatMessage *)
    unfold on_chatMessage, ignored in Hrun.
    repeat case_match; simplify_eq;
      (eapply Hquiet; [|by auto|reflexivity]); repeat constructor.
  - (* playAgain *)
    unfold on_playAgain, ignored in Hrun.
    repeat case_match; simplify_eq.
    + eapply Hquiet; [|by auto|reflexivity]. repeat constructor.
    + eapply Hquiet; [| |reflexivity]; [repeat constructor|].
      intros [(_ & _ & [? ?])|[_ Hw]]%awaits_putGame; done.
    + eapply Hquiet; [|by auto|reflexivity]. constructor.
  - (* leaveGame *)
    unfold handleDisconnect, ignored in Hrun.
    destruct (socketGame sid s) as [[c game]|] eqn:Hsg;
      [apply socketGame_Some in Hsg as [_ Hgame]|];
      [|simplify_eq; eapply Hquiet; [|by auto|reflexivity]; constructor].
    case_decide; simplify_eq.
    + eapply Hquiet; [| |reflexivity]; [repeat constructor|].
      by intros [_ Hw]%awaits_set_gameCode%awaits_drop.
    + eapply Hquiet; [| |reflexivity]; [repeat constructor|].
      intros Hw%awaits_set_gameCode. by apply (awaits_same_round room c game) in Hw.
  - (* disconnect *)
    unfold handleDisconnect, ignored in Hrun.
    destruct (socketGame sid s) as [[c game]|] eqn:Hsg;
      [apply socketGame_Some in Hsg as [_ Hgame]|];
      [|simplify_eq; eapply Hquiet; [|by auto|reflexivity]; constructor].
    case_decide; simplify_eq.
    + eapply Hquiet; [| |reflexivity]; [repeat constructor|].
      by intros [_ Hw]%awaits_set_gameCode%awaits_drop.
    + eapply Hquiet; [| |reflexivity]; [repeat constructor|].
      intros Hw%awaits_set_gameCode. by apply (awaits_same_round room c game) in Hw.
  - (* a firing of the interval *)
    unfold intervalTick, ignored in Hrun.
    destruct (games s !! r) as [game|] eqn:Hgame;
      [|simplify_eq; eapply Hquiet; [|by auto|reflexivity]; constructor].
    case_decide as Hlive;
      [|simplify_eq; eapply Hquiet; [|by auto|reflexivity]; constructor].
    unfold countdown in Hrun. simpl in Hrun.
    destruct (decide (timeRemaining game - 1 ≤ 0)) as [Hexp|Hleft].
    + destruct (questionAnswered game) eqn:Hlatch; simpl in Hrun.
      * simplify_eq. eapply Hquiet; [| |reflexivity]; [repeat constructor|].
        by apply awaits_same_round with (g := game).
      * destruct (currentQuestion game) as [q|] eqn:Hq; [|done].
        simpl in Hrun. simplify_eq.
        destruct (decide (room = r)) as [->|Hne].
        -- assert (n = 0%nat) as -> by (apply Hopen; exists game; eauto).
           simpl. rewrite bool_decide_eq_true_2 by done.
           exists 1%nat. split; [done|]. split; [done|].
           intros [(_ & Hl & _)|[? _]]%awaits_putGame; done.
        -- simpl. rewrite bool_decide_eq_false_2 by done.
           exists n. split; [done|]. split; [done|].
           intros [(? & _)|[_ Hw]]%awaits_putGame; by auto.
    + simpl in Hrun. simplify_eq.
      eapply Hquiet; [| |reflexivity]; [repeat constructor|].
      by apply awaits_same_round with (g := game).
  - (* a deferred sendNextQuestion *)
    unfold sendNextQuestion, ignored in Hrun.
    destruct (games s !! r) as [game|] eqn:Hgame;
      [|simplify_eq; eapply Hquiet; [|by auto|reflexivity]; constructor].
    destruct (negb (started game) || bool_decide (is_Some (winner game)));
      [simplify_eq; eapply Hquiet; [|by auto|reflexivity]; constructor|].
    destruct (getRandomQuestion _ _ _ _) as [[[drawn g1] rs1]| |]; [|done..].
    simpl in Hrun. destruct drawn as [q|]; [|done].
    destruct (shuffleAnswers _ _ _) as [[sh ni] rs2]. simplify_eq.
    destruct (decide (room = r)) as [->|Hne].
    + simpl. rewrite bool_decide_eq_true_2 by done.
      exists 0%nat. split; [done|]. split; [lia|done].
    + simpl. rewrite bool_decide_eq_false_2 by done.
      exists n. split; [done|]. split; [done|].
      intros [(? & _)|[_ Hw]]%awaits_putGame; by auto.
Qed.

Lemma run_tally (questions : Bank) (fuel : nat) (room : string)
    (evs : list Event) :
  ∀ (s s' : Server) (out : list Effect) (n : nat),
    run questions fuel evs s = Done (s', out) →
    (n ≤ 1)%nat →
    (awaitsResolution room s → n = 0%nat) →
    ∃ m, tally room n out = Some m
         ∧ (m ≤ 1)%nat
         ∧ (awaitsResolution room s' → m = 0%nat).
Proof.
  induction evs as [|ev evs IH]; intros s s' out n Hrun Hn Hopen;
    cbn [run] in Hrun.
  - simplify_eq. exists n. auto.
  - destruct (handle questions fuel ev s) as [[s1 out1]| |] eqn:H1;
      [|done..].
    simpl in Hrun.
    destruct (run questions fuel evs s1) as [[s2 out2]| |] eqn:H2;
      [|done..].
    simpl in Hrun. simplify_eq.
    destruct (handle_tally questions fuel room ev s s1 out1 n H1 Hn Hopen)
      as (m1 & Hm1 & Hle1 & Hopen1).
    destruct (IH s1 s' out2 m1 H2 Hle1 Hopen1) as (m2 & Hm2 & Hle2 & Hopen2).
    exists m2. rewrite tally_app, Hm1. auto.
Qed.

(** What the count says about any stretch of the output in which the
    room gets no new question. *)
Lemma tally_stretches (room : string) (n m : nat)
    (pre mid post : list Effect) :
  tally room n (pre ++ mid ++ post) = Some m →
  (n ≤ 1)%nat →
  Forall (λ e, isNewQuestion room e = false) mid →
  (resolutions room mid ≤ 1)%nat
  ∧ (pre = [] → (n + resolutions room mid ≤ 1)%nat).
Proof.
  intros Hm Hn Hmid. rewrite tally_app in Hm.
  apply bind_Some in Hm as (a & Ha & Hm). rewrite tally_app in Hm.
  apply bind_Some in Hm as (b & Hb & Hm).
  pose proof (tally_bound room pre n a Hn Ha) as Hale.
  pose proof (tally_bound room mid a b Hale Hb) as Hble.
  apply tally_stretch in Hb; [|done]. split; [lia|].
  intros ->. simpl in Ha. simplify_eq. lia.
Qed.

(** *** A question that is left to run its course *)

Section Lifetime.
Variable questions : Bank.
Variable fuel : nat.
Variables (room : string) (q : Question).

(** Only the room's [sendNextQuestion] broadcasts [newQuestion] to it. *)
Lemma handle_no_newQuestion (ev : Event) (s s1 : Server) (out1 : list Effect) :
  handle questions fuel ev s = Done (s1, out1) →
  (∀ rs, ev ≠ TimeoutFires room rs) →
  Forall (λ e, isNewQuestion room e = false) out1.
Proof.
  intros Hrun Hev.
  destruct ev as [sid c|sid c|sid nm|sid gl|sid idx|sid msg now|sid|sid|sid|r|r rs];
    cbn [handle] in Hrun.
  - unfold on_createGame in Hrun.
    repeat case_match; simplify_eq; repeat constructor.
  - unfold on_joinGame in Hrun.
    repeat case_match; simplify_eq; repeat constructor.
  - unfold on_setName, ignored in Hrun.
    repeat case_match; simplify_eq; repeat constructor.
  - unfold on_startGame, ignored in Hrun.
    repeat case_match; simplify_eq; repeat constructor.
  - unfold on_submitAnswer, ignored in Hrun.
    repeat case_match; simplify_eq; repeat constructor.
  - unfold on_chatMessage, ignored in Hrun.
    repeat case_match; simplify_eq; repeat constructor.
  - unfold on_playAgain, ignored in Hrun.
    repeat case_match; simplify_eq; repeat constructor.
  - unfold handleDisconnect, ignored in Hrun.
    repeat case_match; simplify_eq; repeat constructor.
  - unfold handleDisconnect, ignored in Hrun.
    repeat case_match; simplify_eq; repeat constructor.
  - unfold intervalTick, ignored, countdown in Hrun. simpl in Hrun.
    repeat case_match; simplify_eq; simpl in *; simplify_eq;
      repeat constructor.
  - unfold sendNextQuestion, ignored in Hrun.
    destruct (games s !! r) as [game|]; [|simplify_eq; constructor].
    destruct (negb (started game) || bool_decide (is_Some (winner game)));
      [simplify_eq; constructor|].
    destruct (getRandomQuestion _ _ _ _) as [[[drawn g1] rs1]| |]; [|done..].
    simpl in Hrun. destruct drawn as [q'|]; [|done].
    destruct (shuffleAnswers _ _ _) as [[sh ni] rs2]. simplify_eq.
    constructor; [|constructor]. simpl.
    apply bool_decide_eq_false_2. intros ->. by destruct (Hev rs).
Qed.

Lemma run_no_newQuestion (evs : list Event) :
  ∀ (s s' : Server) (out : list Effect),
    run questions fuel evs s = Done (s', out) →
    Forall (λ ev, ∀ rs, ev ≠ TimeoutFires room rs) evs →
    Forall (λ e, isNewQuestion room e = false) out.
Proof.
  induction evs as [|ev evs IH]; intros s s' out Hrun Hevs; cbn [run] in Hrun.
  - simplify_eq. constructor.
  - apply Forall_cons in Hevs as [Hev Hevs].
    destruct (handle questions fuel ev s) as [[s1 out1]| |] eqn:H1; [|done..].
    simpl in Hrun.
    destruct (run questions fuel evs s1) as [[s2 out2]| |] eqn:H2; [|done..].
    simpl in Hrun. simplify_eq. apply Forall_app. split.
    + by apply (handle_no_newQuestion ev s s1).
    + by apply (IH s1 s').
Qed.

(** One listener on an open question that the event does not take
    away: either it resolves the question, or the question stays open
    with the same interval, one second less on the clock if the
    room's running interval fired.  It does resolve it when the event
    is the correct answer of a registered player of the room, or the
    firing of the running interval with one second left. *)
Lemma handle_open (ev : Event) (s s1 : Server) (g : Game)
    (out1 : list Effect) :
  standsOpen room q s g →
  ¬ abandons room (hostId g) ev →
  handle questions fuel ev s = Done (s1, out1) →
  (1 ≤ resolutions room out1)%nat
  ∨ (∃ g1,
       standsOpen room q s1 g1
       ∧ hostId g1 = hostId g
       ∧ timerInterval g1 = timerInterval g
       ∧ (ev = IntervalTick room → timerInterval g = TimerLive →
          timeRemaining g1 = timeRemaining g - 1)
       ∧ ((ev = IntervalTick room → timerInterval g = TimerLive → False) →
          timeRemaining g1 = timeRemaining g)
       ∧ (∀ sid, ev = SubmitAnswer sid (correctIndex q) →
                 gameCode s !! sid = Some room →
                 is_Some (JsMap.get sid (players g)) → False)
       ∧ (ev = IntervalTick room → timerInterval g = TimerLive →
          timeRemaining g - 1 ≤ 0 → False)).
Proof.
  intros (Hgame & Hq & Hst & Hlatch) Hkeep Hrun.
  (* the listener left the room's game alone *)
  assert (Hsame : games s1 !! room = Some g →
            (∀ sid, ev = SubmitAnswer sid (correctIndex q) →
                    gameCode s !! sid = Some room →
                    is_Some (JsMap.get sid (players g)) → False) →
            (ev = IntervalTick room → timerInterval g = TimerLive → False) →
            (1 ≤ resolutions room out1)%nat
            ∨ (∃ g1,
                 standsOpen room q s1 g1
                 ∧ hostId g1 = hostId g
                 ∧ timerInterval g1 = timerInterval g
                 ∧ (ev = IntervalTick room → timerInterval g = TimerLive →
                    timeRemaining g1 = timeRemaining g - 1)
                 ∧ ((ev = IntervalTick room → timerInterval g = TimerLive →
                     False) →
                    timeRemaining g1 = timeRemaining g)
                 ∧ (∀ sid, ev = SubmitAnswer sid (correctIndex q) →
                           gameCode s !! sid = Some room →
                           is_Some (JsMap.get sid (players g)) → False)
                 ∧ (ev = IntervalTick room → timerInterval g = TimerLive →
                    timeRemaining g - 1 ≤ 0 → False))).
  { intros Hg1 Hans Htick. right. exists g. split; [done|].
    split; [done|]. split; [done|]. split; [by intros ? ?%Htick|].
    split; [done|]. split; [done|]. intros ? ? _. by apply Htick. }
  (* the listener changed fields of the room's game that do not matter *)
  assert (Hput : ∀ c g1,
            s1 = putGame c g1 s ∨ (∃ gc, s1 = set_gameCode gc (putGame c g1 s)) →
            (c = room → currentQuestion g1 = Some q ∧ started g1 = true
                        ∧ questionAnswered g1 = false
                        ∧ hostId g1 = hostId g
                        ∧ timerInterval g1 = timerInterval g
                        ∧ timeRemaining g1 = timeRemaining g) →
            (∀ sid, ev = SubmitAnswer sid (correctIndex q) →
                    gameCode s !! sid = Some room →
                    is_Some (JsMap.get sid (players g)) → False) →
            (ev = IntervalTick room → timerInterval g = TimerLive → False) →
            (1 ≤ resolutions room out1)%nat
            ∨ (∃ g1,
                 standsOpen room q s1 g1
                 ∧ hostId g1 = hostId g
                 ∧ timerInterval g1 = timerInterval g
                 ∧ (ev = IntervalTick room → timerInterval g = TimerLive →
                    timeRemaining g1 = timeRemaining g - 1)
                 ∧ ((ev = IntervalTick room → timerInterval g = TimerLive →
                     False) →
                    timeRemaining g1 = timeRemaining g)
                 ∧ (∀ sid, ev = SubmitAnswer sid (correctIndex q) →
                           gameCode s !! sid = Some room →
                           is_Some (JsMap.get sid (players g)) → False)
                 ∧ (ev = IntervalTick room → timerInterval g = TimerLive →
                    timeRemaining g - 1 ≤ 0 → False))).
  { intros c g1 Hs1 Hfields Hans Htick.
    assert (Hlook : games s1 !! room = <[c := g1]> (games s) !! room)
      by (by destruct Hs1 as [->|[gc ->]]).
    destruct (decide (c = room)) as [->|Hne].
    - destruct (Hfields eq_refl) as (H1 & H2 & H3 & H4 & H5 & H6).
      right. exists g1. split.
      + split; [|done]. by rewrite Hlook, lookup_insert_eq.
      + split; [done|]. split; [done|]. split; [by intros ? ?%Htick|].
        split; [done|]. split; [done|]. intros ? ? _. by apply Htick.
    - apply Hsame; [|done..]. by rewrite Hlook, lookup_insert_ne. }
  destruct ev as [sid c|sid c|sid nm|sid gl|sid idx|sid msg now|sid|sid|sid|r|r rs];
    cbn [handle] in Hrun; simpl in Hkeep.
  - (* createGame *)
    unfold on_createGame in Hrun.
    destruct (negb (isValidCode c)); [simplify_eq; by apply Hsame|].
    cbv zeta in Hrun.
    case_decide as Hreg; [simplify_eq; by apply Hsame|].
    simplify_eq. apply (Hput (Str.toUpperCase c) (newGame (Str.toUpperCase c) sid));
      [right; by eexists| |done..].
    intros Hroom. destruct Hreg. rewrite Hroom, Hgame. by eexists.
  - (* joinGame *)
    unfold on_joinGame in Hrun.
    repeat case_match; simplify_eq; by apply Hsame.
  - (* setName *)
    unfold on_setName, ignored in Hrun.
    destruct (socketGame sid s) as [[c game]|] eqn:Hsg;
      [apply socketGame_Some in Hsg as [_ Hg]|simplify_eq; by apply Hsame].
    case_decide; simplify_eq; [by apply Hsame|].
    eapply Hput; [by left| |done..].
    intros ->. by simplify_eq.
  - (* startGame *)
    unfold on_startGame, ignored in Hrun.
    destruct (socketGame sid s) as [[c game]|] eqn:Hsg;
      [apply socketGame_Some in Hsg as [_ Hg]|simplify_eq; by apply Hsame].
    repeat case_match; simplify_eq; try (by apply Hsame).
    eapply Hput; [by left| |done..].
    intros ->. by simplify_eq.
  - (* submitAnswer *)
    unfold on_submitAnswer, ignored in Hrun.
    destruct (socketGame sid s) as [[c game]|] eqn:Hsg.
    2:{ simplify_eq. apply Hsame; [done| |done].
        intros sid' [= -> ->] Hcode [p Hp].
        unfold socketGame in Hsg. rewrite Hcode in Hsg. simpl in Hsg.
        by rewrite Hgame in Hsg. }
    apply socketGame_Some in Hsg as [Hcode Hg].
    destruct (decide (c = room)) as [->|Hne].
    + simplify_eq. rewrite Hst, Hlatch in Hrun. simpl in Hrun.
      destruct (JsMap.get sid (players g)) as [player|] eqn:Hplayer.
      2:{ simplify_eq. apply Hsame; [done| |done].
          intros sid' [= -> ->] _ [p Hp]. congruence. }
      rewrite Hq in Hrun.
      destruct (decide (idx = correctIndex q)) as [->|Hwrong].
      * left. destruct (checkWinner _) in Hrun; simplify_eq;
          rewrite resolutions_cons; simpl;
          rewrite bool_decide_eq_true_2 by done; lia.
      * simplify_eq. apply Hsame; [done| |done].
        intros sid' [= -> ->]. done.
    + assert (Hans : ∀ sid', SubmitAnswer sid idx
                              = SubmitAnswer sid' (correctIndex q) →
                       gameCode s !! sid' = Some room →
                       is_Some (JsMap.get sid' (players g)) → False).
      { intros sid' [= -> ->] Hcode'. congruence. }
      repeat case_match; simplify_eq; try (by apply Hsame).
      * eapply Hput; [by left|by intros ->|done..].
      * eapply Hput; [by left|by intros ->|done..].
  - (* chatMessage *)
    unfold on_chatMessage, ignored in Hrun.
    repeat case_match; simplify_eq; by apply Hsame.
  - (* playAgain *)
    unfold on_playAgain, ignored in Hrun.
    destruct (socketGame sid s) as [[c game]|] eqn:Hsg;
      [apply socketGame_Some in Hsg as [_ Hg]|simplify_eq; by apply Hsame].
    case_decide as Hhost; simplify_eq; [by apply Hsame|].
    eapply Hput; [by left| |done..].
    intros ->. simplify_eq; destruct Hkeep; by apply dec_stable.
  - (* leaveGame *)
    unfold handleDisconnect, ignored in Hrun.
    destruct (socketGame sid s) as [[c game]|] eqn:Hsg;
      [apply socketGame_Some in Hsg as [_ Hg]|simplify_eq; by apply Hsame].
    change (hostId (removePlayer sid game)) with (hostId game) in Hrun.
    case_decide as Hhost; simplify_eq.
    + apply Hsame; [|done..].
      simpl. rewrite lookup_delete_ne; [done|].
      intros ->. by simplify_eq.
    + eapply Hput; [right; by eexists| |done..].
      intros ->. by simplify_eq.
  - (* disconnect *)
    unfold handleDisconnect, ignored in Hrun.
    destruct (socketGame sid s) as [[c game]|] eqn:Hsg;
      [apply socketGame_Some in Hsg as [_ Hg]|simplify_eq; by apply Hsame].
    change (hostId (removePlayer sid game)) with (hostId game) in Hrun.
    case_decide as Hhost; simplify_eq.
    + apply Hsame; [|done..].
      simpl. rewrite lookup_delete_ne; [done|].
      intros ->. by simplify_eq.
    + eapply Hput; [right; by eexists| |done..].
      intros ->. by simplify_eq.
  - (* a firing of an interval *)
    unfold intervalTick, ignored in Hrun.
    destruct (decide (r = room)) as [->|Hne].
    + rewrite Hgame in Hrun.
      case_decide as Hlive;
        [|simplify_eq; apply Hsame; [done|done|by intros _ ?]].
      unfold countdown in Hrun. simpl in Hrun. rewrite Hlatch, Hq in Hrun.
      simpl in Hrun.
      destruct (decide (timeRemaining g - 1 ≤ 0)) as [Hexp|Hleft];
        simpl in Hrun; simplify_eq.
      * left. rewrite !resolutions_cons. simpl.
        rewrite bool_decide_eq_true_2 by done. lia.
      * right. eexists. split.
        -- split; [simpl; by rewrite lookup_insert_eq|done].
        -- split; [done|]. split; [done|]. split; [done|].
           split; [by intros Hno; destruct Hno|].
           split; [done|]. intros _ _ ?. lia.
    + destruct (games s !! r) as [game|] eqn:Hg;
        [|simplify_eq; apply Hsame; [done|done|by intros [= ->]]].
      case_decide as Hlive;
        [|simplify_eq; apply Hsame; [done|done|by intros [= ->]]].
      destruct (countdown r game) as [[g1 eff]| |]; [|done..].
      simpl in Hrun. simplify_eq.
      eapply Hput; [by left|by intros ->|done|by intros [= ->]].
  - (* a deferred sendNextQuestion of another room *)
    assert (Hne : r ≠ room) by done.
    unfold sendNextQuestion, ignored in Hrun.
    destruct (games s !! r) as [game|] eqn:Hg;
      [|simplify_eq; by apply Hsame].
    destruct (negb (started game) || bool_decide (is_Some (winner game)));
      [simplify_eq; by apply Hsame|].
    destruct (getRandomQuestion _ _ _ _) as [[[drawn g1] rs1]| |]; [|done..].
    simpl in Hrun. destruct drawn as [q'|]; [|done].
    destruct (shuffleAnswers _ _ _) as [[sh ni] rs2]. simplify_eq.
    eapply Hput; [by left|by intros ->|done..].
Qed.

(** Any events that do not take the question away: it gets a
    resolution once a registered player of the room gives the correct
    answer, or the running interval has fired as often as there were
    seconds left. *)
Lemma run_open_any (evs : list Event) :
  ∀ (s s' : Server) (g : Game) (out : list Effect),
    standsOpen room q s g →
    Forall (λ ev, ¬ abandons room (hostId g) ev) evs →
    run questions fuel evs s = Done (s', out) →
    ((∃ evs1 socketId evs2 s1 out1 g1,
        evs = (evs1 ++ SubmitAnswer socketId (correctIndex q) :: evs2)%list
        ∧ run questions fuel evs1 s = Done (s1, out1)
        ∧ socketGame socketId s1 = Some (room, g1)
        ∧ is_Some (JsMap.get socketId (players g1))) →
     (1 ≤ resolutions room out)%nat)
    ∧ (timerInterval g = TimerLive →
       (1 ≤ ticks room evs)%nat →
       timeRemaining g ≤ Z.of_nat (ticks room evs) →
       (1 ≤ resolutions room out)%nat).
Proof.
  induction evs as [|ev evs IH]; intros s s' g out Hopen Hevs Hrun.
  { split.
    - intros (evs1 & sid & evs2 & ? & ? & ? & Hnil & _).
      by destruct evs1.
    - intros _ Hticks. cbv in Hticks. lia. }
  apply Forall_cons in Hevs as [Hev Hevs]. cbn [run] in Hrun.
  destruct (handle questions fuel ev s) as [[s1 out1]| |] eqn:H1; [|done..].
  simpl in Hrun.
  destruct (run questions fuel evs s1) as [[s2 out2]| |] eqn:H2; [|done..].
  simpl in Hrun. simplify_eq. rewrite resolutions_app.
  destruct (handle_open ev s s1 g out1 Hopen Hev H1)
    as [Hres|(g1 & Hopen1 & Hhost & Htimer & Hsec & Hsame & Hans & Htick)];
    [split; intros; lia|].
  rewrite <- Hhost in Hevs.
  destruct (IH s1 s' g1 out2 Hopen1 Hevs H2) as [IHans IHtick].
  split.
  - intros (evs1 & sid & evs2 & sx & outx & gx & Hsplit & Hrun1 & Hsg & Hreg).
    destruct evs1 as [|ev1 evs1]; simpl in Hsplit; simplify_eq.
    + cbn [run] in Hrun1. simplify_eq.
      apply socketGame_Some in Hsg as [Hcode Hgx].
      destruct Hopen as (Hg & _). simplify_eq.
      by destruct (Hans sid eq_refl Hcode Hreg).
    + cbn [run] in Hrun1. rewrite H1 in Hrun1. simpl in Hrun1.
      destruct (run questions fuel evs1 s1) as [[sy outy]| |] eqn:Hy;
        [|done..].
      simpl in Hrun1. simplify_eq.
      enough (1 ≤ resolutions room out2)%nat by lia.
      apply IHans. by exists evs1, sid, evs2, sx, outy, gx.
  - intros Hlive Hticks Hleft. rewrite ticks_cons in Hticks, Hleft.
    enough (1 ≤ resolutions room out2)%nat by lia.
    destruct (decide (ev = IntervalTick room)) as [->|Hother].
    + specialize (Hsec eq_refl Hlive).
      assert (0 < timeRemaining g - 1).
      { destruct (decide (timeRemaining g - 1 ≤ 0)) as [Hexp|]; [|lia].
        by destruct (Htick eq_refl Hlive Hexp). }
      apply IHtick; [congruence|lia|lia].
    + rewrite Hsame in * by done.
      apply IHtick; [congruence|lia|lia].
Qed.
End Lifetime.

(** C4.  A question is made active in a room by the broadcast of
    [newQuestion]; what is broadcast up to the room's next
    [newQuestion] belongs to it.  Whatever events arrive, in whatever
    state, such a stretch holds at most one resolution ([questionResult]
    or [timeUp]), never two, and none at all when it starts in a state
    where the room has no question awaiting its resolution.  In a
    round, that is a sequence of answers from the room's sockets and
    firings of the room's interval on an open question, the listeners
    all return.  Exactly one resolution is broadcast for an open
    question once a registered player of the room gives the correct
    answer, or the running interval has fired as often as there were
    seconds left, and so also when both happen, whatever else arrives
    in between, as long as the question is not taken away by the
    room's next [sendNextQuestion], by [playAgain] or by a departure
    from the host's socket.  A question that the host abandons, by
    [playAgain] or by leaving, is never resolved.  And any listener
    that broadcasts a resolution to a room found the room's latch clear
    and leaves it set. *)
Theorem at_most_one_resolution_per_question
    (questions : Bank) (fuel : nat) (room : string) :
  (∀ (s s' : Server) (evs : list Event) (out pre mid post : list Effect),
     run questions fuel evs s = Done (s', out) →
     out = (pre ++ mid ++ post)%list →
     Forall (λ e, isNewQuestion room e = false) mid →
     (resolutions room mid ≤ 1)%nat
     ∧ (pre = [] → ¬ awaitsResolution room s →
        resolutions room mid = 0%nat))
  ∧ (∀ (s : Server) (game : Game) (q : Question) (evs : list Event),
       games s !! room = Some game →
       currentQuestion game = Some q →
       started game = true →
       questionAnswered game = false →
       Forall (ofRound s room) evs →
       ∃ s' out,
         run questions fuel evs s = Done (s', out)
         ∧ (resolutions room out ≤ 1)%nat
         ∧ ((∃ socketId,
               is_Some (JsMap.get socketId (players game))
               ∧ SubmitAnswer socketId (correctIndex q) ∈ evs) →
            resolutions room out = 1%nat)
         ∧ (timerInterval game = TimerLive →
            (1 ≤ ticks room evs)%nat →
            timeRemaining game ≤ Z.of_nat (ticks room evs) →
            resolutions room out = 1%nat))
  ∧ (∀ (s s' : Server) (game : Game) (q : Question) (evs : list Event)
       (out : list Effect),
       standsOpen room q s game →
       Forall (λ ev, ¬ abandons room (hostId game) ev) evs →
       run questions fuel evs s = Done (s', out) →
       (resolutions room out ≤ 1)%nat
       ∧ ((∃ evs1 socketId evs2 s1 out1 g1,
             evs = (evs1 ++ SubmitAnswer socketId (correctIndex q) :: evs2)%list
             ∧ run questions fuel evs1 s = Done (s1, out1)
             ∧ socketGame socketId s1 = Some (room, g1)
             ∧ is_Some (JsMap.get socketId (players g1))) →
          resolutions room out = 1%nat)
       ∧ (timerInterval game = TimerLive →
          (1 ≤ ticks room evs)%nat →
          timeRemaining game ≤ Z.of_nat (ticks room evs) →
          resolutions room out = 1%nat))
  ∧ (∀ (s s1 s2 : Server) (host : string) (g : Game) (evs : list Event)
       (out1 out2 mid post : list Effect),
       socketGame host s = Some (room, g) →
       host = hostId g →
       on_playAgain host s = Done (s1, out1)
       ∨ handleDisconnect host s = Done (s1, out1) →
       run questions fuel evs s1 = Done (s2, out2) →
       out2 = (mid ++ post)%list →
       Forall (λ e, isNewQuestion room e = false) mid →
       resolutions room (out1 ++ mid) = 0%nat)
  ∧ (∀ ev s1 s2 out1,
       handle questions fuel ev s1 = Done (s2, out1) →
       (0 < resolutions room out1)%nat →
       (∃ g1, games s1 !! room = Some g1 ∧ questionAnswered g1 = false)
       ∧ (∃ g2, games s2 !! room = Some g2 ∧ questionAnswered g2 = true)).
Proof.
  assert (Hany : ∀ (s s' : Server) (evs : list Event)
                   (out pre mid post : list Effect),
             run questions fuel evs s = Done (s', out) →
             out = (pre ++ mid ++ post)%list →
             Forall (λ e, isNewQuestion room e = false) mid →
             (resolutions room mid ≤ 1)%nat
             ∧ (pre = [] → ¬ awaitsResolution room s →
                resolutions room mid = 0%nat)).
  { intros s s' evs out pre mid post Hrun -> Hmid. split.
    - destruct (run_tally questions fuel room evs s s' _ 0 Hrun)
        as (m & Hm & _); [lia|done|].
      destruct (tally_stretches room 0 m pre mid post Hm) as [Hle _];
        [lia|done|done].
    - intros -> Hnone.
      destruct (run_tally questions fuel room evs s s' _ 1 Hrun)
        as (m & Hm & _); [lia|done|].
      destruct (tally_stretches room 1 m [] mid post Hm) as [_ Hle];
        [lia|done|].
      specialize (Hle eq_refl). lia. }
  split; [exact Hany|]. split; [|split; [|split]].
  - intros s game q evs Hgame Hq Hstarted Hlatch Hevs.
    apply (run_open questions fuel room game q s Hq Hstarted Hlatch evs
             s (timeRemaining game)); [done..|].
    by rewrite set_timeRemaining_same.
  - intros s s' game q evs out Hopen Hevs Hrun.
    assert (Hle : (resolutions room out ≤ 1)%nat).
    { destruct (Hany s s' evs out [] out [] Hrun) as [Hle _];
        [by rewrite app_nil_r| |done].
      apply (run_no_newQuestion questions fuel room evs s s' out Hrun).
      eapply Forall_impl; [exact Hevs|].
      intros ev Hev rs ->. by apply Hev. }
    destruct (run_open_any questions fuel room q evs s s' game out
                Hopen Hevs Hrun) as [Hans Htick].
    split; [done|]. split.
    + intros Hwho. specialize (Hans Hwho). lia.
    + intros Hlive H1 H2. specialize (Htick Hlive H1 H2). lia.
  - intros s s1 s2 host g evs out1 out2 mid post Hsg Hhost Hgone Hrun -> Hmid.
    assert (resolutions room out1 = 0%nat ∧ ¬ awaitsResolution room s1)
      as [Hout1 Hnone].
    { destruct Hgone as [Hgone|Hgone].
      - unfold on_playAgain in Hgone. rewrite Hsg in Hgone.
        rewrite decide_False in Hgone by (by intros []). simplify_eq.
        split; [done|].
        intros [(_ & _ & [? ?])|[? _]]%awaits_putGame; done.
      - unfold handleDisconnect in Hgone. rewrite Hsg in Hgone.
        rewrite decide_True in Hgone by done. simplify_eq.
        split; [done|].
        by intros [? _]%awaits_set_gameCode%awaits_drop. }
    rewrite resolutions_app, Hout1.
    by destruct (Hany s1 s2 evs _ [] mid post Hrun eq_refl Hmid) as [_ ->].
  - intros ev s1 s2 out1. apply resolution_checks_and_sets_latch.
Qed.

(** Against C4 as it is stated: the host resets the game while the
    first question is open and starts it again.  Two questions were
    sent to the room and the first one got no resolution. *)
Lemma abandoned_question_gets_no_resolution :
  let evs :=
    (Demo.firstRound
     ++ [PlayAgain "host"; StartGame "host" "6th";
         TimeoutFires "ABCD1234" []])%list in
  ∃ s out,
    run Demo.bank 2 evs boot = Done (s, out)
    ∧ questionsSent "ABCD1234" out = 2%nat
    ∧ resolutions "ABCD1234" out = 0%nat
    ∧ ¬ resolvedExactlyOnce "ABCD1234" out.
Proof.
  intros evs. exists (Demo.after evs), (Demo.emitted evs).
  split; [vm_compute; reflexivity|]. split; [vm_compute; reflexivity|].
  split; [vm_compute; reflexivity|].
  intros Hall.
  specialize (Hall
    (take 10 (Demo.emitted evs))
    (RoomEmit "ABCD1234" (newQuestion "2+2?" ["7"; "5"; "4"; "6"] "algebra" 1))
    (take 3 (drop 11 (Demo.emitted evs)))
    (RoomEmit "ABCD1234" (newQuestion "1+1?" ["2"; "3"; "4"; "1"] "algebra" 1))
    []).
  assert (Hno : resolutions "ABCD1234" (take 3 (drop 11 (Demo.emitted evs)))
                = 0%nat) by (vm_compute; reflexivity).
  rewrite Hno in Hall. discriminate Hall.
  - vm_compute. reflexivity.
  - vm_compute. reflexivity.
  - vm_compute. reflexivity.
  - vm_compute. repeat constructor.
Qed.

Lemma at_most_one_resolution_per_question_witness :
  let s := Demo.after Demo.firstRound in
  let evs :=
    ((SubmitAnswer "guest" 1 :: replicate 14 (IntervalTick "ABCD1234"))
     ++ [SubmitAnswer "host" 2; IntervalTick "ABCD1234";
         SubmitAnswer "guest" 2; IntervalTick "ABCD1234"])%list in
  let mixed :=
    [ChatMessage "guest" "hi" 5; StartGame "guest" "7th";
     CreateGame "late" "wxyz5678"; SetName "lurker" "Cy";
     SubmitAnswer "lurker" 2; LeaveGame "guest"] in
  let again :=
    [PlayAgain "host"; SubmitAnswer "guest" 2; IntervalTick "ABCD1234"] in
  (ticks "ABCD1234" evs = 16%nat)
  ∧ timeRemaining (Demo.gameAt "ABCD1234" s) = 15
  ∧ (∃ s' out,
       run Demo.bank 2 evs s = Done (s', out)
       ∧ resolutions "ABCD1234" out = 1%nat)
  ∧ (resolutions "ABCD1234" (Demo.emitted (Demo.firstRound ++ evs)) ≤ 1)%nat
  ∧ (∃ s' out,
       run Demo.bank 2 mixed s = Done (s', out)
       ∧ resolutions "ABCD1234" out = 1%nat)
  ∧ resolutions "ABCD1234"
      (drop 11 (Demo.emitted (Demo.firstRound ++ again))) = 0%nat.
Proof.
  intros s evs mixed again. split; [by vm_compute|]. split; [by vm_compute|].
  destruct (at_most_one_resolution_per_question Demo.bank 2 "ABCD1234")
    as (Hany & Hround & Hcourse & Hgone & _).
  split; [|split; [|split]].
  - destruct (Hround s (Demo.gameAt "ABCD1234" s)
                {| question := "2+2?"; answers := ["7"; "5"; "4"; "6"];
                   correctIndex := 2; strand := "algebra";
                   question_id := "algebra-1" |} evs)
      as (s' & out & Hrun & _ & Hanswer & _).
    + by vm_compute.
    + by vm_compute.
    + by vm_compute.
    + by vm_compute.
    + unfold evs. simpl.
      repeat (apply Forall_cons; split; [by vm_compute|]). constructor.
    + exists s', out. split; [exact Hrun|]. apply Hanswer.
      exists "host". split; [vm_compute; eexists; reflexivity|].
      unfold evs. simpl. do 15 right. left.
  - destruct (Hany boot (Demo.after (Demo.firstRound ++ evs))
                (Demo.firstRound ++ evs)%list
                (Demo.emitted (Demo.firstRound ++ evs))
                (take 11 (Demo.emitted (Demo.firstRound ++ evs)))
                (drop 11 (Demo.emitted (Demo.firstRound ++ evs))) [])
      as [Hle _].
    + vm_compute. reflexivity.
    + vm_compute. reflexivity.
    + vm_compute. repeat constructor.
    + assert (Hfirst : resolutions "ABCD1234"
                (take 11 (Demo.emitted (Demo.firstRound ++ evs))) = 0%nat)
        by (vm_compute; reflexivity).
      rewrite <- (take_drop 11 (Demo.emitted (Demo.firstRound ++ evs))).
      rewrite resolutions_app, Hfirst. exact Hle.
  - assert (Hrun : run Demo.bank 2 mixed s
                   = Done (Demo.after (Demo.firstRound ++ mixed),
                           drop 11 (Demo.emitted (Demo.firstRound ++ mixed))))
      by (vm_compute; reflexivity).
    eexists _, _. split; [exact Hrun|].
    destruct (Hcourse s (Demo.after (Demo.firstRound ++ mixed))
                (Demo.gameAt "ABCD1234" s)
                {| question := "2+2?"; answers := ["7"; "5"; "4"; "6"];
                   correctIndex := 2; strand := "algebra";
                   question_id := "algebra-1" |} mixed
                (drop 11 (Demo.emitted (Demo.firstRound ++ mixed))))
      as (_ & Hanswer & _); [..|exact Hrun|].
    + unfold standsOpen. split; [|split; [|split]]; vm_compute; reflexivity.
    + unfold mixed.
      repeat (apply Forall_cons; split;
                [vm_compute; intros Hbad; first [exact Hbad|discriminate Hbad]|]).
      constructor.
    + apply Hanswer.
      exists (take 4 mixed), "lurker", [LeaveGame "guest"],
        (Demo.after (Demo.firstRound ++ take 4 mixed)),
        (drop 11 (Demo.emitted (Demo.firstRound ++ take 4 mixed))),
        (Demo.gameAt "ABCD1234" (Demo.after (Demo.firstRound ++ take 4 mixed))).
      split; [reflexivity|]. split; [vm_compute; reflexivity|].
      split; [vm_compute; reflexivity|]. vm_compute. eexists. reflexivity.
  - pose proof (Hgone s (Demo.after (Demo.firstRound ++ [PlayAgain "host"]))
                  (Demo.after (Demo.firstRound ++ again)) "host"
                  (Demo.gameAt "ABCD1234" s)
                  [SubmitAnswer "guest" 2; IntervalTick "ABCD1234"]
                  (drop 11 (Demo.emitted (Demo.firstRound ++ [PlayAgain "host"])))
                  (drop 12 (Demo.emitted (Demo.firstRound ++ again)))
                  (drop 12 (Demo.emitted (Demo.firstRound ++ again))) [])
      as Hnone.
    assert (Hsame : drop 11 (Demo.emitted (Demo.firstRound ++ again))
                    = (drop 11 (Demo.emitted (Demo.firstRound ++ [PlayAgain "host"]))
                       ++ drop 12 (Demo.emitted (Demo.firstRound ++ again)))%list)
      by (vm_compute; reflexivity).
    rewrite Hsame. apply Hnone.
    + vm_compute. reflexivity.
    + vm_compute. reflexivity.
    + left. vm_compute. reflexivity.
    + vm_compute. reflexivity.
    + vm_compute. reflexivity.
    + vm_compute. repeat constructor.
Defined.

(** ** Scores and the winner *)

Lemma checkWinner_Some (g : Game) (w : Player) :
  checkWinner g = Some w → w ∈ getPlayerList g ∧ (10 ≤ score w)%nat.
Proof.
  unfold checkWinner, getPlayerList. intros H.
  apply find_some in H as [Hin Hs]. split.
  - by apply list_elem_of_In.
  - by apply Nat.leb_le.
Qed.

Lemma checkWinner_None (g : Game) (p : Player) :
  checkWinner g = None → p ∈ getPlayerList g → (score p < 10)%nat.
Proof.
  unfold checkWinner, getPlayerList. intros H Hin.
  apply list_elem_of_In in Hin.
  pose proof (find_none _ _ H p Hin) as Hs. cbv beta in Hs.
  apply Nat.leb_gt in Hs. lia.
Qed.

Lemma get_Some_values {V} (k : string) (v : V) (m : list (string * V)) :
  JsMap.get k m = Some v → v ∈ JsMap.values m.
Proof.
  intros H%get_Some_elem_of. unfold JsMap.values.
  by apply (list_elem_of_fmap_2 snd) in H.
Qed.

Lemma getRandomQuestion_fields (questions : Bank) (fuel : nat) :
  ∀ (g g' : Game) (rs rs' : list nat) (drawn : option Question),
    getRandomQuestion questions fuel g rs = Done (drawn, g', rs') →
    ∃ U, g' = set_usedQuestions U g.
Proof.
  induction fuel as [|fuel IH]; intros g g' rs rs' drawn; [done|].
  simpl. repeat case_match; intros Hrun; simplify_eq.
  all: try (apply IH in Hrun as [U ->]; by exists U).
  all: try (by eexists).
  exists (usedQuestions g'). by destruct g'.
Qed.

Section Kept.
Implicit Types (g : Game) (s : Server).

Lemma kept_boot : allScoresKept boot.
Proof. intros c g H. simpl in H. by rewrite lookup_empty in H. Qed.

Lemma kept_putGame c g s :
  allScoresKept s → scoresKept g → allScoresKept (putGame c g s).
Proof.
  intros Hs Hg c' g'. simpl. rewrite lookup_insert.
  case_decide; [by intros [= <-]|apply Hs].
Qed.

Lemma kept_set_gameCode gc s :
  allScoresKept s → allScoresKept (set_gameCode gc s).
Proof. done. Qed.

Lemma kept_delete c s :
  allScoresKept s → allScoresKept (set_games (delete c (games s)) s).
Proof.
  intros Hs c' g'. simpl. rewrite lookup_delete.
  case_decide; [done|apply Hs].
Qed.

Lemma kept_addPlayer sid nm g : scoresKept g → scoresKept (addPlayer sid nm g).
Proof.
  intros Hg p Hp. unfold getPlayerList, addPlayer in Hp. simpl in Hp.
  apply elem_of_values_set in Hp as [->|Hp]; simpl; [split; lia|].
  apply (Hg p Hp).
Qed.

Lemma kept_removePlayer sid g : scoresKept g → scoresKept (removePlayer sid g).
Proof.
  intros Hg p Hp. unfold getPlayerList, removePlayer in Hp. simpl in Hp.
  apply elem_of_values_delete in Hp. apply (Hg p Hp).
Qed.

Lemma kept_fields g g' :
  players g' = players g →
  (questionAnswered g = true → questionAnswered g' = true) →
  (is_Some (winner g) → is_Some (winner g')) →
  scoresKept g → scoresKept g'.
Proof.
  intros Hp Hl Hw Hg p Hin. unfold getPlayerList in Hin. rewrite Hp in Hin.
  destruct (Hg p Hin) as [H1 H2]. split; [done|].
  intros H10. destruct (H2 H10). auto.
Qed.

Lemma kept_fresh_round g g' :
  players g' = players g → winner g = None →
  scoresKept g → scoresKept g'.
Proof.
  intros Hp Hw Hg p Hin. unfold getPlayerList in Hin. rewrite Hp in Hin.
  destruct (Hg p Hin) as [H1 H2]. split; [done|].
  intros H10. destruct (H2 H10) as [_ [w Hsome]]. congruence.
Qed.

Lemma kept_reset g g' :
  players g' = resetScores (players g) → scoresKept g'.
Proof.
  intros Hp p Hin. unfold getPlayerList in Hin. rewrite Hp in Hin.
  destruct (resetScores_roster (players g)) as (_ & _ & Hz).
  rewrite Forall_forall in Hz. rewrite (Hz p Hin). split; lia.
Qed.

(** Before a point is scored the latch is clear, so every score is at
    most 9. *)
Lemma kept_open_scores g p :
  scoresKept g → questionAnswered g = false →
  p ∈ getPlayerList g → (score p ≤ 9)%nat.
Proof.
  intros Hg Hl Hin. destruct (Hg p Hin) as [H1 H2].
  destruct (decide (10 ≤ score p)%nat) as [H10|]; [|lia].
  destruct (H2 H10). congruence.
Qed.
End Kept.

(** The listener on a correct answer from a registered player while the
    question is open. *)
Lemma submitAnswer_correct
    (s : Server) (socketId c : string) (game : Game) (player : Player)
    (q : Question) :
  socketGame socketId s = Some (c, game) →
  started game = true →
  questionAnswered game = false →
  JsMap.get socketId (players game) = Some player →
  currentQuestion game = Some q →
  let g1 :=
    scorePoint socketId player
      (set_timerInterval (clearInterval (timerInterval game))
         (set_questionAnswered true game)) in
  let result :=
    RoomEmit c (questionResult socketId (name player) (correctIndex q)
                  (getPlayerList g1)) in
  on_submitAnswer socketId (correctIndex q) s =
    match checkWinner g1 with
    | Some w =>
        Done (putGame c (set_winner (Some w) g1) s,
              [result; RoomEmit c (gameOver w (getPlayerList g1))])
    | None => Done (putGame c g1 s, [result; SetTimeout c 3000])
    end.
Proof.
  intros Hsg Hstarted Hlatch Hplayer Hq g1 result.
  unfold on_submitAnswer. rewrite Hsg, Hstarted, Hlatch. simpl.
  rewrite Hplayer, Hq. by rewrite decide_True.
Qed.

(** Every other outcome of the listener leaves the server as it was. *)
Lemma submitAnswer_inv
    (s s' : Server) (socketId : string) (answerIndex : Z) (out : list Effect) :
  on_submitAnswer socketId answerIndex s = Done (s', out) →
  (s' = s ∧ out = [])
  ∨ ∃ c game player q,
      socketGame socketId s = Some (c, game)
      ∧ started game = true
      ∧ questionAnswered game = false
      ∧ JsMap.get socketId (players game) = Some player
      ∧ currentQuestion game = Some q
      ∧ answerIndex = correctIndex q.
Proof.
  unfold on_submitAnswer, ignored.
  destruct (socketGame socketId s) as [[c game]|] eqn:Hsg;
    [|intros [= <- <-]; by left].
  destruct (started game) eqn:Hst, (questionAnswered game) eqn:Hl; simpl;
    try (intros [= <- <-]; by left).
  destruct (JsMap.get socketId (players game)) as [player|] eqn:Hp;
    [|intros [= <- <-]; by left].
  destruct (currentQuestion game) as [q|] eqn:Hq; [|done].
  destruct (decide (answerIndex = correctIndex q)) as [->|];
    [|intros [= <- <-]; by left].
  intros _. right. by exists c, game, player, q.
Qed.

Lemma scorePoint_scores (socketId : string) (player : Player) (g : Game) :
  (∀ p, p ∈ getPlayerList g → (score p ≤ 9)%nat) →
  JsMap.get socketId (players g) = Some player →
  ∀ p, p ∈ getPlayerList (scorePoint socketId player g) →
    (score p ≤ 10)%nat
    ∧ ((10 ≤ score p)%nat →
       p = {| player_id := player_id player; name := name player;
              score := 10; isHost := isHost player |}
       ∧ score player = 9%nat).
Proof.
  intros H9 Hplayer p Hp.
  pose proof (H9 player (get_Some_values _ _ _ Hplayer)) as Hplayer9.
  unfold getPlayerList, scorePoint in Hp. simpl in Hp.
  apply elem_of_values_set in Hp as [->|Hp]; simpl.
  - split; [lia|]. intros H10. assert (score player = 9%nat) as -> by lia.
    done.
  - pose proof (H9 p Hp). split; lia.
Qed.

Lemma handle_keeps_scores
    (questions : Bank) (fuel : nat) (ev : Event) (s s' : Server)
    (out : list Effect) :
  allScoresKept s →
  handle questions fuel ev s = Done (s', out) →
  allScoresKept s'.
Proof.
  intros Hs.
  assert (Hsg : ∀ sid c game, socketGame sid s = Some (c, game) → scoresKept game).
  { intros sid c game [_ Hg]%socketGame_Some. by apply (Hs c). }
  destruct ev as [sid c|sid c|sid nm|sid gl|sid idx|sid msg now|sid|sid|sid|r|r rs];
    cbn [handle].
  - unfold on_createGame. repeat case_match; intros [= <- <-]; try done.
    apply kept_set_gameCode, kept_putGame; [done|].
    by intros p ?%elem_of_nil.
  - unfold on_joinGame. repeat case_match; intros [= <- <-]; try done.
  - unfold on_setName, ignored.
    destruct (socketGame sid s) as [[c game]|] eqn:Hgame;
      [|by intros [= <- <-]].
    case_decide; intros [= <- <-]; [done|].
    apply kept_putGame; [done|]. apply kept_addPlayer. eauto.
  - unfold on_startGame, ignored.
    destruct (socketGame sid s) as [[c game]|] eqn:Hgame;
      [|by intros [= <- <-]].
    repeat case_match; intros [= <- <-]; try done.
    apply kept_putGame; [done|].
    apply (kept_fields game); [done..|eauto].
  - intros Hrun.
    destruct (submitAnswer_inv _ _ _ _ _ Hrun)
      as [[-> _]|(c & game & player & q & Hgame & Hst & Hl & Hp & Hq & ->)];
      [done|].
    rewrite (submitAnswer_correct s sid c game player q) in Hrun by done.
    set (g1 := scorePoint sid player _) in Hrun.
    assert (Hg1 : ∀ p, p ∈ getPlayerList g1 →
              (score p ≤ 10)%nat ∧ ((10 ≤ score p)%nat → True)).
    { intros p Hin.
      destruct (scorePoint_scores sid player
                  (set_timerInterval (clearInterval (timerInterval game))
                     (set_questionAnswered true game))) with (p := p)
        as [H1 _]; try done.
      intros p' Hp'. by apply (kept_open_scores game p' (Hsg _ _ _ Hgame)). }
    destruct (checkWinner g1) as [w|] eqn:Hw; injection Hrun as <- <-.
    + apply kept_putGame; [done|]. intros p Hin.
      destruct (Hg1 p Hin) as [H1 _]. split; [done|]. intros _.
      split; [done|]. by eexists.
    + apply kept_putGame; [done|]. intros p Hin.
      destruct (Hg1 p Hin) as [H1 _]. split; [done|]. intros H10.
      pose proof (checkWinner_None g1 p Hw Hin). lia.
  - unfold on_chatMessage, ignored. repeat case_match; intros [= <- <-]; done.
  - unfold on_playAgain, ignored.
    destruct (socketGame sid s) as [[c game]|] eqn:Hgame;
      [|by intros [= <- <-]].
    case_decide; intros [= <- <-]; [done|].
    apply kept_putGame; [done|]. by apply (kept_reset game).
  - unfold handleDisconnect, ignored.
    destruct (socketGame sid s) as [[c game]|] eqn:Hgame;
      [|by intros [= <- <-]].
    case_decide; intros [= <- <-].
    + by apply kept_set_gameCode, kept_delete.
    + apply kept_set_gameCode, kept_putGame; [done|].
      apply kept_removePlayer. eauto.
  - unfold handleDisconnect, ignored.
    destruct (socketGame sid s) as [[c game]|] eqn:Hgame;
      [|by intros [= <- <-]].
    case_decide; intros [= <- <-].
    + by apply kept_set_gameCode, kept_delete.
    + apply kept_set_gameCode, kept_putGame; [done|].
      apply kept_removePlayer. eauto.
  - unfold intervalTick, ignored, countdown.
    destruct (games s !! r) as [game|] eqn:Hgame; [|by intros [= <- <-]].
    simpl. repeat case_match; simpl; intros [= <- <-]; try done;
      simplify_eq; (apply kept_putGame; [done|]);
      apply (kept_fields game); simpl; eauto.
  - unfold sendNextQuestion, ignored.
    destruct (games s !! r) as [game|] eqn:Hgame; [|by intros [= <- <-]].
    destruct (negb (started game) || bool_decide (is_Some (winner game)))
      eqn:Hguard; [by intros [= <- <-]|].
    apply orb_false_iff in Hguard as [_ Hwin].
    apply bool_decide_eq_false in Hwin.
    assert (winner game = None) as Hnone.
    { destruct (winner game); [|done]. destruct Hwin. by eexists. }
    destruct (getRandomQuestion questions fuel (set_questionAnswered false game) rs)
      as [[[drawn g1] rs1]| |] eqn:Hdraw; simpl; [|done..].
    apply getRandomQuestion_fields in Hdraw as [U ->].
    destruct drawn as [q|]; [|done].
    destruct (shuffleAnswers (answers q) (correctIndex q) rs1) as [[sh ni] rs2].
    intros [= <- <-]. apply kept_putGame; [done|].
    apply (kept_fresh_round game); simpl; eauto.
Qed.

Lemma run_keeps_scores
    (questions : Bank) (fuel : nat) (evs : list Event) :
  ∀ (s s' : Server) (out : list Effect),
    allScoresKept s →
    run questions fuel evs s = Done (s', out) →
    allScoresKept s'.
Proof.
  induction evs as [|ev evs IH]; intros s s' out Hs; cbn [run].
  - by intros [= <- <-].
  - destruct (handle questions fuel ev s) as [[s1 out1]| |] eqn:Hev;
      simpl; [|done..].
    destruct (run questions fuel evs s1) as [[s2 out2]| |] eqn:Hrest;
      simpl; [|done..].
    intros [= <- <-]. eapply IH; [|done].
    by eapply handle_keeps_scores.
Qed.

(** With a winner recorded the round engine does not advance. *)
Lemma sendNextQuestion_after_winner
    (questions : Bank) (fuel : nat) (c : string) (rs : list nat)
    (s : Server) (g : Game) :
  games s !! c = Some g →
  is_Some (winner g) →
  sendNextQuestion questions fuel c rs s = Done (s, []).
Proof.
  intros Hg Hw. unfold sendNextQuestion. rewrite Hg.
  by rewrite (bool_decide_eq_true_2 _ Hw), orb_true_r.
Qed.

(** [gameOver] is only ever emitted by the answer listener, with the
    player [checkWinner] found. *)
Lemma gameOver_emitted
    (questions : Bank) (fuel : nat) (ev : Event) (s s' : Server)
    (out : list Effect) (c : string) (w : Player) (sc : list Player) :
  allScoresKept s →
  handle questions fuel ev s = Done (s', out) →
  RoomEmit c (gameOver w sc) ∈ out →
  score w = 10%nat ∧ w ∈ sc
  ∧ ∃ g', games s' !! c = Some g' ∧ sc = getPlayerList g'
          ∧ winner g' = Some w.
Proof.
  intros Hs.
  destruct ev as [sid c0|sid c0|sid nm|sid gl|sid idx|sid msg now|sid|sid|sid|r|r rs];
    cbn [handle].
  5:{ intros Hrun Hin.
      destruct (submitAnswer_inv _ _ _ _ _ Hrun)
        as [[-> ->]|(c1 & game & player & q & Hgame & Hst & Hl & Hp & Hq & ->)];
        [by apply elem_of_nil in Hin|].
      rewrite (submitAnswer_correct s sid c1 game player q) in Hrun by done.
      set (g1 := scorePoint sid player _) in Hrun.
      destruct (checkWinner g1) as [w1|] eqn:Hw; injection Hrun as <- <-.
      - apply elem_of_cons in Hin as [Hin|Hin]; [done|].
        apply list_elem_of_singleton in Hin. injection Hin as -> -> ->.
        apply checkWinner_Some in Hw as [Hwin H10].
        apply socketGame_Some in Hgame as [_ Hgame].
        destruct (scorePoint_scores sid player
                    (set_timerInterval (clearInterval (timerInterval game))
                       (set_questionAnswered true game))) with (p := w1)
          as [H1 _]; try done.
        { intros p' Hp'. by apply (kept_open_scores game p' (Hs _ _ Hgame)). }
        split; [lia|]. split; [done|].
        eexists. simpl. rewrite lookup_insert_eq. done.
      - apply elem_of_cons in Hin as [Hin|Hin]; [done|].
        by apply list_elem_of_singleton in Hin. }
  all: unfold on_createGame, on_joinGame, on_setName, on_startGame,
         on_chatMessage, on_playAgain, handleDisconnect, intervalTick,
         countdown, sendNextQuestion, ignored, mbind, Outcome_bind;
       intros Hrun Hin; exfalso;
       repeat case_match; simplify_eq; simpl in *; simplify_eq;
       repeat (apply elem_of_cons in Hin as [Hin|Hin]; [done|]);
       by apply elem_of_nil in Hin.
Qed.

(** C5.  In any state the server reaches from its start, whatever the
    events were: when a registered player whose score is 9 gives the
    correct answer to the open question, the listener records that
    player, now with score 10, as the game's winner and broadcasts
    [questionResult] and then [gameOver] with that player and the final
    scores; it schedules no further question, and [sendNextQuestion] on
    the room does nothing from then on.  And whenever a listener emits
    [gameOver], the winner it names is in the broadcast scores with
    score 10, so the scores are not all at most 9. *)
Theorem winner_at_ten
    (questions : Bank) (fuel : nat) (evs : list Event) (s : Server)
    (out : list Effect) :
  run questions fuel evs boot = Done (s, out) →
  (∀ socketId c game player q,
     socketGame socketId s = Some (c, game) →
     started game = true →
     questionAnswered game = false →
     currentQuestion game = Some q →
     JsMap.get socketId (players game) = Some player →
     score player = 9%nat →
     ∃ game' champion,
       on_submitAnswer socketId (correctIndex q) s =
         Done (putGame c game' s,
               [RoomEmit c (questionResult socketId (name player)
                              (correctIndex q) (getPlayerList game'));
                RoomEmit c (gameOver champion (getPlayerList game'))])
       ∧ champion = {| player_id := player_id player; name := name player;
                       score := 10; isHost := isHost player |}
       ∧ JsMap.get socketId (players game') = Some champion
       ∧ winner game' = Some champion
       ∧ ∀ fuel' rs,
           sendNextQuestion questions fuel' c rs (putGame c game' s) =
             Done (putGame c game' s, []))
  ∧ (∀ ev s' out' c w sc,
       handle questions fuel ev s = Done (s', out') →
       RoomEmit c (gameOver w sc) ∈ out' →
       score w = 10%nat ∧ w ∈ sc
       ∧ ¬ Forall (λ p, (score p ≤ 9)%nat) sc
       ∧ ∃ g', games s' !! c = Some g' ∧ sc = getPlayerList g'
               ∧ winner g' = Some w).
Proof.
  intros Hreach.
  assert (Hs : allScoresKept s)
    by (eapply run_keeps_scores; [apply kept_boot|exact Hreach]).
  split.
  - intros sid c game player q Hsg Hst Hl Hq Hp H9.
    rewrite (submitAnswer_correct s sid c game player q) by done.
    set (g1 := scorePoint sid player _).
    pose proof Hsg as [_ Hgame]%socketGame_Some.
    assert (Hscores : ∀ p, p ∈ getPlayerList g1 →
              (10 ≤ score p)%nat →
              p = {| player_id := player_id player; name := name player;
                     score := 10; isHost := isHost player |}).
    { intros p Hin H10.
      destruct (scorePoint_scores sid player
                  (set_timerInterval (clearInterval (timerInterval game))
                     (set_questionAnswered true game))) with (p := p)
        as [_ H2]; try done.
      - intros p' Hp'. by apply (kept_open_scores game p' (Hs _ _ Hgame)).
      - by destruct (H2 H10). }
    assert (Hget : JsMap.get sid (players g1) =
              Some {| player_id := player_id player; name := name player;
                      score := 10; isHost := isHost player |}).
    { unfold g1, scorePoint. simpl. rewrite get_set_eq, H9. done. }
    destruct (checkWinner g1) as [w|] eqn:Hw.
    + apply checkWinner_Some in Hw as [Hin H10].
      rewrite (Hscores w Hin H10).
      set (champion := {| player_id := player_id player; name := name player;
                          score := 10; isHost := isHost player |}).
      exists (set_winner (Some champion) g1), champion.
      split; [reflexivity|]. split; [done|].
      split; [exact Hget|]. split; [done|].
      intros fuel' rs.
      eapply sendNextQuestion_after_winner;
        [simpl; apply lookup_insert_eq|by eexists].
    + exfalso. apply get_Some_values in Hget.
      pose proof (checkWinner_None g1 _ Hw Hget) as Hlt. simpl in Hlt. lia.
  - intros ev s' out' c w sc Hrun Hin.
    destruct (gameOver_emitted questions fuel ev s s' out' c w sc Hs Hrun Hin)
      as (H10 & Hw & Hg').
    split; [done|]. split; [done|]. split; [|done].
    intros Hall. rewrite Forall_forall in Hall. specialize (Hall w Hw). lia.
Qed.

Lemma winner_at_ten_witness :
  let s := Demo.after Demo.matchPoint in
  run Demo.bank 2 Demo.matchPoint boot = Done (s, Demo.emitted Demo.matchPoint)
  ∧ ∃ game' champion,
      on_submitAnswer "host" 0 s =
        Done (putGame "ABCD1234" game' s,
              [RoomEmit "ABCD1234"
                 (questionResult "host" "Ann" 0 (getPlayerList game'));
               RoomEmit "ABCD1234" (gameOver champion (getPlayerList game'))])
      ∧ score champion = 10%nat
      ∧ winner game' = Some champion
      ∧ ¬ Forall (λ p, (score p ≤ 9)%nat) (getPlayerList game').
Proof.
  intros s.
  assert (Hrun : run Demo.bank 2 Demo.matchPoint boot
                 = Done (s, Demo.emitted Demo.matchPoint))
    by (vm_compute; reflexivity).
  split; [exact Hrun|].
  destruct (winner_at_ten Demo.bank 2 Demo.matchPoint s _ Hrun) as [HA HB].
  destruct (HA "host" "ABCD1234" (Demo.gameAt "ABCD1234" s)
              {| player_id := "host"; name := "Ann"; score := 9;
                 isHost := true |}
              {| question := "1+1?"; answers := ["2"; "3"; "4"; "1"];
                 correctIndex := 0; strand := "algebra";
                 question_id := "algebra-0" |})
    as (game' & champion & Hsubmit & Hchampion & _ & Hwinner & _);
    [vm_compute; reflexivity..|].
  exists game', champion. split; [exact Hsubmit|].
  split; [by rewrite Hchampion|]. split; [exact Hwinner|].
  destruct (HB (SubmitAnswer "host" 0) _ _ "ABCD1234" champion
              (getPlayerList game') Hsubmit) as (_ & _ & Hnot & _);
    [right; left|exact Hnot].
Defined.

(** * Further properties of the server *)

(** ** Strings *)

Lemma upper_char_facts (a : ascii) :
  Str.isAlnum (Str.upper_char a) = Str.isAlnum a
  ∧ Str.upper_char (Str.upper_char a) = Str.upper_char a.
Proof. destruct a as [[] [] [] [] [] [] [] []]; by vm_compute. Qed.

Lemma toUpperCase_facts (s : string) :
  String.length (Str.toUpperCase s) = String.length s
  ∧ Str.all_chars Str.isAlnum (Str.toUpperCase s) = Str.all_chars Str.isAlnum s
  ∧ Str.toUpperCase (Str.toUpperCase s) = Str.toUpperCase s.
Proof.
  induction s as [|a s (IH1 & IH2 & IH3)]; simpl; [done|].
  destruct (upper_char_facts a) as [-> ->]. by rewrite IH1, IH2, IH3.
Qed.

Lemma toUpperCase_valid (code : string) :
  isValidCode code = true →
  isValidCode (Str.toUpperCase code) = true
  ∧ Str.toUpperCase (Str.toUpperCase code) = Str.toUpperCase code.
Proof.
  intros H. destruct (toUpperCase_facts code) as (Hl & Ha & Hi).
  split; [|done]. unfold isValidCode in *. by rewrite Hl, Ha.
Qed.

Lemma length_substring_0 (n : nat) (s : string) :
  String.length (substring 0 n s) = Nat.min n (String.length s).
Proof.
  revert s. induction n as [|n IH]; intros [|a s]; simpl; try done.
  by rewrite IH.
Qed.

(** ** More on the insertion-ordered map *)

Section JsMapMore.
Context {V : Type}.
Implicit Types (m : list (string * V)) (k : string) (v : V).

Lemma get_None_keys k m : JsMap.get k m = None ↔ k ∉ JsMap.keys m.
Proof.
  unfold JsMap.keys. induction m as [|[k' v'] m IH]; simpl.
  - split; [intros _; apply not_elem_of_nil|done].
  - rewrite not_elem_of_cons. destruct (decide (k = k')) as [->|Hne].
    + split; [done|]. by intros [? _].
    + rewrite IH. tauto.
Qed.

Lemma keys_set_absent k v m :
  JsMap.get k m = None → JsMap.set k v m = (m ++ [(k, v)])%list.
Proof.
  induction m as [|[k' v'] m IH]; simpl; [done|].
  destruct (decide (k = k')) as [->|Hne]; [done|].
  intros H. by rewrite IH.
Qed.

Lemma NoDup_keys_set k v m :
  NoDup (JsMap.keys m) → NoDup (JsMap.keys (JsMap.set k v m)).
Proof.
  intros Hnd. destruct (JsMap.get k m) as [old|] eqn:Hget.
  - rewrite keys_set_present by (by eexists). done.
  - rewrite keys_set_absent by done. unfold JsMap.keys in *.
    rewrite fmap_app. apply NoDup_app. split; [done|]. split.
    + intros x Hx. simpl. rewrite list_elem_of_singleton. intros ->.
      by apply get_None_keys in Hget.
    + apply NoDup_singleton.
Qed.

Lemma elem_of_set k v m (x : string * V) :
  x ∈ JsMap.set k v m → x = (k, v) ∨ x ∈ m.
Proof.
  induction m as [|[k0 v0] m IH]; simpl.
  - rewrite list_elem_of_singleton. auto.
  - destruct (decide (k = k0)) as [->|Hk]; rewrite !elem_of_cons; tauto.
Qed.

Lemma elem_of_delete k m (x : string * V) : x ∈ JsMap.delete k m → x ∈ m.
Proof.
  induction m as [|[k0 v0] m IH]; simpl; [done|].
  destruct (decide (k = k0)) as [->|Hk]; rewrite ?elem_of_cons; tauto.
Qed.

Lemma elem_of_get k v m :
  NoDup (JsMap.keys m) → (k, v) ∈ m → JsMap.get k m = Some v.
Proof.
  unfold JsMap.keys. induction m as [|[k0 v0] m IH]; simpl.
  - by intros _ ?%elem_of_nil.
  - rewrite NoDup_cons. intros [Hk0 Hnd] [[= -> ->]|Hin]%elem_of_cons.
    + by rewrite decide_True.
    + rewrite decide_False; [by apply IH|].
      intros ->. apply Hk0. by apply (list_elem_of_fmap_2 fst) in Hin.
Qed.

Lemma keys_delete_sublist k m :
  JsMap.keys (JsMap.delete k m) `sublist_of` JsMap.keys m.
Proof.
  unfold JsMap.keys. induction m as [|[k0 v0] m IH]; simpl; [done|].
  destruct (decide (k = k0)) as [->|Hk]; simpl.
  - by apply sublist_cons.
  - by apply sublist_skip.
Qed.

Lemma NoDup_keys_delete k m :
  NoDup (JsMap.keys m) → NoDup (JsMap.keys (JsMap.delete k m)).
Proof. intros H. apply (sublist_NoDup _ _ H), keys_delete_sublist. Qed.

Lemma get_delete_eq k m :
  NoDup (JsMap.keys m) → JsMap.get k (JsMap.delete k m) = None.
Proof.
  unfold JsMap.keys. induction m as [|[k0 v0] m IH]; simpl; [done|].
  rewrite NoDup_cons. intros [Hk0 Hnd].
  destruct (decide (k = k0)) as [->|Hk]; simpl.
  - by apply get_None_keys.
  - rewrite decide_False by done. auto.
Qed.

Lemma get_delete_ne k k' m :
  k ≠ k' → JsMap.get k' (JsMap.delete k m) = JsMap.get k' m.
Proof.
  intros Hne. induction m as [|[k0 v0] m IH]; simpl; [done|].
  destruct (decide (k = k0)) as [->|Hk]; simpl.
  - by rewrite decide_False.
  - by rewrite IH.
Qed.

Lemma delete_absent k m : JsMap.get k m = None → JsMap.delete k m = m.
Proof.
  induction m as [|[k0 v0] m IH]; simpl; [done|].
  destruct (decide (k = k0)) as [->|Hk]; [done|].
  intros H. by rewrite IH.
Qed.

Lemma delete_set_absent k v m :
  JsMap.get k m = None → JsMap.delete k (JsMap.set k v m) = m.
Proof.
  induction m as [|[k0 v0] m IH]; simpl.
  - by rewrite decide_True.
  - destruct (decide (k = k0)) as [->|Hk]; [done|]. simpl.
    rewrite decide_False by done. intros H. by rewrite IH.
Qed.
End JsMapMore.

(** ** What every reachable state satisfies *)

Section ServerKept.
Implicit Types (g : Game) (s : Server) (c : string).

Lemma serverKept_boot : serverKept boot.
Proof.
  split.
  - intros c g H. simpl in H. by rewrite lookup_empty in H.
  - intros sid c H. simpl in H. by rewrite lookup_empty in H.
Qed.

Lemma serverKept_putGame c g s :
  serverKept s → gameKept c g → serverKept (putGame c g s).
Proof.
  intros [Hg Hc] Hkept. split; [|done].
  intros c' g'. simpl. rewrite lookup_insert.
  case_decide; [by intros [= <-]; subst|apply Hg].
Qed.

Lemma serverKept_attach sid c gc s :
  serverKept s → gc = gameCode s →
  isValidCode c = true → Str.toUpperCase c = c →
  serverKept (set_gameCode (<[sid := c]> gc) s).
Proof.
  intros [Hg Hc] -> Hv Hu. split; [done|].
  intros sid' c'. simpl. rewrite lookup_insert.
  case_decide; [by intros [= <-]|apply Hc].
Qed.

Lemma serverKept_detach sid gc s :
  serverKept s → gc = gameCode s →
  serverKept (set_gameCode (delete sid gc) s).
Proof.
  intros [Hg Hc] ->. split; [done|].
  intros sid' c'. simpl. rewrite lookup_delete.
  case_decide; [done|apply Hc].
Qed.

Lemma serverKept_drop c s :
  serverKept s → serverKept (set_games (delete c (games s)) s).
Proof.
  intros [Hg Hc]. split; [|done].
  intros c' g'. simpl. rewrite lookup_delete.
  case_decide; [done|apply Hg].
Qed.

Lemma gameKept_newGame code socketId :
  isValidCode code = true →
  gameKept (Str.toUpperCase code) (newGame (Str.toUpperCase code) socketId).
Proof.
  intros Hv. destruct (toUpperCase_valid code Hv) as [Hv' Hi].
  split; [done|]. split; [|split].
  - split; [constructor|]. by intros k p ?%elem_of_nil.
  - by intros ?.
  - split; [simpl; lia|]. split; [done|]. by intros ?.
Qed.

Lemma gameKept_addPlayer c g socketId nm :
  gameKept c g → nm ≠ "" → (String.length nm ≤ 20)%nat →
  gameKept c (addPlayer socketId nm g).
Proof.
  intros (Hc & [Hnd Hr] & Hgr & Hro) Hne Hlen.
  split; [done|]. split; [|done].
  split; [by apply NoDup_keys_set|].
  intros k p [[= -> ->]|Hin]%elem_of_set; [done|by apply Hr].
Qed.

Lemma gameKept_removePlayer c g socketId :
  gameKept c g → gameKept c (removePlayer socketId g).
Proof.
  intros (Hc & [Hnd Hr] & Hgr & Hro).
  split; [done|]. split; [|done].
  split; [by apply NoDup_keys_delete|].
  intros k p Hin%elem_of_delete. by apply Hr.
Qed.

Lemma gameKept_start c g gl :
  gameKept c g → gl ∈ ["6th"; "7th"; "8th"] →
  gameKept c (set_started true (set_gradeLevel (Some gl) g)).
Proof.
  intros (Hc & Hr & Hgr & Ht & Hq & Hlive) Hgl.
  split; [done|]. split; [done|]. split.
  - intros _. by exists gl.
  - split; [done|]. split; [done|]. simpl. intros H.
    destruct (Hlive H) as (_ & ?). done.
Qed.

Lemma rosterKept_scorePoint g socketId player :
  rosterKept g → JsMap.get socketId (players g) = Some player →
  rosterKept (scorePoint socketId player g).
Proof.
  intros [Hnd Hr] Hget. split; [by apply NoDup_keys_set|].
  intros k p [[= -> ->]|Hin]%elem_of_set; [|by apply Hr].
  apply get_Some_elem_of in Hget. by apply Hr in Hget.
Qed.

Lemma rosterKept_reset g g' :
  hostId g' = hostId g → players g' = resetScores (players g) →
  rosterKept g → rosterKept g'.
Proof.
  intros Hh Hp [Hnd Hr]. unfold rosterKept. rewrite Hp, Hh.
  destruct (resetScores_roster (players g)) as (Hk & _ & _).
  rewrite Hk. split; [done|].
  intros k p Hin. unfold resetScores in Hin.
  apply list_elem_of_fmap in Hin as ([k0 p0] & [= -> ->] & Hin).
  by apply Hr in Hin.
Qed.
End ServerKept.

Lemma handle_keeps_server
    (questions : Bank) (fuel : nat) (ev : Event) (s s' : Server)
    (out : list Effect) :
  serverKept s →
  handle questions fuel ev s = Done (s', out) →
  serverKept s'.
Proof.
  intros Hs.
  assert (Hsg : ∀ sid c game, socketGame sid s = Some (c, game) → gameKept c game).
  { intros sid c game [_ Hg]%socketGame_Some. by apply (proj1 Hs c). }
  destruct ev as [sid c|sid c|sid nm|sid gl|sid idx|sid msg now|sid|sid|sid|r|r rs];
    cbn [handle].
  - unfold on_createGame.
    destruct (isValidCode c) eqn:Hv; simpl; [|by intros [= <- <-]].
    case_decide; intros [= <- <-]; [done|].
    destruct (toUpperCase_valid c Hv) as [Hv' Hi].
    apply serverKept_attach; [|done..].
    apply serverKept_putGame; [done|]. by apply gameKept_newGame.
  - unfold on_joinGame.
    destruct (games s !! Str.toUpperCase c) as [game|] eqn:Hgame;
      [|by intros [= <- <-]].
    destruct (started game); intros [= <- <-]; [done|].
    destruct (proj1 Hs _ _ Hgame) as ((_ & Hv & Hu) & _).
    by apply serverKept_attach.
  - unfold on_setName, ignored.
    destruct (socketGame sid s) as [[c game]|] eqn:Hgame;
      [|by intros [= <- <-]].
    case_decide as Hname; intros [= <- <-]; [done|].
    apply serverKept_putGame; [done|].
    apply gameKept_addPlayer; [by eauto|done|].
    rewrite length_substring_0. lia.
  - unfold on_startGame, ignored.
    destruct (socketGame sid s) as [[c game]|] eqn:Hgame;
      [|by intros [= <- <-]].
    case_decide; [by intros [= <- <-]|].
    case_bool_decide as Hgl; simpl; intros [= <- <-]; [|done].
    apply serverKept_putGame; [done|]. apply gameKept_start; eauto.
  - intros Hrun.
    destruct (submitAnswer_inv _ _ _ _ _ Hrun)
      as [[-> _]|(c & game & player & q & Hgame & Hst & Hl & Hp & Hq & ->)];
      [done|].
    rewrite (submitAnswer_correct s sid c game player q) in Hrun by done.
    destruct (Hsg _ _ _ Hgame) as (Hc & Hr & Hgr & Ht & Hqi & Hlive).
    set (g1 := scorePoint sid player _) in Hrun.
    assert (Hroster : rosterKept g1) by (by apply rosterKept_scorePoint).
    assert (Hoff : timerInterval g1 ≠ TimerLive)
      by (simpl; by destruct (timerInterval game)).
    destruct (checkWinner g1) as [w|]; injection Hrun as <- <-;
      (apply serverKept_putGame; [done|]);
      (split; [done|]); (split; [done|]); (split; [done|]);
      (split; [done|]); (split; [done|]); done.
  - unfold on_chatMessage, ignored. repeat case_match; intros [= <- <-]; done.
  - unfold on_playAgain, ignored.
    destruct (socketGame sid s) as [[c game]|] eqn:Hgame;
      [|by intros [= <- <-]].
    case_decide; intros [= <- <-]; [done|].
    destruct (Hsg _ _ _ Hgame) as (Hc & Hr & Hgr & Ht & Hqi & Hlive).
    apply serverKept_putGame; [done|].
    split; [done|]. split; [by apply (rosterKept_reset game)|].
    split; [done|]. split; [done|]. split; [done|]. simpl.
    by destruct (timerInterval game).
  - unfold handleDisconnect, ignored.
    destruct (socketGame sid s) as [[c game]|] eqn:Hgame;
      [|by intros [= <- <-]].
    case_decide; intros [= <- <-].
    + apply serverKept_detach; [|done]. by apply serverKept_drop.
    + apply serverKept_detach; [|done]. apply serverKept_putGame; [done|].
      apply gameKept_removePlayer. eauto.
  - unfold handleDisconnect, ignored.
    destruct (socketGame sid s) as [[c game]|] eqn:Hgame;
      [|by intros [= <- <-]].
    case_decide; intros [= <- <-].
    + apply serverKept_detach; [|done]. by apply serverKept_drop.
    + apply serverKept_detach; [|done]. apply serverKept_putGame; [done|].
      apply gameKept_removePlayer. eauto.
  - unfold intervalTick, ignored, countdown.
    destruct (games s !! r) as [game|] eqn:Hgame; [|by intros [= <- <-]].
    destruct (proj1 Hs _ _ Hgame) as (Hc & Hr & Hgr & Ht & Hqi & Hlive).
    case_decide as Hon; [|by intros [= <- <-]].
    destruct (Hlive Hon) as (Hst & [q Hq] & Hl & Hw & H1).
    simpl. rewrite Hl, Hq. simpl.
    case_decide; simpl; intros [= <- <-];
      (apply serverKept_putGame; [done|]);
      (split; [done|]); (split; [done|]); (split; [done|]); simpl.
    + split; [simpl; lia|]. split; [done|]. simpl. by rewrite Hon.
    + split; [simpl; lia|]. split; [done|]. simpl. intros _.
      split; [done|]. split; [by rewrite Hq; eexists|].
      split; [done|]. split; [done|lia].
  - unfold sendNextQuestion, ignored.
    destruct (games s !! r) as [game|] eqn:Hgame; [|by intros [= <- <-]].
    destruct (proj1 Hs _ _ Hgame) as (Hc & Hr & Hgr & Ht & Hqi & Hlive).
    destruct (started game) eqn:Hst; simpl; [|by intros [= <- <-]].
    case_bool_decide as Hwin; [by intros [= <- <-]|].
    assert (winner game = None) as Hnone.
    { destruct (winner game); [|done]. destruct Hwin. by eexists. }
    destruct (getRandomQuestion questions fuel (set_questionAnswered false game) rs)
      as [[[drawn g1] rs1]| |] eqn:Hdraw; simpl; [|done..].
    apply getRandomQuestion_fields in Hdraw as [U ->].
    destruct drawn as [q|]; [|done].
    destruct (shuffleAnswers (answers q) (correctIndex q) rs1) as [[sh ni] rs2].
    intros [= <- <-]. apply serverKept_putGame; [done|].
    split; [done|]. split; [done|]. split; [done|].
    split; [simpl; lia|]. split; [simpl; split; [done|lia]|]. simpl. intros _.
    split; [done|]. split; [by eexists|]. done.
Qed.

Lemma run_keeps_server
    (questions : Bank) (fuel : nat) (evs : list Event) :
  ∀ (s s' : Server) (out : list Effect),
    serverKept s →
    run questions fuel evs s = Done (s', out) →
    serverKept s'.
Proof.
  induction evs as [|ev evs IH]; intros s s' out Hs; cbn [run].
  - by intros [= <- <-].
  - destruct (handle questions fuel ev s) as [[s1 out1]| |] eqn:Hev;
      simpl; [|done..].
    destruct (run questions fuel evs s1) as [[s2 out2]| |] eqn:Hrest;
      simpl; [|done..].
    intros [= <- <-]. eapply IH; [|done].
    by eapply handle_keeps_server.
Qed.

(** X1.  In every state the server reaches, each registry key is a
    well-formed code in upper case, the game stored under it carries
    that key as its [code], and the [gameCode] of every socket is such a
    code too. *)
Theorem registry_keys_normalized
    (questions : Bank) (fuel : nat) (evs : list Event) (s : Server)
    (out : list Effect) :
  run questions fuel evs boot = Done (s, out) →
  (∀ c g, games s !! c = Some g →
     code g = c ∧ isValidCode c = true ∧ Str.toUpperCase c = c)
  ∧ (∀ socketId c, gameCode s !! socketId = Some c →
       isValidCode c = true ∧ Str.toUpperCase c = c).
Proof.
  intros Hrun.
  destruct (run_keeps_server questions fuel evs boot s out serverKept_boot Hrun)
    as [Hg Hc].
  split; [|done]. intros c g Hgame. by destruct (Hg c g Hgame) as [? _].
Qed.

Lemma registry_keys_normalized_witness :
  let s := Demo.after Demo.firstRound in
  run Demo.bank 2 Demo.firstRound boot = Done (s, Demo.emitted Demo.firstRound)
  ∧ code (Demo.gameAt "ABCD1234" s) = "ABCD1234"
  ∧ gameCode s !! "lurker" = Some "ABCD1234".
Proof.
  intros s.
  assert (Hrun : run Demo.bank 2 Demo.firstRound boot
                 = Done (s, Demo.emitted Demo.firstRound))
    by (vm_compute; reflexivity).
  split; [exact Hrun|].
  destruct (registry_keys_normalized _ _ _ _ _ Hrun) as [Hg _].
  split; [|vm_compute; reflexivity].
  apply (Hg "ABCD1234"). vm_compute; reflexivity.
Defined.

(** X2.  In every state the server reaches, the roster of a game has one
    entry per socket id; each entry is filed under its own id, has a
    name of 1 to 20 characters, and is flagged as host exactly when its
    id is the game's host id, so at most one player is flagged. *)
Theorem roster_well_formed
    (questions : Bank) (fuel : nat) (evs : list Event) (s : Server)
    (out : list Effect) (c : string) (g : Game) :
  run questions fuel evs boot = Done (s, out) →
  games s !! c = Some g →
  NoDup (JsMap.keys (players g))
  ∧ (∀ k p, JsMap.get k (players g) = Some p →
       player_id p = k
       ∧ isHost p = bool_decide (k = hostId g)
       ∧ name p ≠ ""
       ∧ (String.length (name p) ≤ 20)%nat)
  ∧ (∀ p p', p ∈ getPlayerList g → p' ∈ getPlayerList g →
       isHost p = true → isHost p' = true → p = p').
Proof.
  intros Hrun Hgame.
  destruct (run_keeps_server questions fuel evs boot s out serverKept_boot Hrun)
    as [Hg _].
  destruct (Hg c g Hgame) as (_ & [Hnd Hr] & _).
  split; [done|]. split.
  - intros k p Hget%get_Some_elem_of. by apply Hr.
  - intros p p' Hp Hp' Hhost Hhost'.
    unfold getPlayerList, JsMap.values in Hp, Hp'.
    apply list_elem_of_fmap in Hp as ([k q] & -> & Hin).
    apply list_elem_of_fmap in Hp' as ([k' q'] & -> & Hin').
    simpl in *.
    destruct (Hr k q Hin) as (_ & Hflag & _).
    destruct (Hr k' q' Hin') as (_ & Hflag' & _).
    rewrite Hhost in Hflag. rewrite Hhost' in Hflag'.
    symmetry in Hflag, Hflag'.
    apply bool_decide_eq_true in Hflag, Hflag'. subst k k'.
    apply (elem_of_get _ _ _ Hnd) in Hin, Hin'. congruence.
Qed.

Lemma roster_well_formed_witness :
  let s := Demo.after Demo.matchPoint in
  NoDup (JsMap.keys (players (Demo.gameAt "ABCD1234" s)))
  ∧ ∀ p p', p ∈ getPlayerList (Demo.gameAt "ABCD1234" s) →
      p' ∈ getPlayerList (Demo.gameAt "ABCD1234" s) →
      isHost p = true → isHost p' = true → p = p'.
Proof.
  intros s.
  destruct (roster_well_formed Demo.bank 2 Demo.matchPoint s
              (Demo.emitted Demo.matchPoint) "ABCD1234"
              (Demo.gameAt "ABCD1234" s))
    as (Hnd & _ & Hhost); [vm_compute; reflexivity..|].
  split; [exact Hnd|exact Hhost].
Defined.

(** X3.  In every state the server reaches, a started game has one of
    the grade levels 6th, 7th, 8th, and a game has a current question
    exactly when its question counter is not 0. *)
Theorem started_game_has_grade
    (questions : Bank) (fuel : nat) (evs : list Event) (s : Server)
    (out : list Effect) (c : string) (g : Game) :
  run questions fuel evs boot = Done (s, out) →
  games s !! c = Some g →
  (started g = true →
     ∃ gl, gradeLevel g = Some gl ∧ gl ∈ ["6th"; "7th"; "8th"])
  ∧ (currentQuestion g = None ↔ questionIndex g = 0%nat).
Proof.
  intros Hrun Hgame.
  destruct (run_keeps_server questions fuel evs boot s out serverKept_boot Hrun)
    as [Hg _].
  destruct (Hg c g Hgame) as (_ & _ & Hgrade & _ & Hq & _). done.
Qed.

Lemma started_game_has_grade_witness :
  let s := Demo.after Demo.firstRound in
  let g := Demo.gameAt "ABCD1234" s in
  started g = true
  ∧ (∃ gl, gradeLevel g = Some gl ∧ gl ∈ ["6th"; "7th"; "8th"])
  ∧ (currentQuestion g = None ↔ questionIndex g = 0%nat).
Proof.
  intros s g. split; [vm_compute; reflexivity|].
  destruct (started_game_has_grade Demo.bank 2 Demo.firstRound s
              (Demo.emitted Demo.firstRound) "ABCD1234" g)
    as [Hgrade Hq]; [vm_compute; reflexivity..|].
  split; [apply Hgrade; vm_compute; reflexivity|exact Hq].
Defined.

(** X4.  In every state the server reaches, the clock of a game is
    between 0 and 15, and while the game's interval is running the game
    is started, has a current question whose latch is clear, has no
    winner, and has at least one second left. *)
Theorem interval_runs_over_open_question
    (questions : Bank) (fuel : nat) (evs : list Event) (s : Server)
    (out : list Effect) (c : string) (g : Game) :
  run questions fuel evs boot = Done (s, out) →
  games s !! c = Some g →
  0 ≤ timeRemaining g ≤ 15
  ∧ (timerInterval g = TimerLive →
       started g = true
       ∧ is_Some (currentQuestion g)
       ∧ questionAnswered g = false
       ∧ winner g = None
       ∧ 1 ≤ timeRemaining g).
Proof.
  intros Hrun Hgame.
  destruct (run_keeps_server questions fuel evs boot s out serverKept_boot Hrun)
    as [Hg _].
  destruct (Hg c g Hgame) as (_ & _ & _ & Ht & _ & Hlive). done.
Qed.

Lemma interval_runs_over_open_question_witness :
  let evs := (Demo.firstRound ++ replicate 5 (IntervalTick "ABCD1234"))%list in
  let g := Demo.gameAt "ABCD1234" (Demo.after evs) in
  timerInterval g = TimerLive
  ∧ timeRemaining g = 10
  ∧ questionAnswered g = false
  ∧ is_Some (currentQuestion g).
Proof.
  intros evs g.
  destruct (interval_runs_over_open_question Demo.bank 2 evs (Demo.after evs)
              (Demo.emitted evs) "ABCD1234" g)
    as [_ Hlive]; [vm_compute; reflexivity..|].
  assert (Hon : timerInterval g = TimerLive) by (vm_compute; reflexivity).
  destruct (Hlive Hon) as (_ & Hq & Hl & _).
  split; [exact Hon|]. split; [vm_compute; reflexivity|].
  split; [exact Hl|exact Hq].
Defined.

(** X5.  In every state the server reaches, no score is above 10, and a
    player has 10 only in a game whose latch is set and whose winner is
    recorded. *)
Theorem scores_stay_within_ten
    (questions : Bank) (fuel : nat) (evs : list Event) (s : Server)
    (out : list Effect) (c : string) (g : Game) (p : Player) :
  run questions fuel evs boot = Done (s, out) →
  games s !! c = Some g →
  p ∈ getPlayerList g →
  (score p ≤ 10)%nat
  ∧ (score p = 10%nat → questionAnswered g = true ∧ is_Some (winner g)).
Proof.
  intros Hrun Hgame Hp.
  pose proof (run_keeps_scores questions fuel evs boot s out kept_boot Hrun)
    as Hkept.
  destruct (Hkept c g Hgame p Hp) as [Hle Hten].
  split; [done|]. intros H10. apply Hten. lia.
Qed.

Lemma scores_stay_within_ten_witness :
  let evs := (Demo.matchPoint ++ [SubmitAnswer "host" 0])%list in
  let g := Demo.gameAt "ABCD1234" (Demo.after evs) in
  let ann := {| player_id := "host"; name := "Ann"; score := 10;
                isHost := true |} in
  ann ∈ getPlayerList g
  ∧ questionAnswered g = true ∧ is_Some (winner g).
Proof.
  intros evs g ann.
  assert (Hin : ann ∈ getPlayerList g) by (vm_compute; left).
  split; [exact Hin|].
  destruct (scores_stay_within_ten Demo.bank 2 evs (Demo.after evs)
              (Demo.emitted evs) "ABCD1234" g ann)
    as [_ Hten]; [vm_compute; reflexivity..|exact Hin|].
  apply Hten. reflexivity.
Defined.

(** ** Exceptions and error messages *)

(** ** Arguments of any type *)

Lemma receive_ofEvent (questions : Bank) (fuel : nat) (ev : Event) (s : Server) :
  receive questions fuel (ofEvent ev) s = handle questions fuel ev s.
Proof.
  destruct ev as [sid c|sid c|sid nm|sid gl|sid idx|sid msg now|sid|sid|sid|r|r rs];
    cbn [ofEvent receive handle]; try done.
  - unfold recv_createGame, on_createGame. simpl.
    by destruct (isValidCode c).
  - unfold recv_setName, on_setName. by destruct (socketGame sid s).
  - unfold recv_chatMessage, on_chatMessage.
    destruct (socketGame sid s) as [[c g]|]; [|done].
    by destruct (JsMap.get sid (players g)).
Qed.







(** X7.  A listener that answers with an error message does nothing
    else: the message is its only effect, it goes to the socket the
    event came from and never to a room, and the server state is
    unchanged. *)
Theorem errors_only_to_sender
    (questions : Bank) (fuel : nat) (ev : Event) (s s' : Server)
    (out : list Effect) (e : Effect) :
  handle questions fuel ev s = Done (s', out) →
  e ∈ out →
  isError e = true →
  s' = s
  ∧ ∃ socketId message,
      sender ev = Some socketId
      ∧ out = [SocketEmit socketId (error message)].
Proof.
  destruct ev as [sid c|sid c|sid nm|sid gl|sid idx|sid msg now|sid|sid|sid|r|r rs];
    cbn [handle].
  5:{ intros Hrun Hin Herr. exfalso.
      destruct (submitAnswer_inv _ _ _ _ _ Hrun)
        as [[-> ->]|(c1 & game & player & q & Hgame & Hst & Hl & Hp & Hq & ->)];
        [by apply elem_of_nil in Hin|].
      rewrite (submitAnswer_correct s sid c1 game player q) in Hrun by done.
      destruct (checkWinner _); injection Hrun as <- <-;
        repeat (apply elem_of_cons in Hin as [->|Hin]; [done|]);
        by apply elem_of_nil in Hin. }
  all: unfold on_createGame, on_joinGame, on_setName, on_startGame,
         on_chatMessage, on_playAgain, handleDisconnect, intervalTick,
         countdown, sendNextQuestion, ignored, mbind, Outcome_bind;
       intros Hrun Hin Herr;
       repeat case_match; simplify_eq; simpl in *; simplify_eq;
       repeat (apply elem_of_cons in Hin as [->|Hin];
               [first [discriminate Herr | by eauto]|]);
       by apply elem_of_nil in Hin.
Qed.

Lemma errors_only_to_sender_witness :
  let s := Demo.after Demo.firstRound in
  handle Demo.bank 2 (JoinGame "late" "abcd1234") s =
    Done (s, [SocketEmit "late" (error "Game has already started")]).
Proof.
  intros s.
  assert (Hrun : handle Demo.bank 2 (JoinGame "late" "abcd1234") s =
                 Done (s, [SocketEmit "late" (error "Game has already started")]))
    by (vm_compute; reflexivity).
  destruct (errors_only_to_sender Demo.bank 2 (JoinGame "late" "abcd1234")
              s s _ (SocketEmit "late" (error "Game has already started")) Hrun)
    as [_ (sid & msg & _ & _)]; [left|reflexivity|exact Hrun].
Defined.

(** ** Joining and leaving *)

Lemma same_ignoring_case_upper (typed : string) :
  Str.same_ignoring_case (Str.toUpperCase typed) typed = true.
Proof.
  induction typed as [|b typed IH]; simpl; [done|].
  rewrite IH, andb_true_r. clear.
  destruct b as [[] [] [] [] [] [] [] []]; by vm_compute.
Qed.

(** X8.  In a state the server reaches, [joinGame] finds a registered
    room under its code written in any letter case.  While the game is
    in the lobby the socket is attached to the room and told
    [gameJoined], and the registry, the roster included, is untouched;
    once the game is started the socket is told so and nothing changes.
    A code written in ASCII characters finds no other room: when no
    registered code is the same up to letter case, and so whenever the
    code is not well formed, the answer is [Game not found] and nothing
    changes. *)
Theorem joinGame_any_case
    (questions : Bank) (fuel : nat) (evs : list Event) (s : Server)
    (out : list Effect) (socketId : string) :
  run questions fuel evs boot = Done (s, out) →
  (∀ c g typed,
     games s !! c = Some g →
     Str.same_ignoring_case c typed = true →
     (started g = false →
        ∃ s', on_joinGame socketId typed s =
                Done (s', [SocketJoin socketId c;
                           SocketEmit socketId (gameJoined c false)])
              ∧ games s' = games s
              ∧ socketGame socketId s' = Some (c, g))
     ∧ (started g = true →
          on_joinGame socketId typed s =
            Done (s, [SocketEmit socketId (error "Game has already started")])))
  ∧ (∀ typed,
       Str.isAscii typed = true →
       (∀ c, is_Some (games s !! c) →
             Str.same_ignoring_case c typed = false) →
       on_joinGame socketId typed s =
         Done (s, [SocketEmit socketId (error "Game not found")]))
  ∧ (∀ typed,
       Str.isAscii typed = true →
       isValidCode typed = false →
       on_joinGame socketId typed s =
         Done (s, [SocketEmit socketId (error "Game not found")])).
Proof.
  intros Hrun.
  destruct (run_keeps_server questions fuel evs boot s out serverKept_boot Hrun)
    as [Hg _].
  assert (Hnone : ∀ typed,
            (∀ c, is_Some (games s !! c) →
                  Str.same_ignoring_case c typed = false) →
            on_joinGame socketId typed s =
              Done (s, [SocketEmit socketId (error "Game not found")])).
  { intros typed Hno. unfold on_joinGame.
    destruct (games s !! Str.toUpperCase typed) as [g|] eqn:Hgame; [|done].
    specialize (Hno (Str.toUpperCase typed)).
    rewrite Hgame, same_ignoring_case_upper in Hno.
    discriminate Hno. by eexists. }
  split; [|split].
  - intros c g typed Hgame Hsame.
    destruct (Hg c g Hgame) as ((_ & _ & Hupper) & _).
    destruct (same_ignoring_case_valid _ _ Hsame) as [_ Htyped].
    rewrite Hupper in Htyped.
    unfold on_joinGame. rewrite Htyped, Hgame. split; intros ->; [|done].
    eexists. split; [reflexivity|]. split; [done|].
    apply socketGame_Some. simpl. by rewrite lookup_insert_eq.
  - intros typed _. apply Hnone.
  - intros typed _ Hbad. apply Hnone. intros c [g Hgame].
    destruct (Hg c g Hgame) as ((_ & Hvalid & _) & _).
    destruct (Str.same_ignoring_case c typed) eqn:Hsame; [|done].
    destruct (same_ignoring_case_valid _ _ Hsame) as [Hv _]. congruence.
Qed.

Lemma joinGame_any_case_witness :
  let s := Demo.after [CreateGame "host" "abcd1234"] in
  (∃ s', on_joinGame "guest" "aBcD1234" s =
           Done (s', [SocketJoin "guest" "ABCD1234";
                      SocketEmit "guest" (gameJoined "ABCD1234" false)])
         ∧ games s' = games s)
  ∧ on_joinGame "guest" "abcd1235" s =
      Done (s, [SocketEmit "guest" (error "Game not found")])
  ∧ on_joinGame "guest" "abcd12" s =
      Done (s, [SocketEmit "guest" (error "Game not found")]).
Proof.
  intros s.
  destruct (joinGame_any_case Demo.bank 2 [CreateGame "host" "abcd1234"] s
              (Demo.emitted [CreateGame "host" "abcd1234"]) "guest")
    as (Hjoin & Hother & Hbad); [vm_compute; reflexivity|].
  split; [|split].
  - destruct (Hjoin "ABCD1234" (Demo.gameAt "ABCD1234" s) "aBcD1234")
      as [Hlobby _]; [vm_compute; reflexivity..|].
    destruct Hlobby as (s' & H1 & H2 & _); [vm_compute; reflexivity|].
    exists s'. split; [exact H1|exact H2].
  - apply Hother; [reflexivity|].
    intros c [g Hgame].
    destruct (decide (c = "ABCD1234")) as [->|Hne]; [reflexivity|].
    exfalso.
    assert (Hs : games s = <["ABCD1234" := newGame "ABCD1234" "host"]> ∅)
      by (vm_compute; reflexivity).
    rewrite Hs, lookup_insert_ne, lookup_empty in Hgame by done.
    discriminate Hgame.
  - apply Hbad; reflexivity.
Defined.

Lemma trimStart_spaces (s : string) :
  Str.all_chars Str.isSpace s = true → Str.trimStart s = "".
Proof.
  induction s as [|a s IH]; simpl; [done|].
  intros [-> Hs]%andb_true_iff. auto.
Qed.

Lemma trimStart_app_spaces (pre s : string) :
  Str.all_chars Str.isSpace pre = true →
  Str.trimStart (pre ++ s) = Str.trimStart s.
Proof.
  induction pre as [|a pre IH]; rewrite ?append_cons_l, ?append_nil_l;
    simpl; [done|].
  intros [-> Hs]%andb_true_iff. auto.
Qed.

Lemma trimEnd_spaces (s : string) :
  Str.all_chars Str.isSpace s = true → Str.trimEnd s = "".
Proof.
  induction s as [|a s IH]; simpl; [done|].
  intros [-> Hs]%andb_true_iff. by rewrite IH.
Qed.

Lemma trimEnd_app_spaces (s post : string) :
  Str.all_chars Str.isSpace post = true →
  Str.trimEnd (s ++ post) = Str.trimEnd s.
Proof.
  intros Hpost. induction s as [|a s IH];
    rewrite ?append_cons_l, ?append_nil_l; simpl.
  - by apply trimEnd_spaces.
  - by rewrite IH.
Qed.

Lemma trimEnd_ends_nonspace (s : string) (z : ascii) :
  Str.isSpace z = false →
  Str.trimEnd (s ++ String z "") = (s ++ String z "")%string.
Proof.
  intros Hz. induction s as [|a s IH];
    rewrite ?append_cons_l, ?append_nil_l; simpl.
  - by rewrite Hz.
  - rewrite IH. by destruct s.
Qed.

(** [trimStart] takes a run of white space off the front and stops at
    the first character that is none. *)
Lemma trimStart_split (s : string) :
  ∃ pre, s = (pre ++ Str.trimStart s)%string
         ∧ Str.all_chars Str.isSpace pre = true
         ∧ ∀ a rest, Str.trimStart s = String a rest → Str.isSpace a = false.
Proof.
  induction s as [|c s (pre & Hs & Hpre & Hfirst)]; simpl.
  - exists "". by repeat split.
  - destruct (Str.isSpace c) eqn:Hc.
    + exists (String c pre). rewrite append_cons_l, <- Hs. simpl.
      rewrite Hc, Hpre. by repeat split.
    + exists "". rewrite append_nil_l. repeat split.
      intros a rest [= <- _]. done.
Qed.

(** [trimEnd] takes a run of white space off the end and stops at the
    last character that is none; the front stays. *)
Lemma trimEnd_split (s : string) :
  ∃ post, s = (Str.trimEnd s ++ post)%string
          ∧ Str.all_chars Str.isSpace post = true
          ∧ (∀ init z, Str.trimEnd s = (init ++ String z "")%string →
                       Str.isSpace z = false)
          ∧ (∀ a rest, Str.trimEnd s = String a rest →
                       ∃ rest', s = String a rest').
Proof.
  induction s as [|c s (post & Hs & Hpost & Hlast & Hfront)]; simpl.
  - exists "". repeat split; [|done].
    intros [|? ?] z; rewrite ?append_cons_l, ?append_nil_l; done.
  - destruct (Str.trimEnd s) as [|b t] eqn:Ht.
    + rewrite append_nil_l in Hs. subst post.
      destruct (Str.isSpace c) eqn:Hc.
      * exists (String c s). rewrite append_nil_l. simpl.
        rewrite Hc, Hpost. repeat split; [|done].
        intros [|? ?] z; rewrite ?append_cons_l, ?append_nil_l; done.
      * exists s. rewrite append_cons_l, append_nil_l.
        repeat split; [done| |].
        -- intros [|? [|? ?]] z;
             rewrite ?append_cons_l, ?append_nil_l; intros [= ]; by subst.
        -- intros a rest [= <- _]. by eexists.
    + exists post. rewrite append_cons_l, <- Hs. repeat split; [done| |].
      * intros [|a init] z; rewrite ?append_cons_l, ?append_nil_l.
        -- intros [= ].
        -- intros [= _ Hinit]. by apply (Hlast init z).
      * intros a rest [= <- _]. by eexists.
Qed.

(** What [trim] computes: the argument without the white space around
    it. *)
Lemma trim_split (s : string) :
  (∃ pre post,
     s = (pre ++ Str.trim s ++ post)%string
     ∧ Str.all_chars Str.isSpace pre = true
     ∧ Str.all_chars Str.isSpace post = true)
  ∧ (∀ a rest, Str.trim s = String a rest → Str.isSpace a = false)
  ∧ (∀ init z, Str.trim s = (init ++ String z "")%string →
               Str.isSpace z = false).
Proof.
  unfold Str.trim.
  destruct (trimStart_split s) as (pre & Hs & Hpre & Hfirst).
  destruct (trimEnd_split (Str.trimStart s))
    as (post & Ht & Hpost & Hlast & Hfront).
  split; [|split].
  - exists pre, post. by rewrite <- Ht, <- Hs.
  - intros a rest Hcore. destruct (Hfront a rest Hcore) as [rest' Hrest].
    by apply (Hfirst a rest').
  - exact Hlast.
Qed.

Lemma substring_0_empty (n : nat) (s : string) :
  substring 0 (S n) s = "" → s = "".
Proof. by destruct s. Qed.

(** X9.  [setName] from a socket of a room, with a name written in ASCII
    characters.  The listener works on the name without the white space
    around it: the name is that core between two runs of white space,
    and the core, when it is not empty, neither starts nor ends with
    white space.  When the core is empty (the name is empty or all
    white space) the name is refused with an error and nothing changes.
    Otherwise the first 20 characters of the core become the player's
    name, in an entry with score 0 filed under the socket's id, and the
    roster is broadcast to the room. *)
Theorem setName_trims_and_truncates
    (socketId c typed : string) (game : Game) (s : Server) :
  socketGame socketId s = Some (c, game) →
  Str.isAscii typed = true →
  let core := Str.trim typed in
  (∃ pre post,
     typed = (pre ++ core ++ post)%string
     ∧ Str.all_chars Str.isSpace pre = true
     ∧ Str.all_chars Str.isSpace post = true)
  ∧ (∀ a rest, core = String a rest → Str.isSpace a = false)
  ∧ (∀ init z, core = (init ++ String z "")%string → Str.isSpace z = false)
  ∧ (core = "" →
     on_setName socketId typed s =
       Done (s, [SocketEmit socketId (error "Please enter a valid name")]))
  ∧ (core ≠ "" →
     ∃ game',
       on_setName socketId typed s =
         Done (putGame c game' s,
               [RoomEmit c (playerList (getPlayerList game'))])
       ∧ game' = addPlayer socketId (substring 0 20 core) game
       ∧ JsMap.get socketId (players game') =
           Some {| player_id := socketId;
                   name := substring 0 20 core;
                   score := 0;
                   isHost := bool_decide (socketId = hostId game) |}
       ∧ String.length (substring 0 20 core)
         = Nat.min 20 (String.length core)).
Proof.
  intros Hsg _ core.
  destruct (trim_split typed) as (Hsplit & Hfirst & Hlast).
  split; [exact Hsplit|]. split; [exact Hfirst|]. split; [exact Hlast|].
  split.
  - intros Hcore. unfold on_setName. rewrite Hsg. fold core.
    by rewrite Hcore.
  - intros Hcore. unfold on_setName. rewrite Hsg. fold core.
    rewrite decide_False by (by intros ?%substring_0_empty).
    eexists. split; [reflexivity|]. split; [reflexivity|]. split.
    + unfold addPlayer. simpl. apply get_set_eq.
    + apply length_substring_0.
Qed.

Lemma setName_trims_and_truncates_witness :
  let s := Demo.after Demo.lobby in
  on_setName "lurker" "   " s =
    Done (s, [SocketEmit "lurker" (error "Please enter a valid name")])
  ∧ (∃ game',
       on_setName "lurker" "  Bartholomew Fitzgerald the Third  " s =
         Done (putGame "ABCD1234" game' s,
               [RoomEmit "ABCD1234" (playerList (getPlayerList game'))])
       ∧ JsMap.get "lurker" (players game') =
           Some {| player_id := "lurker"; name := "Bartholomew Fitzgera";
                   score := 0; isHost := false |})
  ∧ (∃ game',
       on_setName "lurker" " Z" s =
         Done (putGame "ABCD1234" game' s,
               [RoomEmit "ABCD1234" (playerList (getPlayerList game'))])
       ∧ JsMap.get "lurker" (players game') =
           Some {| player_id := "lurker"; name := "Z";
                   score := 0; isHost := false |}).
Proof.
  intros s.
  assert (Hsg : socketGame "lurker" s
                = Some ("ABCD1234", Demo.gameAt "ABCD1234" s))
    by (vm_compute; reflexivity).
  split; [|split].
  - destruct (setName_trims_and_truncates "lurker" "ABCD1234" "   "
                (Demo.gameAt "ABCD1234" s) s Hsg eq_refl)
      as (_ & _ & _ & Hblank & _).
    apply Hblank. reflexivity.
  - destruct (setName_trims_and_truncates "lurker" "ABCD1234"
                "  Bartholomew Fitzgerald the Third  "
                (Demo.gameAt "ABCD1234" s) s Hsg eq_refl)
      as (_ & _ & _ & _ & Hname).
    destruct Hname as (game' & H1 & _ & H2 & _); [discriminate|].
    exists game'. split; [exact H1|exact H2].
  - destruct (setName_trims_and_truncates "lurker" "ABCD1234" " Z"
                (Demo.gameAt "ABCD1234" s) s Hsg eq_refl)
      as (_ & _ & _ & _ & Hname).
    destruct Hname as (game' & H1 & _ & H2 & _); [discriminate|].
    exists game'. split; [exact H1|exact H2].
Defined.

(** X10.  [chatMessage] with any argument never changes the server.  It
    throws exactly when the argument is not a string and the sender has
    a player entry in the room it is attached to: [message.trim()] is
    called once the game and the player were found.  Otherwise it
    returns, having emitted nothing or one [chatMessage] to the sender's
    room under the sender's registered name, the latter only for a
    string from a registered player.  For a message written in ASCII
    characters the text relayed is the trimmed message cut to 200
    characters, and the message is dropped exactly when nothing is left
    of it after trimming. *)
Theorem chatMessage_only_relays
    (socketId : string) (message : Value) (now : Z) (s : Server) :
  (recv_chatMessage socketId message now s = Throw TypeError_not_a_string
   ↔ isString message = false
     ∧ ∃ c g, socketGame socketId s = Some (c, g)
              ∧ is_Some (JsMap.get socketId (players g)))
  ∧ (recv_chatMessage socketId message now s = Throw TypeError_not_a_string
     ∨ ∃ out,
         recv_chatMessage socketId message now s = Done (s, out)
         ∧ (out = []
            ∨ ∃ c g p m text,
                socketGame socketId s = Some (c, g)
                ∧ JsMap.get socketId (players g) = Some p
                ∧ message = VString m
                ∧ out = [RoomEmit c (chatMessage socketId (name p) text now)]))
  ∧ (∀ m c g p,
       message = VString m →
       Str.isAscii m = true →
       socketGame socketId s = Some (c, g) →
       JsMap.get socketId (players g) = Some p →
       let text := substring 0 200 (Str.trim m) in
       (String.length text ≤ 200)%nat
       ∧ (text = "" ↔ Str.trim m = "")
       ∧ (text = "" →
          recv_chatMessage socketId message now s = Done (s, []))
       ∧ (text ≠ "" →
          recv_chatMessage socketId message now s =
            Done (s, [RoomEmit c (chatMessage socketId (name p) text now)]))).
Proof.
  split; [|split].
  - unfold recv_chatMessage. split.
    + destruct (socketGame socketId s) as [[c g]|]; [|done].
      destruct (JsMap.get socketId (players g)) as [p|] eqn:Hp; [|done].
      destruct message as [m| |]; simpl.
      * unfold on_chatMessage, ignored. by repeat case_match.
      * intros _. split; [done|]. exists c, g. rewrite Hp. by eauto.
      * intros _. split; [done|]. exists c, g. rewrite Hp. by eauto.
    + intros [Hm (c & g & -> & [p ->])]. by destruct message.
  - unfold recv_chatMessage.
    destruct (socketGame socketId s) as [[c g]|] eqn:Hsg;
      [|right; exists []; by split; [|left]].
    destruct (JsMap.get socketId (players g)) as [p|] eqn:Hp;
      [|right; exists []; by split; [|left]].
    destruct message as [m| |]; [|by left..]. right. simpl.
    unfold on_chatMessage. rewrite Hsg, Hp.
    case_decide.
    + exists []. by split; [|left].
    + eexists. split; [reflexivity|]. right.
      by exists c, g, p, m, (substring 0 200 (Str.trim m)).
  - intros m c g p -> _ Hsg Hp text.
    assert (Hlen : String.length text = Nat.min 200 (String.length (Str.trim m)))
      by apply length_substring_0.
    split; [lia|]. split; [|split].
    + split.
      * subst text. intros Hempty. rewrite Hempty in Hlen. simpl in Hlen.
        destruct (Str.trim m); [done|simpl in Hlen; lia].
      * subst text. by intros ->.
    + intros Hempty. unfold recv_chatMessage. rewrite Hsg, Hp. simpl.
      unfold on_chatMessage. rewrite Hsg, Hp. fold text.
      by rewrite decide_True.
    + intros Htext. unfold recv_chatMessage. rewrite Hsg, Hp. simpl.
      unfold on_chatMessage. rewrite Hsg, Hp. fold text.
      by rewrite decide_False.
Qed.

Lemma chatMessage_only_relays_witness :
  let s := Demo.after Demo.lobby in
  recv_chatMessage "guest" (VNumber 42) 0 s = Throw TypeError_not_a_string
  ∧ recv_chatMessage "guest" (VString "  hello ") 7 s =
      Done (s, [RoomEmit "ABCD1234" (chatMessage "guest" "Bob" "hello" 7)])
  ∧ recv_chatMessage "guest" (VString "   ") 7 s = Done (s, []).
Proof.
  intros s.
  assert (Hsg : socketGame "guest" s
                = Some ("ABCD1234", Demo.gameAt "ABCD1234" s))
    by (vm_compute; reflexivity).
  assert (Hp : JsMap.get "guest" (players (Demo.gameAt "ABCD1234" s))
               = Some {| player_id := "guest"; name := "Bob"; score := 0;
                         isHost := false |})
    by (vm_compute; reflexivity).
  split; [|split].
  - apply (chatMessage_only_relays "guest" (VNumber 42) 0 s).
    split; [reflexivity|]. eexists _, _. split; [exact Hsg|].
    rewrite Hp. by eexists.
  - destruct (chatMessage_only_relays "guest" (VString "  hello ") 7 s)
      as (_ & _ & Htext).
    destruct (Htext "  hello " "ABCD1234" (Demo.gameAt "ABCD1234" s) _
                eq_refl eq_refl Hsg Hp) as (_ & _ & _ & Hsend).
    apply Hsend. discriminate.
  - destruct (chatMessage_only_relays "guest" (VString "   ") 7 s)
      as (_ & _ & Htext).
    destruct (Htext "   " "ABCD1234" (Demo.gameAt "ABCD1234" s) _
                eq_refl eq_refl Hsg Hp) as (_ & _ & Hdrop & _).
    apply Hdrop. reflexivity.
Defined.

(** X11.  A room is closed when, and only when, the socket that leaves
    or disconnects is attached to it and is its host: [handleDisconnect]
    looks at the room of the socket's [gameCode] and at no other.  A
    room whose host has since created or joined another room stays
    registered as it was when that socket leaves, and nobody there is
    told [hostLeft].  When the room is closed its members are told
    [hostLeft] and the game is removed from the registry.  From then on
    the code finds no room, the room's callbacks do nothing, and
    whatever the sockets still attached to the code send, with any
    argument, is dropped. *)
Theorem host_departure_closes_room
    (questions : Bank) (fuel : nat) (socketId : string) (s : Server) :
  ∃ s' out,
    handleDisconnect socketId s = Done (s', out)
    ∧ (∀ c g,
         games s !! c = Some g →
         (games s' !! c = None
          ↔ gameCode s !! socketId = Some c ∧ socketId = hostId g)
         ∧ (RoomEmit c hostLeft ∈ out
            ↔ gameCode s !! socketId = Some c ∧ socketId = hostId g)
         ∧ (gameCode s !! socketId ≠ Some c → games s' !! c = Some g))
    ∧ (∀ c g,
         socketGame socketId s = Some (c, g) →
         socketId = hostId g →
         out = [SocketLeave socketId c; RoomEmit c hostLeft]
         ∧ games s' = delete c (games s)
         ∧ gameCode s' = delete socketId (gameCode s)
         ∧ (∀ other typed,
              Str.isAscii typed = true →
              Str.toUpperCase typed = c →
              on_joinGame other typed s' =
                Done (s', [SocketEmit other (error "Game not found")]))
         ∧ (∀ rs, sendNextQuestion questions fuel c rs s' = Done (s', []))
         ∧ intervalTick c s' = Done (s', [])
         ∧ (∀ member,
              gameCode s' !! member = Some c →
              ∀ p,
                packetSender p = Some member →
                (∀ v, p ≠ OnCreateGame member v) →
                (∀ v, p ≠ OnJoinGame member v) →
                receive questions fuel p s' = Done (s', []))).
Proof.
  unfold handleDisconnect.
  destruct (socketGame socketId s) as [[c0 g0]|] eqn:Hsg.
  - apply socketGame_Some in Hsg as [Hcode Hgame].
    change (hostId (removePlayer socketId g0)) with (hostId g0).
    destruct (decide (socketId = hostId g0)) as [Hhost|Hmember].
    + eexists _, _. split; [reflexivity|]. split.
      * intros c g Hg. simpl. rewrite Hcode.
        destruct (decide (c = c0)) as [->|Hne].
        -- rewrite lookup_delete_eq. simplify_eq.
           split; [by split|]. split; [|by intros []].
           split; [by intros _|]. intros _. do 2 constructor.
        -- rewrite lookup_delete_ne by done. rewrite Hg.
           split; [split; [done|by intros [[= ->] _]]|].
           split; [|done]. split; [|by intros [[= ->] _]].
           intros [Hin|Hin]%elem_of_cons; [done|].
           apply list_elem_of_singleton in Hin. by simplify_eq.
      * intros c g [= -> ->] _.
        remember (set_gameCode (delete socketId (gameCode s))
                    (set_games (delete c (games s)) s)) as s' eqn:Hs'.
        assert (Hgone : games s' !! c = None)
          by (subst s'; apply lookup_delete_eq).
        split; [done|]. split; [by subst s'|]. split; [by subst s'|].
        split; [|split; [|split]].
        -- intros other typed _ Htyped. unfold on_joinGame. cbv zeta.
           by rewrite Htyped, Hgone.
        -- intros rs. unfold sendNextQuestion. by rewrite Hgone.
        -- unfold intervalTick. by rewrite Hgone.
        -- intros member Hmem p Hsender Hcreate Hjoin.
           assert (Hnone : socketGame member s' = None).
           { unfold socketGame. rewrite Hmem. simpl. by rewrite Hgone. }
           destruct p as [sid v|sid v|sid v|sid v|sid v|sid v now|sid|sid|sid|r|r rs];
             simpl in Hsender; simplify_eq; cbn [receive].
           ++ by destruct (Hcreate v).
           ++ by destruct (Hjoin v).
           ++ unfold recv_setName. by rewrite Hnone.
           ++ unfold recv_startGame, on_startGame. rewrite Hnone.
              by destruct v.
           ++ unfold recv_submitAnswer, on_submitAnswer. rewrite Hnone.
              by destruct v.
           ++ unfold recv_chatMessage. by rewrite Hnone.
           ++ unfold on_playAgain. by rewrite Hnone.
           ++ unfold handleDisconnect. by rewrite Hnone.
           ++ unfold handleDisconnect. by rewrite Hnone.
    + eexists _, _. split; [reflexivity|]. split.
      * intros c g Hg. simpl. rewrite Hcode.
        destruct (decide (c = c0)) as [->|Hne].
        -- rewrite lookup_insert_eq. simplify_eq.
           split; [split; [done|by intros [_ ?]]|].
           split; [|by intros []]. split; [|by intros [_ ?]].
           intros [Hin|Hin]%elem_of_cons; [done|].
           apply list_elem_of_singleton in Hin. done.
        -- rewrite lookup_insert_ne by done. rewrite Hg.
           split; [split; [done|by intros [[= ->] _]]|].
           split; [|done]. split; [|by intros [[= ->] _]].
           intros [Hin|Hin]%elem_of_cons; [done|].
           apply list_elem_of_singleton in Hin. done.
      * intros c g [= -> ->] Hhost. done.
  - exists s, []. split; [done|]. split; [|done].
    intros c g Hg. rewrite Hg.
    assert (Hnot : ¬ (gameCode s !! socketId = Some c ∧ socketId = hostId g)).
    { intros [Hcode _]. unfold socketGame in Hsg. rewrite Hcode in Hsg.
      simpl in Hsg. by rewrite Hg in Hsg. }
    split; [by split|]. split; [|done]. split; [|done].
    by intros ?%elem_of_nil.
Qed.

Lemma host_departure_closes_room_witness :
  let s := Demo.after Demo.firstRound in
  let t := Demo.after [CreateGame "host" "abcd1234";
                       CreateGame "host" "wxyz5678"] in
  (∃ s',
     handleDisconnect "host" s =
       Done (s', [SocketLeave "host" "ABCD1234"; RoomEmit "ABCD1234" hostLeft])
     ∧ on_joinGame "late" "abcd1234" s' =
         Done (s', [SocketEmit "late" (error "Game not found")])
     ∧ receive Demo.bank 2 (OnSetName "guest" (VOther "null")) s'
       = Done (s', []))
  ∧ (∃ t' out,
       handleDisconnect "host" t = Done (t', out)
       ∧ games t' !! "ABCD1234" = Some (newGame "ABCD1234" "host")
       ∧ games t' !! "WXYZ5678" = None
       ∧ RoomEmit "ABCD1234" hostLeft ∉ out).
Proof.
  intros s t. split.
  - destruct (host_departure_closes_room Demo.bank 2 "host" s)
      as (s' & out & Hleave & _ & Hclosed).
    destruct (Hclosed "ABCD1234" (Demo.gameAt "ABCD1234" s))
      as (-> & _ & Hgc & Hjoin & _ & _ & Hstale);
      [vm_compute; reflexivity..|].
    exists s'. split; [exact Hleave|]. split; [by apply Hjoin|].
    apply (Hstale "guest"); [|reflexivity|discriminate..].
    rewrite Hgc. vm_compute; reflexivity.
  - destruct (host_departure_closes_room Demo.bank 2 "host" t)
      as (t' & out & Hleave & Hrooms & _).
    exists t', out. split; [exact Hleave|].
    destruct (Hrooms "ABCD1234" (newGame "ABCD1234" "host"))
      as (_ & Htold & Hstays); [vm_compute; reflexivity|].
    destruct (Hrooms "WXYZ5678" (newGame "WXYZ5678" "host"))
      as (Hgone & _ & _); [vm_compute; reflexivity|].
    split; [|split].
    + apply Hstays. vm_compute. discriminate.
    + apply Hgone. split; vm_compute; reflexivity.
    + intros [Hcode _]%Htold. vm_compute in Hcode. discriminate Hcode.
Defined.

(** X12.  When another socket than the host leaves or disconnects, in a
    state the server reaches, only its own entry goes: the room stays
    registered, the other entries keep their place and their scores, the
    remaining roster is broadcast to the room, and the socket is no
    longer attached to any room. *)
Theorem member_departure_keeps_room
    (questions : Bank) (fuel : nat) (evs : list Event) (s : Server)
    (out : list Effect) (socketId c : string) (g : Game) :
  run questions fuel evs boot = Done (s, out) →
  socketGame socketId s = Some (c, g) →
  socketId ≠ hostId g →
  ∃ s' g',
    handleDisconnect socketId s =
      Done (s', [SocketLeave socketId c;
                 RoomEmit c (playerList (getPlayerList g'))])
    ∧ games s' = <[c := g']> (games s)
    ∧ g' = removePlayer socketId g
    ∧ JsMap.get socketId (players g') = None
    ∧ (∀ other, other ≠ socketId →
         JsMap.get other (players g') = JsMap.get other (players g))
    ∧ JsMap.keys (players g') `sublist_of` JsMap.keys (players g)
    ∧ gameCode s' !! socketId = None
    ∧ socketGame socketId s' = None.
Proof.
  intros Hrun Hsg Hmember.
  destruct (run_keeps_server questions fuel evs boot s out serverKept_boot Hrun)
    as [Hg _].
  pose proof Hsg as [_ Hgame]%socketGame_Some.
  destruct (Hg c g Hgame) as (_ & [Hnd _] & _).
  unfold handleDisconnect. rewrite Hsg. simpl.
  rewrite decide_False by done.
  eexists _, _. split; [reflexivity|]. split; [done|]. split; [done|].
  simpl. split; [by apply get_delete_eq|].
  split; [intros other Hne; by apply get_delete_ne|].
  split; [apply keys_delete_sublist|].
  assert (delete socketId (gameCode s) !! socketId = None) as Hdetached
    by apply lookup_delete_eq.
  split; [done|]. unfold socketGame. simpl. by rewrite Hdetached.
Qed.

Lemma member_departure_keeps_room_witness :
  let s := Demo.after Demo.firstRound in
  ∃ s' g',
    handleDisconnect "guest" s =
      Done (s', [SocketLeave "guest" "ABCD1234";
                 RoomEmit "ABCD1234" (playerList (getPlayerList g'))])
    ∧ getPlayerList g' =
        [{| player_id := "host"; name := "Ann"; score := 0; isHost := true |}].
Proof.
  intros s.
  destruct (member_departure_keeps_room Demo.bank 2 Demo.firstRound s
              (Demo.emitted Demo.firstRound) "guest" "ABCD1234"
              (Demo.gameAt "ABCD1234" s))
    as (s' & g' & Hleave & _ & Hg' & _);
    [vm_compute; reflexivity..|vm_compute; discriminate|].
  exists s', g'. split; [exact Hleave|]. rewrite Hg'. vm_compute; reflexivity.
Defined.

(** ** The countdown *)

Lemma set_timeRemaining_twice (t t' : Z) (g : Game) :
  set_timeRemaining t' (set_timeRemaining t g) = set_timeRemaining t' g.
Proof. done. Qed.

Lemma timerUpdates_S (room : string) (t : Z) (n : nat) :
  timerUpdates room t (S n) =
    RoomEmit room (timerUpdate (t - 1)) :: timerUpdates room (t - 1) n.
Proof.
  unfold timerUpdates. simpl. f_equal; [do 2 f_equal; lia|].
  rewrite <- fmap_S_seq, <- list_fmap_compose.
  apply list_fmap_ext. intros _ i _. simpl. do 2 f_equal. lia.
Qed.

Lemma run_cons (questions : Bank) (fuel : nat) (ev : Event)
    (evs : list Event) (s s1 s2 : Server) (o1 o2 : list Effect) :
  handle questions fuel ev s = Done (s1, o1) →
  run questions fuel evs s1 = Done (s2, o2) →
  run questions fuel (ev :: evs) s = Done (s2, (o1 ++ o2)%list).
Proof. intros H1 H2. cbn [run]. rewrite H1. simpl. by rewrite H2. Qed.

Lemma run_app (questions : Bank) (fuel : nat) (evs1 evs2 : list Event) :
  ∀ (s s1 s2 : Server) (o1 o2 : list Effect),
    run questions fuel evs1 s = Done (s1, o1) →
    run questions fuel evs2 s1 = Done (s2, o2) →
    run questions fuel (evs1 ++ evs2) s = Done (s2, (o1 ++ o2)%list).
Proof.
  induction evs1 as [|ev evs1 IH]; intros s s1 s2 o1 o2 H1 H2.
  - injection H1 as <- <-. done.
  - cbn [run app] in *.
    destruct (handle questions fuel ev s) as [[sx ox]| |]; simpl in *;
      [|done..].
    destruct (run questions fuel evs1 sx) as [[sy oy]| |] eqn:Hy;
      simpl in *; [|done..].
    injection H1 as <- <-.
    rewrite (IH sx sy s2 oy o2 Hy H2). simpl. by rewrite app_assoc.
Qed.

(** One firing of a running interval over an open question. *)
Lemma intervalTick_step (room : string) (s : Server) (g : Game) (q : Question) :
  games s !! room = Some g →
  timerInterval g = TimerLive →
  questionAnswered g = false →
  currentQuestion g = Some q →
  intervalTick room s =
    if decide (timeRemaining g - 1 ≤ 0) then
      Done (putGame room
              (set_questionAnswered true
                 (set_timerInterval TimerCleared
                    (set_timeRemaining (timeRemaining g - 1) g))) s,
            [RoomEmit room (timerUpdate (timeRemaining g - 1));
             RoomEmit room (timeUp (correctIndex q) (getPlayerList g));
             SetTimeout room 3000])
    else
      Done (putGame room (set_timeRemaining (timeRemaining g - 1) g) s,
            [RoomEmit room (timerUpdate (timeRemaining g - 1))]).
Proof.
  intros Hg Hlive Hlatch Hq. unfold intervalTick, countdown.
  rewrite Hg, decide_True by done. simpl.
  case_decide; simpl; [|done].
  by rewrite Hlatch, Hq, Hlive.
Qed.

Lemma ticks_after_stop (questions : Bank) (fuel : nat) (room : string)
    (s : Server) (g : Game) (m : nat) :
  games s !! room = Some g →
  timerInterval g ≠ TimerLive →
  run questions fuel (replicate m (IntervalTick room)) s = Done (s, []).
Proof.
  intros Hg Hoff. induction m as [|m IH]; [done|].
  cbn [replicate]. apply (run_cons questions fuel _ _ s s s [] []); [|done].
  cbn [handle]. unfold intervalTick. by rewrite Hg, decide_False.
Qed.

Lemma ticks_before_expiry (questions : Bank) (fuel : nat) (room : string)
    (g : Game) (q : Question) (k : nat) :
  timerInterval g = TimerLive →
  questionAnswered g = false →
  currentQuestion g = Some q →
  ∀ (s : Server) (t : Z),
    games s !! room = Some (set_timeRemaining t g) →
    Z.of_nat k < t →
    ∃ s',
      run questions fuel (replicate k (IntervalTick room)) s =
        Done (s', timerUpdates room t k)
      ∧ games s' = <[room := set_timeRemaining (t - Z.of_nat k) g]> (games s)
      ∧ gameCode s' = gameCode s.
Proof.
  intros Hlive Hlatch Hq. induction k as [|k IH]; intros s t Hg Hk.
  - exists s. split; [done|]. split; [|done].
    rewrite Z.sub_0_r. symmetry. by apply insert_id.
  - destruct (IH (putGame room (set_timeRemaining (t - 1) g) s) (t - 1))
      as (s' & Hrun & Hgames & Hgc); [simpl; apply lookup_insert_eq|lia|].
    exists s'. rewrite timerUpdates_S. split; [|split; [|done]].
    + cbn [replicate].
      apply (run_cons questions fuel _ _ s
               (putGame room (set_timeRemaining (t - 1) g) s) s'
               [RoomEmit room (timerUpdate (t - 1))]
               (timerUpdates room (t - 1) k)); [|exact Hrun].
      cbn [handle].
      rewrite (intervalTick_step room s (set_timeRemaining t g) q) by done.
      change (timeRemaining (set_timeRemaining t g)) with t.
      by rewrite decide_False by lia.
    + rewrite Hgames. simpl. rewrite insert_insert_eq.
      do 2 f_equal. lia.
Qed.

(** X13.  Over an open question with [n + 1] seconds on the clock and
    nobody answering correctly, the interval broadcasts the remaining
    seconds [n], [n - 1], ..., one per firing; the firing that reaches 0
    also broadcasts [timeUp] with the correct index and the unchanged
    scores, sets the latch, stops the interval and defers the next
    question by 3000 ms; later firings do nothing. *)
Theorem countdown_runs_to_zero
    (questions : Bank) (fuel : nat) (room : string) (s : Server)
    (g : Game) (q : Question) (n : nat) :
  games s !! room = Some g →
  timerInterval g = TimerLive →
  questionAnswered g = false →
  currentQuestion g = Some q →
  timeRemaining g = Z.of_nat (S n) →
  (∀ k, (k ≤ n)%nat →
     ∃ s',
       run questions fuel (replicate k (IntervalTick room)) s =
         Done (s', timerUpdates room (Z.of_nat (S n)) k)
       ∧ games s' !! room =
           Some (set_timeRemaining (Z.of_nat (S n) - Z.of_nat k) g))
  ∧ (∀ m,
       ∃ s',
         run questions fuel (replicate (S n + m) (IntervalTick room)) s =
           Done (s', (timerUpdates room (Z.of_nat (S n)) (S n)
                      ++ [RoomEmit room
                            (timeUp (correctIndex q) (getPlayerList g));
                          SetTimeout room 3000])%list)
         ∧ games s' !! room =
             Some (set_questionAnswered true
                     (set_timerInterval TimerCleared
                        (set_timeRemaining 0 g)))).
Proof.
  intros Hg Hlive Hlatch Hq Ht.
  assert (Hg' : games s !! room = Some (set_timeRemaining (Z.of_nat (S n)) g))
    by (by rewrite <- Ht, set_timeRemaining_same).
  split.
  - intros k Hk.
    destruct (ticks_before_expiry questions fuel room g q k Hlive Hlatch Hq
                s (Z.of_nat (S n)) Hg') as (s' & Hrun & Hgames & _); [lia|].
    exists s'. split; [done|]. rewrite Hgames. apply lookup_insert_eq.
  - intros m.
    destruct (ticks_before_expiry questions fuel room g q n Hlive Hlatch Hq
                s (Z.of_nat (S n)) Hg') as (s1 & Hrun & Hgames & _); [lia|].
    assert (Hsplit : replicate (S n + m) (IntervalTick room) =
              (replicate n (IntervalTick room)
               ++ IntervalTick room :: replicate m (IntervalTick room))%list).
    { rewrite (Nat.add_comm (S n) m), Nat.add_succ_r, <- Nat.add_succ_l.
      rewrite (Nat.add_comm (S m) n), replicate_add. done. }
    rewrite Hsplit. clear Hsplit.
    assert (Hs1 : games s1 !! room = Some (set_timeRemaining 1 g)).
    { rewrite Hgames, lookup_insert_eq. do 2 f_equal. lia. }
    set (g' := set_questionAnswered true
                 (set_timerInterval TimerCleared (set_timeRemaining 0 g))).
    exists (putGame room g' s1). split; [|simpl; apply lookup_insert_eq].
    assert (Hlast : timerUpdates room (Z.of_nat (S n)) (S n) =
              (timerUpdates room (Z.of_nat (S n)) n
               ++ [RoomEmit room (timerUpdate 0)])%list).
    { unfold timerUpdates. rewrite seq_S, fmap_app. simpl.
      do 4 f_equal. lia. }
    rewrite Hlast, <- app_assoc.
    eapply run_app; [exact Hrun|].
    apply (run_cons questions fuel _ _ s1 (putGame room g' s1)
             (putGame room g' s1)
             [RoomEmit room (timerUpdate 0);
              RoomEmit room (timeUp (correctIndex q) (getPlayerList g));
              SetTimeout room 3000] []).
    + cbn [handle].
      by rewrite (intervalTick_step room s1 (set_timeRemaining 1 g) q).
    + apply (ticks_after_stop questions fuel room _ g' m);
        [simpl; apply lookup_insert_eq|done].
Qed.

Lemma countdown_runs_to_zero_witness :
  let s := Demo.after Demo.firstRound in
  ∃ s',
    run Demo.bank 2 (replicate (15 + 3) (IntervalTick "ABCD1234")) s =
      Done (s', (timerUpdates "ABCD1234" 15 15
                 ++ [RoomEmit "ABCD1234"
                       (timeUp 2 (getPlayerList (Demo.gameAt "ABCD1234" s)));
                     SetTimeout "ABCD1234" 3000])%list).
Proof.
  intros s.
  destruct (countdown_runs_to_zero Demo.bank 2 "ABCD1234" s
              (Demo.gameAt "ABCD1234" s)
              {| question := "2+2?"; answers := ["7"; "5"; "4"; "6"];
                 correctIndex := 2; strand := "algebra";
                 question_id := "algebra-1" |} 14)
    as [_ Hexpiry]; [vm_compute; reflexivity..|].
  destruct (Hexpiry 3%nat) as (s' & Hrun & _).
  exists s'. exact Hrun.
Defined.

(** ** Shuffling, drawing and sending a question *)

Lemma fst_answerObjs (answers : list string) (c : Z) :
  (imap (λ idx answer, (answer, bool_decide (Z.of_nat idx = c))) answers).*1
  = answers.
Proof.
  rewrite fmap_imap.
  transitivity (imap (const id) answers); [by apply imap_ext|].
  rewrite imap_const. apply list_fmap_id.
Qed.

(** What [shuffleAnswers] returns, inside and outside the array. *)
Lemma shuffleAnswers_result
    (answers shuffled : list string) (c newIndex : Z) (rs rs' : list nat) :
  shuffleAnswers answers c rs = (shuffled, newIndex, rs') →
  shuffled ≡ₚ answers
  ∧ (0 ≤ c < Z.of_nat (length answers) →
       0 ≤ newIndex < Z.of_nat (length shuffled)
       ∧ shuffled !! Z.to_nat newIndex = answers !! Z.to_nat c)
  ∧ (¬ (0 ≤ c < Z.of_nat (length answers)) → newIndex = -1).
Proof.
  intros Hshuffle. unfold shuffleAnswers in Hshuffle.
  set (objs := imap _ answers) in Hshuffle.
  pose proof (fisherYates_Permutation (length objs - 1) objs rs) as Hperm.
  destruct (fisherYates (length objs - 1) objs rs) as [objs' rs1].
  simpl in Hperm. injection Hshuffle as <- <- <-.
  split; [rewrite Hperm; unfold objs; by rewrite fst_answerObjs|]. split.
  - intros Hin.
    destruct (lookup_lt_is_Some_2 answers (Z.to_nat c)) as [a Ha]; [lia|].
    destruct (answerObjs_flag answers (Z.to_nat c) a Ha) as [Hflag Hall].
    rewrite Z2Nat.id in Hflag, Hall by lia. fold objs in Hflag, Hall.
    rewrite <- Hperm in Hflag.
    destruct (findIndex_found snd objs' (a, true) Hflag eq_refl)
      as (k & o & Hk & Hlook & Ho).
    rewrite Hk, Nat2Z.id, length_fmap, list_lookup_fmap, Hlook, Ha. simpl.
    split; [apply lookup_lt_Some in Hlook; lia|].
    f_equal. apply Hall; [|done]. rewrite <- Hperm.
    by eapply list_elem_of_lookup_2.
  - intros Hout. unfold findIndex.
    destruct (list_find (λ x, x.2 = true) objs') as [[k o]|] eqn:Hfind; [|done].
    exfalso. apply list_find_Some in Hfind as (Hlook & Ho & _).
    apply list_elem_of_lookup_2 in Hlook. rewrite Hperm in Hlook.
    apply elem_of_lookup_imap_1 in Hlook as (i & a & -> & Hi). simpl in Ho.
    apply bool_decide_eq_true in Ho. apply lookup_lt_Some in Hi. lia.
Qed.

(** X14.  With a bank entry whose correct index lies outside its
    answers, or with fewer than two answers, the shuffle has an edge
    behaviour of its own: outside the array the new correct index is
    [-1] (the answers are still permuted); an array of at most one
    answer comes back as it is, without a draw from the random
    source. *)
Theorem shuffleAnswers_edges
    (answers shuffled : list string) (c newIndex : Z) (rs rs' : list nat) :
  shuffleAnswers answers c rs = (shuffled, newIndex, rs') →
  (¬ (0 ≤ c < Z.of_nat (length answers)) →
     newIndex = -1 ∧ shuffled ≡ₚ answers)
  ∧ ((length answers ≤ 1)%nat → shuffled = answers ∧ rs' = rs).
Proof.
  intros Hshuffle.
  destruct (shuffleAnswers_result _ _ _ _ _ _ Hshuffle) as (Hperm & _ & Hout).
  split; [by auto|].
  intros Hshort. unfold shuffleAnswers in Hshuffle.
  rewrite length_imap in Hshuffle.
  assert (length answers - 1 = 0)%nat as Hzero by lia.
  rewrite Hzero in Hshuffle. simpl in Hshuffle.
  injection Hshuffle as <- _ <-. split; [|done]. apply fst_answerObjs.
Qed.

Lemma shuffleAnswers_edges_witness :
  shuffleAnswers ["a"; "b"; "c"] 3 [1; 0]%nat = (["c"; "a"; "b"], -1, [])
  ∧ ["c"; "a"; "b"] ≡ₚ (["a"; "b"; "c"] : list string)
  ∧ shuffleAnswers ["a"] 0 [1; 0]%nat = (["a"], 0, [1; 0]%nat).
Proof.
  assert (H3 : shuffleAnswers ["a"; "b"; "c"] 3 [1; 0]%nat
               = (["c"; "a"; "b"], -1, [])) by reflexivity.
  assert (H1 : shuffleAnswers ["a"] 0 [1; 0]%nat = (["a"], 0, [1; 0]%nat))
    by reflexivity.
  split; [exact H3|]. split; [|exact H1].
  destruct (shuffleAnswers_edges _ _ _ _ _ _ H3) as [Hout _].
  destruct Hout as [_ Hperm]; [simpl; lia|exact Hperm].
Defined.

(** X15.  Any question that has not been used can be the next one: for
    every available question there is a value of the random source for
    which [getRandomQuestion] returns it, without a retry, and adds its
    id to the used set. *)
Theorem every_unused_question_can_be_drawn
    (questions : Bank) (g : Game) (gq : Strands) (q : Question) :
  JsMap.get (gradeKey (gradeLevel g)) questions = Some gq →
  q ∈ allQuestionsOf gq →
  question_id q ∉ usedQuestions g →
  ∃ r : nat, ∀ (fuel : nat) (rs : list nat),
    getRandomQuestion questions (S fuel) g (r :: rs) =
      Done (Some q,
            set_usedQuestions ({[question_id q]} ∪ usedQuestions g) g, rs).
Proof.
  intros Hgq Hq Hunused.
  assert (Hav : q ∈ available g gq) by (by apply list_elem_of_filter).
  apply list_elem_of_lookup in Hav as [i Hi].
  exists i. intros fuel rs. simpl. rewrite Hgq.
  pose proof (lookup_lt_Some _ _ _ Hi) as Hlt.
  rewrite !decide_False by lia.
  rewrite Nat.mod_small by done. by rewrite Hi.
Qed.

Lemma every_unused_question_can_be_drawn_witness :
  let g := set_usedQuestions {["algebra-0"]}
             (set_gradeLevel (Some "6th") (newGame "ABCD1234" "host")) in
  ∃ r : nat, ∀ (fuel : nat) (rs : list nat),
    (question_id <$>
       match getRandomQuestion Demo.bank (S fuel) g (r :: rs) with
       | Done (drawn, _, _) => drawn
       | _ => None
       end) = Some "geometry-0".
Proof.
  intros g.
  destruct (every_unused_question_can_be_drawn Demo.bank g _
              {| question := "Sides of a triangle?"; answers := ["2"; "3"];
                 correctIndex := 1; strand := "geometry";
                 question_id := "geometry-0" |} eq_refl) as [r Hr].
  - do 2 right. left.
  - apply (bool_decide_unpack _). by vm_compute.
  - exists r. intros fuel rs. by rewrite Hr.
Defined.

(** X16.  The pool of a grade level holds each question of each strand
    once: a question is in the pool exactly when it is the entry at some
    index of some strand, tagged with that strand and with the id made
    of the strand and the index; and the pool is as long as the strands
    together. *)
Theorem pool_lists_every_bank_question (gq : Strands) :
  (∀ q, q ∈ allQuestionsOf gq ↔
        ∃ strand qs idx entry,
          (strand, qs) ∈ gq
          ∧ qs !! idx = Some entry
          ∧ q = {| question := bank_question entry;
                   answers := bank_answers entry;
                   correctIndex := bank_correctIndex entry;
                   strand := strand;
                   question_id := questionId strand idx |})
  ∧ length (allQuestionsOf gq) = sum_list (length ∘ snd <$> gq).
Proof.
  induction gq as [|[strand qs] gq [IHin IHlen]].
  - split; [|done]. intros q. split; [by intros ?%elem_of_nil|].
    by intros (? & ? & ? & ? & ?%elem_of_nil & _).
  - rewrite allQuestionsOf_cons. split.
    + intros q. rewrite elem_of_app, elem_of_lookup_imap, IHin. split.
      * intros [(idx & entry & -> & Hentry)|(st & qs' & idx & entry & Hin & Hentry & ->)].
        -- exists strand, qs, idx, entry. split; [left|done].
        -- exists st, qs', idx, entry. split; [by right|done].
      * intros (st & qs' & idx & entry & Hin & Hentry & ->).
        apply elem_of_cons in Hin as [[= -> ->]|Hin].
        -- left. by exists idx, entry.
        -- right. by exists st, qs', idx, entry.
    + rewrite length_app, length_imap, IHlen. done.
Qed.

(** X17.  [sendNextQuestion] on a started game without winner, whose
    grade level has questions, opens a round: it draws a question of the
    pool and marks its id as used, makes it the current question with
    the answers permuted and, when the bank's correct index lies inside
    the answers, with the correct index moved along with the correct
    answer; it clears the latch, puts 15 on the clock, starts the
    interval, adds one to the question counter and broadcasts the
    question under that number.  The roster and the scores are
    untouched. *)
Theorem sendNextQuestion_opens_round
    (questions : Bank) (fuel : nat) (c : string) (rs : list nat)
    (s : Server) (g : Game) (gq : Strands) :
  games s !! c = Some g →
  started g = true →
  winner g = None →
  JsMap.get (gradeKey (gradeLevel g)) questions = Some gq →
  allQuestionsOf gq ≠ [] →
  (2 ≤ fuel)%nat →
  ∃ g' drawn q,
    sendNextQuestion questions fuel c rs s =
      Done (putGame c g' s,
            [RoomEmit c (newQuestion (question q) (answers q) (strand q)
                           (S (questionIndex g)))])
    ∧ drawn ∈ allQuestionsOf gq
    ∧ question_id drawn ∈ usedQuestions g'
    ∧ currentQuestion g' = Some q
    ∧ question q = question drawn
    ∧ strand q = strand drawn
    ∧ question_id q = question_id drawn
    ∧ answers q ≡ₚ answers drawn
    ∧ (0 ≤ correctIndex drawn < Z.of_nat (length (answers drawn)) →
         0 ≤ correctIndex q < Z.of_nat (length (answers q))
         ∧ answers q !! Z.to_nat (correctIndex q)
           = answers drawn !! Z.to_nat (correctIndex drawn))
    ∧ questionAnswered g' = false
    ∧ timeRemaining g' = 15
    ∧ timerInterval g' = TimerLive
    ∧ questionIndex g' = S (questionIndex g)
    ∧ players g' = players g
    ∧ started g' = true.
Proof.
  intros Hg Hst Hw Hgq Hpool Hfuel.
  destruct fuel as [|[|fuel]]; [lia..|].
  unfold sendNextQuestion. rewrite Hg, Hst, Hw.
  destruct (getRandomQuestion_draws questions
              (set_questionAnswered false g) gq rs fuel)
    as (drawn & U & rs' & Hdraw & Hin & Hused); [done..|].
  rewrite Hdraw. simpl.
  destruct (shuffleAnswers (answers drawn) (correctIndex drawn) rs')
    as [[shuffled newIndex] rs2] eqn:Hshuffle.
  destruct (shuffleAnswers_result _ _ _ _ _ _ Hshuffle) as (Hperm & Hinside & _).
  set (q := {| question := question drawn; answers := shuffled;
               correctIndex := newIndex; strand := strand drawn;
               question_id := question_id drawn |}).
  exists (set_timerInterval TimerLive
            (set_currentQuestion (Some q)
               (set_timeRemaining 15
                  (set_questionIndex (questionIndex g + 1)
                     (set_usedQuestions U (set_questionAnswered false g)))))),
    drawn, q.
  rewrite <- (Nat.add_1_r (questionIndex g)).
  split; [reflexivity|]. split; [done|]. split.
  { simpl. destruct Hused as [[_ ->]|[_ ->]]; set_solver. }
  by repeat (split; [done|]).
Qed.

Lemma sendNextQuestion_opens_round_witness :
  let s := Demo.after (Demo.lobby ++ [StartGame "host" "6th"]) in
  ∃ g' q,
    sendNextQuestion Demo.bank 2 "ABCD1234" [1; 2; 3; 1]%nat s =
      Done (putGame "ABCD1234" g' s,
            [RoomEmit "ABCD1234"
               (newQuestion (question q) (answers q) (strand q) 1)])
    ∧ timeRemaining g' = 15
    ∧ timerInterval g' = TimerLive.
Proof.
  intros s.
  destruct (sendNextQuestion_opens_round Demo.bank 2 "ABCD1234"
              [1; 2; 3; 1]%nat s (Demo.gameAt "ABCD1234" s)
              [("algebra",
                [mkBankQuestion "1+1?" ["1"; "2"; "3"; "4"] 1;
                 mkBankQuestion "2+2?" ["4"; "5"; "6"; "7"] 0]);
               ("geometry",
                [mkBankQuestion "Sides of a triangle?" ["2"; "3"] 1])])
    as (g' & drawn & q & Hrun & _ & _ & _ & _ & _ & _ & _ & _ & _ & Ht & Hlive & _);
    [vm_compute; reflexivity..|discriminate|lia|].
  exists g', q. split; [exact Hrun|]. split; [exact Ht|exact Hlive].
Defined.

(** X18.  [sendNextQuestion] does nothing for a code without room, for a
    game that is not started and for a game with a winner.  On a started
    game without winner whose grade level is not a key of the bank it
    throws, reading the answers of the [null] that the draw returned;
    when the grade level is a key without questions it never returns. *)
Theorem sendNextQuestion_without_round
    (questions : Bank) (c : string) (rs : list nat) (s : Server) :
  (games s !! c = None →
     ∀ fuel, sendNextQuestion questions fuel c rs s = Done (s, []))
  ∧ (∀ g, games s !! c = Some g →
       (started g = false ∨ is_Some (winner g) →
          ∀ fuel, sendNextQuestion questions fuel c rs s = Done (s, []))
       ∧ (started g = true → winner g = None →
            (JsMap.get (gradeKey (gradeLevel g)) questions = None →
               ∀ fuel, (1 ≤ fuel)%nat →
                 sendNextQuestion questions fuel c rs s = Throw TypeError_null)
            ∧ (∀ gq,
                 JsMap.get (gradeKey (gradeLevel g)) questions = Some gq →
                 allQuestionsOf gq = [] →
                 ∀ fuel, sendNextQuestion questions fuel c rs s = OutOfFuel))).
Proof.
  split.
  - intros Hnone fuel. unfold sendNextQuestion. by rewrite Hnone.
  - intros g Hg. split.
    + intros Hidle fuel. unfold sendNextQuestion. rewrite Hg.
      destruct Hidle as [->|Hw]; [done|].
      by rewrite (bool_decide_eq_true_2 _ Hw), orb_true_r.
    + intros Hst Hw. split.
      * intros Hgrade [|fuel] Hfuel; [lia|].
        unfold sendNextQuestion. rewrite Hg, Hst, Hw.
        by rewrite (getRandomQuestion_no_grade questions _ rs fuel).
      * intros gq Hgq Hpool fuel.
        unfold sendNextQuestion. rewrite Hg, Hst, Hw.
        by rewrite (getRandomQuestion_empty_pool questions _ gq rs fuel).
Qed.

Lemma sendNextQuestion_without_round_witness :
  let s7 := Demo.after (Demo.lobby ++ [StartGame "host" "7th"]) in
  let s8 := Demo.after (Demo.lobby ++ [StartGame "host" "8th"]) in
  sendNextQuestion Demo.bank 2 "ABCD1234" [] (Demo.after Demo.lobby)
    = Done (Demo.after Demo.lobby, [])
  ∧ sendNextQuestion Demo.bank 2 "ABCD1234" [] s8 = Throw TypeError_null
  ∧ ∀ fuel, sendNextQuestion Demo.bank fuel "ABCD1234" [] s7 = OutOfFuel.
Proof.
  intros s7 s8. split; [|split].
  - destruct (sendNextQuestion_without_round Demo.bank "ABCD1234" []
                (Demo.after Demo.lobby)) as [_ H].
    destruct (H (Demo.gameAt "ABCD1234" (Demo.after Demo.lobby)))
      as [Hidle _]; [vm_compute; reflexivity|].
    apply Hidle. left. vm_compute; reflexivity.
  - destruct (sendNextQuestion_without_round Demo.bank "ABCD1234" [] s8)
      as [_ H].
    destruct (H (Demo.gameAt "ABCD1234" s8)) as [_ Hgo];
      [vm_compute; reflexivity|].
    destruct Hgo as [Hthrow _]; [vm_compute; reflexivity..|].
    apply Hthrow; [vm_compute; reflexivity|lia].
  - destruct (sendNextQuestion_without_round Demo.bank "ABCD1234" [] s7)
      as [_ H].
    destruct (H (Demo.gameAt "ABCD1234" s7)) as [_ Hgo];
      [vm_compute; reflexivity|].
    destruct Hgo as [_ Hloop]; [vm_compute; reflexivity..|].
    intros fuel. apply (Hloop [("algebra", [])]); vm_compute; reflexivity.
Defined.

(** X19.  An answer either changes nothing at all, or it is the correct
    answer of a registered player to the open question: then only the
    sender's entry changes, its score goes up by one, every other entry,
    the order of the roster and every other room stay as they were, and
    [questionResult] with the sender's id and name is broadcast first.
    An index other than the correct one always falls in the first
    case. *)
Theorem answer_changes_only_senders_score
    (socketId : string) (answerIndex : Z) (s s' : Server)
    (out : list Effect) :
  on_submitAnswer socketId answerIndex s = Done (s', out) →
  (s' = s ∧ out = [])
  ∨ ∃ c g g' p q rest,
      socketGame socketId s = Some (c, g)
      ∧ currentQuestion g = Some q ∧ answerIndex = correctIndex q
      ∧ games s' = <[c := g']> (games s)
      ∧ gameCode s' = gameCode s
      ∧ JsMap.get socketId (players g) = Some p
      ∧ JsMap.get socketId (players g') =
          Some {| player_id := player_id p; name := name p;
                  score := score p + 1; isHost := isHost p |}
      ∧ (∀ other, other ≠ socketId →
           JsMap.get other (players g') = JsMap.get other (players g))
      ∧ JsMap.keys (players g') = JsMap.keys (players g)
      ∧ out = RoomEmit c (questionResult socketId (name p) answerIndex
                            (getPlayerList g')) :: rest.
Proof.
  intros Hrun.
  destruct (submitAnswer_inv _ _ _ _ _ Hrun)
    as [[-> ->]|(c & g & p & q & Hsg & Hst & Hl & Hp & Hq & ->)];
    [by left|right].
  rewrite (submitAnswer_correct s socketId c g p q) in Hrun by done.
  set (g1 := scorePoint socketId p _) in Hrun.
  assert (Hget : JsMap.get socketId (players g1) =
            Some {| player_id := player_id p; name := name p;
                    score := score p + 1; isHost := isHost p |})
    by apply get_set_eq.
  assert (Hothers : ∀ other, other ≠ socketId →
            JsMap.get other (players g1) = JsMap.get other (players g)).
  { intros other Hne. by apply get_set_ne. }
  assert (Hkeys : JsMap.keys (players g1) = JsMap.keys (players g)).
  { apply keys_set_present. by eexists. }
  destruct (checkWinner g1) as [w|]; injection Hrun as <- <-.
  - exists c, g, (set_winner (Some w) g1), p, q,
      [RoomEmit c (gameOver w (getPlayerList g1))].
    by repeat (split; [done|]).
  - exists c, g, g1, p, q, [SetTimeout c 3000]. by repeat (split; [done|]).
Qed.

Lemma answer_changes_only_senders_score_witness :
  let s := Demo.after Demo.firstRound in
  on_submitAnswer "guest" 1 s = Done (s, [])
  ∧ ∃ s' out, on_submitAnswer "guest" 2 s = Done (s', out) ∧ out ≠ [].
Proof.
  intros s.
  assert (H1 : on_submitAnswer "guest" 1 s = Done (s, []))
    by (vm_compute; reflexivity).
  split; [exact H1|].
  destruct (on_submitAnswer "guest" 2 s) as [[s' out]| |] eqn:H2;
    [|vm_compute in H2; discriminate H2..].
  exists s', out. split; [reflexivity|].
  destruct (answer_changes_only_senders_score "guest" 2 s s' out H2)
    as [[_ Hnil]|(c & g & g' & p & q & rest & _ & _ & _ & _ & _ & _ & _ & _ & _ & ->)];
    [|discriminate].
  subst out. vm_compute in H2. discriminate H2.
Defined.

(** X20.  [removePlayer] undoes [addPlayer] for a socket that had no
    entry, a new entry goes to the end of the roster, and removing twice
    is removing once when the roster has one entry per socket. *)
Theorem removePlayer_undoes_addPlayer
    (socketId nm : string) (g : Game) :
  (JsMap.get socketId (players g) = None →
     removePlayer socketId (addPlayer socketId nm g) = g
     ∧ getPlayerList (addPlayer socketId nm g) =
         (getPlayerList g
          ++ [{| player_id := socketId; name := nm; score := 0;
                 isHost := bool_decide (socketId = hostId g) |}])%list)
  ∧ (NoDup (JsMap.keys (players g)) →
       removePlayer socketId (removePlayer socketId g) = removePlayer socketId g
       ∧ JsMap.get socketId (players (removePlayer socketId g)) = None).
Proof.
  split.
  - intros Habsent. split.
    + unfold removePlayer, addPlayer. simpl.
      rewrite delete_set_absent by done. by destruct g.
    + unfold getPlayerList, addPlayer, JsMap.values. simpl.
      rewrite keys_set_absent by done. by rewrite fmap_app.
  - intros Hnd.
    assert (Hgone : JsMap.get socketId (players (removePlayer socketId g)) = None)
      by (by apply get_delete_eq).
    split; [|done]. unfold removePlayer in *. simpl in *.
    by rewrite (delete_absent _ _ Hgone).
Qed.

Lemma removePlayer_undoes_addPlayer_witness :
  let g := Demo.gameAt "ABCD1234" (Demo.after Demo.lobby) in
  removePlayer "lurker" (addPlayer "lurker" "Cy" g) = g
  ∧ removePlayer "guest" (removePlayer "guest" g) = removePlayer "guest" g.
Proof.
  intros g.
  destruct (removePlayer_undoes_addPlayer "lurker" "Cy" g) as [Hnew _].
  destruct (removePlayer_undoes_addPlayer "guest" "Cy" g) as [_ Htwice].
  split.
  - apply Hnew. vm_compute; reflexivity.
  - apply Htwice. apply (bool_decide_unpack _). by vm_compute.
Defined.

(** ** Who can do what *)

(** X21.  No event changes the host or the code of a registered game,
    and only the host can start a game or send it back to the lobby:
    when an event changes [started] of a game, it is [startGame] or
    [playAgain] from the socket that is the game's host. *)
Theorem only_host_starts_or_resets
    (questions : Bank) (fuel : nat) (ev : Event) (s s' : Server)
    (out : list Effect) (c : string) (g g' : Game) :
  handle questions fuel ev s = Done (s', out) →
  games s !! c = Some g →
  games s' !! c = Some g' →
  hostId g' = hostId g
  ∧ code g' = code g
  ∧ (started g' ≠ started g →
       (∃ gl, ev = StartGame (hostId g) gl) ∨ ev = PlayAgain (hostId g)).
Proof.
  intros Hrun Hg Hg'.
  destruct ev as [sid x|sid x|sid nm|sid gl|sid idx|sid msg now|sid|sid|sid|r|r rs];
    cbn [handle] in Hrun.
  - unfold on_createGame in Hrun.
    repeat case_match; simplify_eq; simpl in *; try (by simplify_eq).
    rewrite lookup_insert in Hg'. case_decide; simplify_eq; [|done].
    match goal with H : ¬ is_Some _ |- _ => destruct H end. by eexists.
  - unfold on_joinGame in Hrun.
    repeat case_match; simplify_eq; simpl in *; by simplify_eq.
  - unfold on_setName, ignored in Hrun.
    destruct (socketGame sid s) as [[c0 g0]|] eqn:Hsg; [|by simplify_eq].
    apply socketGame_Some in Hsg as [_ Hg0].
    case_decide; simplify_eq; [done|]. simpl in Hg'.
    rewrite lookup_insert in Hg'. case_decide; by simplify_eq.
  - unfold on_startGame, ignored in Hrun.
    destruct (socketGame sid s) as [[c0 g0]|] eqn:Hsg; [|by simplify_eq].
    apply socketGame_Some in Hsg as [_ Hg0].
    destruct (decide (sid = hostId g0)) as [->|Hne].
    + rewrite decide_False in Hrun by (by intros ?).
      case_match; simplify_eq; [done|]. simpl in Hg'.
      rewrite lookup_insert in Hg'. case_decide; simplify_eq; [|done].
      simpl. split; [done|]. split; [done|]. intros _. left. by eexists.
    + rewrite decide_True in Hrun by done. by simplify_eq.
  - destruct (submitAnswer_inv _ _ _ _ _ Hrun)
      as [[-> _]|(c0 & g0 & p & q & Hsg & Hst & Hl & Hp & Hq & ->)];
      [by simplify_eq|].
    rewrite (submitAnswer_correct s sid c0 g0 p q) in Hrun by done.
    apply socketGame_Some in Hsg as [_ Hg0].
    destruct (checkWinner _); injection Hrun as <- <-; simpl in Hg';
      rewrite lookup_insert in Hg'; case_decide; by simplify_eq.
  - unfold on_chatMessage, ignored in Hrun.
    repeat case_match; simplify_eq; by simplify_eq.
  - unfold on_playAgain, ignored in Hrun.
    destruct (socketGame sid s) as [[c0 g0]|] eqn:Hsg; [|by simplify_eq].
    apply socketGame_Some in Hsg as [_ Hg0].
    destruct (decide (sid = hostId g0)) as [->|Hne].
    + rewrite decide_False in Hrun by (by intros ?).
      simplify_eq. simpl in Hg'.
      rewrite lookup_insert in Hg'. case_decide; simplify_eq; [|done].
      simpl. split; [done|]. split; [done|]. intros _. by right.
    + rewrite decide_True in Hrun by done. by simplify_eq.
  - unfold handleDisconnect, ignored in Hrun.
    destruct (socketGame sid s) as [[c0 g0]|] eqn:Hsg; [|by simplify_eq].
    apply socketGame_Some in Hsg as [_ Hg0].
    case_decide; simplify_eq; simpl in Hg'.
    + rewrite lookup_delete in Hg'. case_decide; by simplify_eq.
    + rewrite lookup_insert in Hg'. case_decide; by simplify_eq.
  - unfold handleDisconnect, ignored in Hrun.
    destruct (socketGame sid s) as [[c0 g0]|] eqn:Hsg; [|by simplify_eq].
    apply socketGame_Some in Hsg as [_ Hg0].
    case_decide; simplify_eq; simpl in Hg'.
    + rewrite lookup_delete in Hg'. case_decide; by simplify_eq.
    + rewrite lookup_insert in Hg'. case_decide; by simplify_eq.
  - unfold intervalTick, ignored, countdown in Hrun.
    destruct (games s !! r) as [g0|] eqn:Hg0; [|by simplify_eq].
    simpl in Hrun.
    repeat case_match; simpl in Hrun; simplify_eq;
      first [ done
            | simpl in Hg'; rewrite lookup_insert in Hg'; case_decide;
              by simplify_eq ].
  - unfold sendNextQuestion, ignored in Hrun.
    destruct (games s !! r) as [g0|] eqn:Hg0; [|by simplify_eq].
    destruct (negb (started g0) || bool_decide (is_Some (winner g0)));
      [by simplify_eq|].
    destruct (getRandomQuestion questions fuel (set_questionAnswered false g0) rs)
      as [[[drawn g1] rs1]| |] eqn:Hdraw; simpl in Hrun; [|done..].
    apply getRandomQuestion_fields in Hdraw as [U ->].
    destruct drawn as [q|]; [|done].
    destruct (shuffleAnswers (answers q) (correctIndex q) rs1) as [[sh ni] rs2].
    simplify_eq. simpl in Hg'.
    rewrite lookup_insert in Hg'. case_decide; by simplify_eq.
Qed.

Lemma only_host_starts_or_resets_witness :
  let s := Demo.after Demo.lobby in
  let s' := Demo.after (Demo.lobby ++ [StartGame "host" "6th"]) in
  let g' := Demo.gameAt "ABCD1234" s' in
  handle Demo.bank 2 (StartGame "host" "6th") s =
    Done (s', [RoomEmit "ABCD1234" (gameStarted "6th");
               SetTimeout "ABCD1234" 1000])
  ∧ started g' = true
  ∧ hostId g' = hostId (Demo.gameAt "ABCD1234" s)
  ∧ code g' = code (Demo.gameAt "ABCD1234" s).
Proof.
  intros s s' g'.
  assert (Hrun : handle Demo.bank 2 (StartGame "host" "6th") s =
                 Done (s', [RoomEmit "ABCD1234" (gameStarted "6th");
                            SetTimeout "ABCD1234" 1000]))
    by (vm_compute; reflexivity).
  split; [exact Hrun|]. split; [vm_compute; reflexivity|].
  destruct (only_host_starts_or_resets Demo.bank 2 _ s s' _ "ABCD1234"
              (Demo.gameAt "ABCD1234" s) g' Hrun)
    as (Hhost & Hcode & _); [vm_compute; reflexivity..|].
  split; [exact Hhost|exact Hcode].
Defined.

(** ** Playing again, and codes that are used again *)

Lemma socketGame_putGame (socketId c : string) (g g' : Game) (s : Server) :
  socketGame socketId s = Some (c, g) →
  socketGame socketId (putGame c g' s) = Some (c, g').
Proof.
  intros [Hgc _]%socketGame_Some. apply socketGame_Some.
  split; [done|]. simpl. apply lookup_insert_eq.
Qed.

(** X22.  After [playAgain] the host can start over: [playAgain],
    [startGame] with one of the three grade levels and the first
    deferred [sendNextQuestion] run through, whatever the state of the
    game was; the room is told of the reset, the start and question
    number 1, every score is 0, the used set holds the id of that
    question alone, and the roster is the one before. *)
Theorem playAgain_then_new_game
    (questions : Bank) (fuel : nat) (host c gl : string) (rs : list nat)
    (s : Server) (g : Game) (gq : Strands) :
  socketGame host s = Some (c, g) →
  host = hostId g →
  gl ∈ ["6th"; "7th"; "8th"] →
  JsMap.get gl questions = Some gq →
  allQuestionsOf gq ≠ [] →
  (1 ≤ fuel)%nat →
  ∃ s' g' q,
    run questions fuel
        [PlayAgain host; StartGame host gl; TimeoutFires c rs] s =
      Done (s',
            [RoomEmit c (gameReset (getPlayerList g'));
             RoomEmit c (gameStarted gl);
             SetTimeout c 1000;
             RoomEmit c (newQuestion (question q) (answers q) (strand q) 1)])
    ∧ games s' !! c = Some g'
    ∧ currentQuestion g' = Some q
    ∧ started g' = true
    ∧ winner g' = None
    ∧ questionIndex g' = 1%nat
    ∧ usedQuestions g' = {[question_id q]}
    ∧ Forall (λ p, score p = 0%nat) (getPlayerList g')
    ∧ JsMap.keys (players g') = JsMap.keys (players g)
    ∧ (λ p, (player_id p, name p, isHost p)) <$> getPlayerList g'
      = (λ p, (player_id p, name p, isHost p)) <$> getPlayerList g.
Proof.
  intros Hsg Hhost Hgl Hgq Hpool Hfuel.
  destruct fuel as [|fuel]; [lia|].
  (* playAgain *)
  set (g1 := set_players (resetScores (players g))
               (set_timerInterval (clearInterval (timerInterval g))
                  (set_winner None
                     (set_questionAnswered false
                        (set_usedQuestions ∅
                           (set_questionIndex 0
                              (set_currentQuestion None
                                 (set_started false g)))))))).
  assert (H1 : on_playAgain host s =
            Done (putGame c g1 s, [RoomEmit c (gameReset (getPlayerList g1))])).
  { unfold on_playAgain. rewrite Hsg. by rewrite decide_False by (by intros ?). }
  (* startGame *)
  set (g2 := set_started true (set_gradeLevel (Some gl) g1)).
  assert (H2 : on_startGame host gl (putGame c g1 s) =
            Done (putGame c g2 (putGame c g1 s),
                  [RoomEmit c (gameStarted gl); SetTimeout c 1000])).
  { unfold on_startGame. rewrite (socketGame_putGame host c g g1 s Hsg).
    rewrite decide_False by (by intros ?).
    by rewrite (bool_decide_eq_true_2 _ Hgl). }
  (* the first question *)
  destruct (getRandomQuestion_available questions
              (set_questionAnswered false g2) gq rs fuel)
    as (drawn & rs' & Hdraw & Hin); [done| |].
  { unfold available. simpl. intros Hnil.
    destruct (allQuestionsOf gq) as [|q0 l] eqn:Hall; [done|].
    by rewrite filter_cons_True in Hnil by set_solver. }
  destruct (shuffleAnswers (answers drawn) (correctIndex drawn) rs')
    as [[shuffled newIndex] rs2] eqn:Hshuffle.
  set (q := {| question := question drawn; answers := shuffled;
               correctIndex := newIndex; strand := strand drawn;
               question_id := question_id drawn |}).
  set (g3 := set_timerInterval TimerLive
               (set_currentQuestion (Some q)
                  (set_timeRemaining 15
                     (set_questionIndex 1
                        (set_usedQuestions ({[question_id drawn]} ∪ ∅)
                           (set_questionAnswered false g2)))))).
  assert (H3 : sendNextQuestion questions (S fuel) c rs
                 (putGame c g2 (putGame c g1 s)) =
            Done (putGame c g3 (putGame c g2 (putGame c g1 s)),
                  [RoomEmit c (newQuestion (question q) (answers q)
                                 (strand q) 1)])).
  { unfold sendNextQuestion.
    assert (games (putGame c g2 (putGame c g1 s)) !! c = Some g2) as ->
      by (simpl; apply lookup_insert_eq).
    change (negb (started g2) || bool_decide (is_Some (winner g2))) with false.
    cbv iota. rewrite Hdraw. simpl. by rewrite Hshuffle. }
  exists (putGame c g3 (putGame c g2 (putGame c g1 s))), g3, q.
  split.
  { apply (run_cons questions (S fuel) (PlayAgain host) _ s (putGame c g1 s) _
             [RoomEmit c (gameReset (getPlayerList g3))]
             [RoomEmit c (gameStarted gl); SetTimeout c 1000;
              RoomEmit c (newQuestion (question q) (answers q) (strand q) 1)]);
      [exact H1|].
    apply (run_cons questions (S fuel) (StartGame host gl) _ (putGame c g1 s)
             (putGame c g2 (putGame c g1 s)) _
             [RoomEmit c (gameStarted gl); SetTimeout c 1000]
             [RoomEmit c (newQuestion (question q) (answers q) (strand q) 1)]);
      [exact H2|].
    apply (run_cons questions (S fuel) (TimeoutFires c rs) []
             (putGame c g2 (putGame c g1 s))
             (putGame c g3 (putGame c g2 (putGame c g1 s))) _
             [RoomEmit c (newQuestion (question q) (answers q) (strand q) 1)]
             []); [exact H3|done]. }
  split; [simpl; apply lookup_insert_eq|].
  destruct (resetScores_roster (players g)) as (Hkeys & Hroster & Hzero).
  split; [done|]. split; [done|]. split; [done|]. split; [done|].
  split; [simpl; by rewrite (right_id_L ∅ (∪))|].
  split; [done|]. split; done.
Qed.

Lemma playAgain_then_new_game_witness :
  let s := Demo.after (Demo.matchPoint ++ [SubmitAnswer "host" 0]) in
  ∃ s' g' q,
    run Demo.bank 2
        [PlayAgain "host"; StartGame "host" "6th";
         TimeoutFires "ABCD1234" [2]%nat] s =
      Done (s',
            [RoomEmit "ABCD1234" (gameReset (getPlayerList g'));
             RoomEmit "ABCD1234" (gameStarted "6th");
             SetTimeout "ABCD1234" 1000;
             RoomEmit "ABCD1234"
               (newQuestion (question q) (answers q) (strand q) 1)])
    ∧ Forall (λ p, score p = 0%nat) (getPlayerList g').
Proof.
  intros s.
  destruct (playAgain_then_new_game Demo.bank 2 "host" "ABCD1234" "6th"
              [2]%nat s (Demo.gameAt "ABCD1234" s)
              [("algebra",
                [mkBankQuestion "1+1?" ["1"; "2"; "3"; "4"] 1;
                 mkBankQuestion "2+2?" ["4"; "5"; "6"; "7"] 0]);
               ("geometry",
                [mkBankQuestion "Sides of a triangle?" ["2"; "3"] 1])])
    as (s' & g' & q & Hrun & _ & _ & _ & _ & _ & _ & Hzero & _);
    [vm_compute; reflexivity|vm_compute; reflexivity|left
    |reflexivity|discriminate|lia|].
  exists s', g', q. split; [exact Hrun|exact Hzero].
Defined.

Lemma trim_without_edges (core : string) (a z : ascii) :
  Str.isSpace a = false → Str.isSpace z = false →
  Str.trim (String a core ++ String z "")
  = (String a core ++ String z "")%string.
Proof.
  intros Ha Hz. unfold Str.trim.
  assert (Str.trimStart (String a core ++ String z "")
          = (String a core ++ String z "")%string) as ->.
  { rewrite append_cons_l. simpl. by rewrite Ha. }
  by apply trimEnd_ends_nonspace.
Qed.

(** X23.  Closing a room does not detach its members: their [gameCode]
    still holds the code.  When the code is registered again, by any
    socket, such a member is in the new room without joining: its
    [setName] puts it on the new roster. *)
Theorem member_of_closed_room_lands_in_new_room
    (creator member typed core : string) (a z : ascii) (s : Server) :
  isValidCode typed = true →
  games s !! Str.toUpperCase typed = None →
  gameCode s !! member = Some (Str.toUpperCase typed) →
  member ≠ creator →
  Str.isSpace a = false → Str.isSpace z = false →
  let c := Str.toUpperCase typed in
  let nm := (String a core ++ String z "")%string in
  ∃ s1 s2 g2,
    on_createGame creator typed s =
      Done (s1, [SocketJoin creator c; SocketEmit creator (gameCreated c true)])
    ∧ socketGame member s1 = Some (c, newGame c creator)
    ∧ on_setName member nm s1 =
        Done (s2, [RoomEmit c (playerList (getPlayerList g2))])
    ∧ games s2 !! c = Some g2
    ∧ getPlayerList g2 =
        [{| player_id := member; name := substring 0 20 nm; score := 0;
            isHost := false |}].
Proof.
  intros Hvalid Hfree Hmember Hne Ha Hz c nm.
  assert (H1 : on_createGame creator typed s =
            Done (set_gameCode (<[creator := c]> (gameCode s))
                    (putGame c (newGame c creator) s),
                  [SocketJoin creator c;
                   SocketEmit creator (gameCreated c true)])).
  { unfold on_createGame. rewrite Hvalid. simpl.
    by rewrite decide_False by (rewrite Hfree; by intros [? ?]). }
  set (s1 := set_gameCode _ _) in H1.
  assert (Hsg : socketGame member s1 = Some (c, newGame c creator)).
  { apply socketGame_Some. simpl. split.
    - by rewrite lookup_insert_ne.
    - apply lookup_insert_eq. }
  exists s1. eexists _, _. split; [exact H1|]. split; [exact Hsg|].
  assert (Htrim : Str.trim nm = nm).
  { by apply trim_without_edges. }
  unfold on_setName. rewrite Hsg, Htrim.
  rewrite decide_False by (unfold nm; by rewrite append_cons_l).
  split; [reflexivity|]. split; [simpl; apply lookup_insert_eq|].
  unfold getPlayerList, addPlayer. simpl.
  by rewrite bool_decide_eq_false_2.
Qed.

Lemma member_of_closed_room_lands_in_new_room_witness :
  let s := Demo.after (Demo.lobby ++ [Disconnect "host"]) in
  games s !! "ABCD1234" = None
  ∧ gameCode s !! "guest" = Some "ABCD1234"
  ∧ ∃ s1 s2 g2,
      on_createGame "other" "abcd1234" s =
        Done (s1, [SocketJoin "other" "ABCD1234";
                   SocketEmit "other" (gameCreated "ABCD1234" true)])
      ∧ on_setName "guest" "Bob" s1 =
          Done (s2, [RoomEmit "ABCD1234" (playerList (getPlayerList g2))])
      ∧ getPlayerList g2 =
          [{| player_id := "guest"; name := "Bob"; score := 0;
              isHost := false |}].
Proof.
  intros s.
  assert (Hfree : games s !! "ABCD1234" = None) by (vm_compute; reflexivity).
  assert (Hguest : gameCode s !! "guest" = Some "ABCD1234")
    by (vm_compute; reflexivity).
  split; [exact Hfree|]. split; [exact Hguest|].
  destruct (member_of_closed_room_lands_in_new_room "other" "guest"
              "abcd1234" "o" "B"%char "b"%char s)
    as (s1 & s2 & g2 & H1 & _ & H2 & _ & H3);
    [reflexivity|exact Hfree|exact Hguest|discriminate|reflexivity..|].
  exists s1, s2, g2. split; [exact H1|]. split; [exact H2|exact H3].
Defined.
